(** * nussl [AudioSignal]: a shallow embedding of [nussl/core/audio_signal.py]

    The container keeps a time-domain array, a time-frequency array and an
    active region.  Its methods mutate the object and may raise after a
    mutation has already happened, so every method is a computation in a
    state-and-exception monad whose state survives a raise.  numpy arrays
    are a shape with a row-major buffer; samples are IEEE binary64 numbers
    (Rocq's primitive floats) or 64-bit integers, as numpy's [float64] and
    [int64]. *)

From Stdlib Require Import ZArith List Bool Lia Floats Uint63.
From Stdlib Require String.
Import ListNotations.
Local Open Scope Z_scope.

Abbreviation string := String.string.

Set Implicit Arguments.

(** ** Python exceptions, warnings and the method monad *)

Inductive exc : Type :=
| ValueError (msg : string)
| TypeError (msg : string)
| IndexError (msg : string)
| AttributeError (msg : string)
| ZeroDivisionError (msg : string)
| Exception (msg : string).

Definition result (A : Type) : Type := (exc + A)%type.

Definition is_raise {A} (r : result A) : bool :=
  match r with inl _ => true | inr _ => false end.

(** ** numpy arrays *)

Record ndarray (A : Type) : Type := mk_ndarray
  { shape : list nat;      (* [a.shape] *)
    flat : list A }.       (* the buffer, in C (row-major) order *)

Arguments mk_ndarray {A} shape flat.

Definition size_of (sh : list nat) : nat := fold_right Nat.mul 1%nat sh.

Definition ndim {A} (a : ndarray A) : nat := length (shape a).
Definition size {A} (a : ndarray A) : nat := size_of (shape a).

(** A buffer holds exactly [size] elements. *)
Definition well_shaped {A} (a : ndarray A) : bool :=
  Nat.eqb (length (flat a)) (size a).

Definition shape_eqb (s1 s2 : list nat) : bool :=
  if list_eq_dec Nat.eq_dec s1 s2 then true else false.

(** [chunks n k l]: the first [n] consecutive blocks of [k] elements of [l]. *)
Fixpoint chunks {A} (n k : nat) (l : list A) : list (list A) :=
  match n with
  | O => []
  | S n' => firstn k l :: chunks n' k (skipn k l)
  end.

(** Python's normalisation of one bound of a slice over [len] elements. *)
Definition slice_bound (len : nat) (i : Z) : nat :=
  if i <? 0 then Z.to_nat (Z.max (i + Z.of_nat len) 0)
  else Z.to_nat (Z.min i (Z.of_nat len)).

(** Row-major multi-indices of a shape, and the buffer offset of one. *)
Fixpoint indices (sh : list nat) : list (list nat) :=
  match sh with
  | [] => [[]]
  | d :: rest => flat_map (fun i => map (cons i) (indices rest)) (seq 0 d)
  end.

Fixpoint offset_from (acc : nat) (sh idx : list nat) : nat :=
  match sh, idx with
  | d :: sh', i :: idx' => offset_from (acc * d + i) sh' idx'
  | _, _ => acc
  end.

Definition item {A} (a : ndarray A) (idx : list nat) : list A :=
  match nth_error (flat a) (offset_from 0 (shape a) idx) with
  | Some x => [x]
  | None => []
  end.

(** ** Sample types: [int64], [float64], [complex128] *)

Definition zip_with {A B C} (f : A -> B -> C) (l1 : list A) (l2 : list B) : list C :=
  map (fun p => f (fst p) (snd p)) (combine l1 l2).

(** Two's-complement wrap-around of numpy's [int64] arithmetic. *)
Definition wrap64 (z : Z) : Z := (z + 2 ^ 63) mod 2 ^ 64 - 2 ^ 63.
Definition in_int64 (z : Z) : bool := (- 2 ^ 63 <=? z) && (z <? 2 ^ 63).

(** An integer as the nearest binary64 number (ties to even). *)
Definition float_of_Z (z : Z) : float := SF2Prim (binary_normalize prec emax z 0 false).

(** A finite binary64 number truncated toward zero (C's cast to an integer
    type); 0 stands in for the non-finite ones, where C leaves the result
    undefined. *)
Definition Z_of_float (f : float) : Z :=
  match Prim2SF f with
  | S754_finite s m e =>
      let mag := if 0 <=? e then Z.pos m * 2 ^ e else Z.pos m / 2 ^ (- e) in
      if s then - mag else mag
  | _ => 0
  end.

Record complex : Type := mk_complex { re : float; im : float }.

(** numpy's [complex128] product. *)
Definition cmul (x y : complex) : complex :=
  mk_complex (re x * re y - im x * im y)%float (re x * im y + im x * re y)%float.

(** A Python number passed where the source tests [numbers.Real], and a
    numpy scalar such as the result of [np.max]. *)
Inductive pynum : Type :=
| PyInt (z : Z)
| PyFloat (f : float).

(** A real-valued numpy array with its dtype. *)
Inductive array : Type :=
| IntArr (a : ndarray Z)
| FloatArr (a : ndarray float).

Definition is_float_dtype (a : array) : bool :=
  match a with IntArr _ => false | FloatArr _ => true end.

Definition arr_shape (a : array) : list nat :=
  match a with IntArr x => shape x | FloatArr x => shape x end.

Definition arr_ndim (a : array) : nat := List.length (arr_shape a).
Definition arr_size (a : array) : nat := size_of (arr_shape a).

Definition arr_well_shaped (a : array) : bool :=
  match a with IntArr x => well_shaped x | FloatArr x => well_shaped x end.

(** Shape-only operations act alike on both dtypes. *)
Definition lift (f : forall A, ndarray A -> ndarray A) (a : array) : array :=
  match a with IntArr x => IntArr (f Z x) | FloatArr x => FloatArr (f float x) end.

Definition lift_opt (f : forall A, ndarray A -> option (ndarray A)) (a : array) : option array :=
  match a with
  | IntArr x => option_map IntArr (f Z x)
  | FloatArr x => option_map FloatArr (f float x)
  end.

Definition map_array {A B} (f : A -> B) (a : ndarray A) : ndarray B :=
  mk_ndarray (shape a) (map f (flat a)).

(** numpy broadcasting: shapes are aligned on their last axes; extents must
    agree or be 1. *)
Fixpoint broadcast_rev (r1 r2 : list nat) : option (list nat) :=
  match r1, r2 with
  | [], r | r, [] => Some r
  | d1 :: t1, d2 :: t2 =>
      match broadcast_rev t1 t2 with
      | None => None
      | Some t =>
          if Nat.eqb d1 d2 then Some (d1 :: t)
          else if Nat.eqb d1 1 then Some (d2 :: t)
          else if Nat.eqb d2 1 then Some (d1 :: t)
          else None
      end
  end.

Definition broadcast_shape (s1 s2 : list nat) : option (list nat) :=
  option_map (@rev nat) (broadcast_rev (rev s1) (rev s2)).

Definition project (sh idx : list nat) : list nat :=
  map (fun p => if Nat.eqb (fst p) 1 then 0%nat else snd p)
      (combine sh (skipn (List.length idx - List.length sh) idx)).

Definition broadcast2 {A B C} (f : A -> B -> C) (a : ndarray A) (b : ndarray B)
  : option (ndarray C) :=
  if shape_eqb (shape a) (shape b)
  then Some (mk_ndarray (shape a) (zip_with f (flat a) (flat b)))
  else match broadcast_shape (shape a) (shape b) with
       | None => None
       | Some sh =>
           Some (mk_ndarray sh
                   (flat_map (fun idx =>
                                zip_with f (item a (project (shape a) idx))
                                           (item b (project (shape b) idx)))
                             (indices sh)))
       end.

(** ** The numpy operations the source calls *)

Module np.

Section Structural.
Context {A : Type}.

(** [a.T]: the axes reversed. *)
Definition transpose (a : ndarray A) : ndarray A :=
  mk_ndarray (rev (shape a))
             (flat_map (fun idx => item a (rev idx)) (indices (rev (shape a)))).

(** [np.expand_dims(a, axis)] for an axis counted from the front. *)
Definition expand_dims (a : ndarray A) (axis : nat) : ndarray A :=
  mk_ndarray (firstn axis (shape a) ++ 1%nat :: skipn axis (shape a)) (flat a).

(** [np.expand_dims(a, -1)]. *)
Definition expand_dims_last (a : ndarray A) : ndarray A :=
  expand_dims a (ndim a).

(** The blocks of [a] obtained by fixing every axis before [axis]; each
    holds [dk * inner] elements, [dk] the extent of [axis]. *)
Definition outer (a : ndarray A) (axis : nat) : nat := size_of (firstn axis (shape a)).
Definition inner (a : ndarray A) (axis : nat) : nat := size_of (skipn (S axis) (shape a)).

Definition blocks (a : ndarray A) (axis dk : nat) : list (list A) :=
  chunks (outer a axis) (dk * inner a axis) (flat a).

(** [a[:, ..., start:stop]] with the slice on [axis]; [None] when the
    array has no such axis (numpy: IndexError, too many indices). *)
Definition slice_axis (a : ndarray A) (axis : nat) (start stop : Z) : option (ndarray A) :=
  match nth_error (shape a) axis with
  | None => None
  | Some dk =>
      let s := slice_bound dk start in
      let e := slice_bound dk stop in
      let n := (e - s)%nat in
      Some (mk_ndarray
              (firstn axis (shape a) ++ n :: skipn (S axis) (shape a))
              (flat_map (fun blk => firstn (n * inner a axis) (skipn (s * inner a axis) blk))
                        (blocks a axis dk)))
  end.

(** Index [i] along [axis], the axis dropped; [None] when out of bounds. *)
Definition take_axis (a : ndarray A) (axis : nat) (i : nat) : option (ndarray A) :=
  match nth_error (shape a) axis with
  | None => None
  | Some dk =>
      if (i <? dk)%nat then
        Some (mk_ndarray
                (firstn axis (shape a) ++ skipn (S axis) (shape a))
                (flat_map (fun blk => firstn (inner a axis) (skipn (i * inner a axis) blk))
                          (blocks a axis dk)))
      else None
  end.

(** [np.concatenate((a, b), axis)]: equal rank and equal extents off
    the axis, or [None] (numpy: ValueError). *)
Definition concatenate (a b : ndarray A) (axis : nat) : option (ndarray A) :=
  match nth_error (shape a) axis, nth_error (shape b) axis with
  | Some da, Some db =>
      if shape_eqb (firstn axis (shape a)) (firstn axis (shape b))
         && shape_eqb (skipn (S axis) (shape a)) (skipn (S axis) (shape b))
      then Some (mk_ndarray
                   (firstn axis (shape a) ++ (da + db)%nat :: skipn (S axis) (shape a))
                   (concat (map (fun p => fst p ++ snd p)
                                (combine (blocks a axis da) (blocks b axis db)))))
      else None
  | _, _ => None
  end.

(** [np.lib.pad(a, (before, after), 'constant')] with fill value [z]:
    every axis grows by [before] in front and [after] behind. *)
Fixpoint pad_buffer (z : A) (before after : nat) (sh : list nat) (l : list A) : list A :=
  match sh with
  | [] => l
  | d :: rest =>
      let fill := repeat z (size_of (map (fun k => (before + k + after)%nat) rest)) in
      concat (repeat fill before
              ++ map (pad_buffer z before after rest) (chunks d (size_of rest) l)
              ++ repeat fill after)
  end.

Definition pad (z : A) (a : ndarray A) (before after : nat) : ndarray A :=
  mk_ndarray (map (fun k => (before + k + after)%nat) (shape a))
             (pad_buffer z before after (shape a) (flat a)).

(** [np.array([a0, a1, ...])] of arrays of one shape; [None] when the
    shapes differ. *)
Definition stack (l : list (ndarray A)) : option (ndarray A) :=
  match l with
  | [] => Some (mk_ndarray [0%nat] [])
  | a0 :: _ =>
      if forallb (fun a => shape_eqb (shape a) (shape a0)) l
      then Some (mk_ndarray (length l :: shape a0) (flat_map (@flat A) l))
      else None
  end.

(** [a.transpose(axes)]: axis [k] of the result is axis [nth k axes] of
    [a]; [None] unless [axes] lists every axis once (numpy: ValueError). *)
Fixpoint index_of (d : nat) (axes : list nat) : nat :=
  match axes with
  | [] => 0
  | x :: rest => if Nat.eqb x d then 0 else S (index_of d rest)
  end.

Definition is_permutation (axes : list nat) (n : nat) : bool :=
  Nat.eqb (length axes) n && forallb (fun d => existsb (Nat.eqb d) axes) (seq 0 n).

Definition transpose_axes (a : ndarray A) (axes : list nat) : option (ndarray A) :=
  if is_permutation axes (ndim a) then
    let sh := map (fun k => nth k (shape a) 0%nat) axes in
    Some (mk_ndarray sh
            (flat_map (fun idx =>
                         item a (map (fun d => nth (index_of d axes) idx 0%nat)
                                     (seq 0 (ndim a))))
                      (indices sh)))
  else None.

(** The lanes of [a] along [axis], in the order of the result of a
    reduction over that axis: one list of [dk] elements for every index
    of the other axes. *)
Definition lanes (a : ndarray A) (axis dk : nat) : list (list A) :=
  flat_map (fun blk =>
              map (fun p => flat_map (fun row => firstn 1 (skipn p row))
                                     (chunks dk (inner a axis) blk))
                  (seq 0 (inner a axis)))
           (blocks a axis dk).

(** A reduction [f] over [axis], as [np.mean(a, axis, keepdims)] shapes
    its result; [None] when the array has no such axis (numpy: an
    AxisError, which is a ValueError). *)
Definition reduce_axis {B} (f : list A -> B) (a : ndarray A) (axis : nat) (keepdims : bool)
  : option (ndarray B) :=
  match nth_error (shape a) axis with
  | None => None
  | Some dk =>
      Some (mk_ndarray (firstn axis (shape a)
                          ++ (if keepdims then [1%nat] else []) ++ skipn (S axis) (shape a))
                       (map f (lanes a axis dk)))
  end.

End Structural.

(** Elementwise and reducing operations, by dtype. *)

Definition isfinite_all (a : array) : bool :=
  match a with
  | IntArr _ => true
  | FloatArr x => forallb is_finite (flat x)
  end.

(** [a.astype('float')]. *)
Definition astype_float (a : array) : ndarray float :=
  match a with
  | IntArr x => map_array float_of_Z x
  | FloatArr x => x
  end.

(** [a + b]; [None] when the shapes do not broadcast (ValueError). *)
Definition add (a b : array) : option array :=
  match a, b with
  | IntArr x, IntArr y => option_map IntArr (broadcast2 (fun u v => wrap64 (u + v)) x y)
  | _, _ => option_map FloatArr (broadcast2 PrimFloat.add (astype_float a) (astype_float b))
  end.

(** [a * v] and [np.multiply(a, v)] for a Python scalar [v].  An integer
    array times a Python integer beyond [int64] becomes an object array
    in numpy, which no later step of the source accepts: [None]. *)
Definition multiply (a : array) (v : pynum) : option array :=
  match a, v with
  | IntArr x, PyInt z =>
      if in_int64 z then Some (IntArr (map_array (fun u => wrap64 (u * z)) x)) else None
  | _, PyInt z => Some (FloatArr (map_array (fun u => u * float_of_Z z)%float (astype_float a)))
  | _, PyFloat f => Some (FloatArr (map_array (fun u => u * f)%float (astype_float a)))
  end.

(** [np.abs(a)]. *)
Definition abs (a : array) : array :=
  match a with
  | IntArr x => IntArr (map_array (fun u => wrap64 (Z.abs u)) x)
  | FloatArr x => FloatArr (map_array PrimFloat.abs x)
  end.

(** The larger of two floats as [np.max] folds them: a NaN wins. *)
Definition fmax (x y : float) : float :=
  if is_nan x then x else if is_nan y then y else if (x <? y)%float then y else x.

(** [np.max(a)]; [None] on an empty array (ValueError). *)
Definition max (a : array) : option pynum :=
  match a with
  | IntArr x =>
      match flat x with [] => None | u :: l => Some (PyInt (fold_left Z.max l u)) end
  | FloatArr x =>
      match flat x with [] => None | u :: l => Some (PyFloat (fold_left fmax l u)) end
  end.

Definition to_float (v : pynum) : float :=
  match v with PyInt z => float_of_Z z | PyFloat f => f end.

(** [x / v] for a float array and a scalar. *)
Definition divide (x : ndarray float) (v : pynum) : ndarray float :=
  map_array (fun u => u / to_float v)%float x.

(** [a.astype('int<bits>')] for the widths numpy has; floats are cut
    toward zero and the result wraps to the width. *)
Definition wrap_bits (bits z : Z) : Z :=
  (z + 2 ^ (bits - 1)) mod 2 ^ bits - 2 ^ (bits - 1).

Definition astype_int (bits : Z) (a : array) : ndarray Z :=
  match a with
  | IntArr x => map_array (wrap_bits bits) x
  | FloatArr x => map_array (fun u => wrap_bits bits (Z_of_float u)) x
  end.

(** [np.concatenate] and [np.lib.pad] on typed arrays; mixed dtypes
    promote to float. *)
Definition concatenate_arr (a b : array) (axis : nat) : option array :=
  match a, b with
  | IntArr x, IntArr y => option_map IntArr (concatenate x y axis)
  | _, _ => option_map FloatArr (concatenate (astype_float a) (astype_float b) axis)
  end.

Definition pad_arr (a : array) (before after : nat) : array :=
  match a with
  | IntArr x => IntArr (pad 0 x before after)
  | FloatArr x => FloatArr (pad 0%float x before after)
  end.

End np.

(** ** Python values and the object *)

(** Modelled from the spec: [constants.py] is absent from the sources.  The
    class fixes [_CHAN = 0] and [_LEN = 1] and documents [audio_data] as
    [(n_channels, n_samples)] and [stft_data] as
    [(n_frequency_bins, n_hops, n_channels)]. *)
Definition CHAN_INDEX : nat := 0.
Definition LEN_INDEX : nat := 1.
Definition STFT_CHAN_INDEX : nat := 2.

(** Modelled from the spec: [stft_utils.StftParams] is absent; the fields
    are the ones [stft] and [istft] read. *)
Module stft_utils.
Record StftParams : Type := mk_StftParams
  { window_length : Z;
    hop_length : Z;
    window_type : string;
    n_fft_bins : Z }.
End stft_utils.

(** What a caller may assign to [audio_data] or [stft_data]. *)
Inductive pyobj (A : Type) : Type :=
| PyNone
| PyNdarray (a : A)
| PyOther.                       (* any object that is not an [np.ndarray] *)

Arguments PyNone {A}.
Arguments PyNdarray {A} a.
Arguments PyOther {A}.

Record AudioSignal : Type := mk_AudioSignal
  { path_to_input_file : option string;
    _audio_data : option array;
    _stft_data : option (ndarray complex);
    _sample_rate : option Z;
    _active_start : option Z;
    _active_end : option Z;
    stft_params : stft_utils.StftParams;
    use_librosa_stft : bool }.

Definition with_audio_data (v : option array) (s : AudioSignal) : AudioSignal :=
  mk_AudioSignal (path_to_input_file s) v (_stft_data s) (_sample_rate s)
                 (_active_start s) (_active_end s) (stft_params s) (use_librosa_stft s).

Definition with_stft_data (v : option (ndarray complex)) (s : AudioSignal) : AudioSignal :=
  mk_AudioSignal (path_to_input_file s) (_audio_data s) v (_sample_rate s)
                 (_active_start s) (_active_end s) (stft_params s) (use_librosa_stft s).

Definition with_active_start (v : option Z) (s : AudioSignal) : AudioSignal :=
  mk_AudioSignal (path_to_input_file s) (_audio_data s) (_stft_data s) (_sample_rate s)
                 v (_active_end s) (stft_params s) (use_librosa_stft s).

Definition with_active_end (v : option Z) (s : AudioSignal) : AudioSignal :=
  mk_AudioSignal (path_to_input_file s) (_audio_data s) (_stft_data s) (_sample_rate s)
                 (_active_start s) v (stft_params s) (use_librosa_stft s).

Definition with_path_to_input_file (v : option string) (s : AudioSignal) : AudioSignal :=
  mk_AudioSignal v (_audio_data s) (_stft_data s) (_sample_rate s)
                 (_active_start s) (_active_end s) (stft_params s) (use_librosa_stft s).

Definition with_sample_rate (v : option Z) (s : AudioSignal) : AudioSignal :=
  mk_AudioSignal (path_to_input_file s) (_audio_data s) (_stft_data s) v
                 (_active_start s) (_active_end s) (stft_params s) (use_librosa_stft s).

Definition with_stft_params (v : stft_utils.StftParams) (s : AudioSignal) : AudioSignal :=
  mk_AudioSignal (path_to_input_file s) (_audio_data s) (_stft_data s) (_sample_rate s)
                 (_active_start s) (_active_end s) v (use_librosa_stft s).

Definition with_use_librosa_stft (v : bool) (s : AudioSignal) : AudioSignal :=
  mk_AudioSignal (path_to_input_file s) (_audio_data s) (_stft_data s) (_sample_rate s)
                 (_active_start s) (_active_end s) (stft_params s) v.

(** ** The method monad: the object and the warnings issued so far; both
    survive a raise. *)

Record world : Type := mk_world
  { self : AudioSignal;
    warned : list string }.

Definition M (A : Type) : Type := world -> result A * world.

Definition ret {A} (x : A) : M A := fun w => (inr x, w).

Definition bind {A B} (m : M A) (k : A -> M B) : M B :=
  fun w => match m w with
           | (inl e, w') => (inl e, w')
           | (inr a, w') => k a w'
           end.

Definition raise {A} (e : exc) : M A := fun w => (inl e, w).

Definition get : M AudioSignal := fun w => (inr (self w), w).

Definition modify (f : AudioSignal -> AudioSignal) : M unit :=
  fun w => (inr tt, mk_world (f (self w)) (warned w)).

(** [warnings.warn(msg)]. *)
Definition warn (msg : string) : M unit :=
  fun w => (inr tt, mk_world (self w) (warned w ++ [msg])).

(** Run a method on another object [o]; our own object is untouched, and
    [o] as the method left it is returned. *)
Definition with_object {A} (o : AudioSignal) (m : M A) : M (A * AudioSignal) :=
  fun w => match m (mk_world o (warned w)) with
           | (inl e, w') => (inl e, mk_world (self w) (warned w'))
           | (inr a, w') => (inr (a, self w'), mk_world (self w) (warned w'))
           end.

(** Read a property of another object. *)
Definition on {A} (o : AudioSignal) (m : M A) : M A :=
  bind (with_object o m) (fun p => ret (fst p)).

Declare Scope py_scope.
Delimit Scope py_scope with py.
Notation "x <- m ;; k" := (bind m (fun x => k))
  (at level 61, m at next level, right associativity) : py_scope.
Notation "m ;; k" := (bind m (fun _ => k))
  (at level 61, right associativity) : py_scope.
Local Open Scope py_scope.

(** [if c: raise e]. *)
Definition raise_if (c : bool) (e : exc) : M unit :=
  if c then raise e else ret tt.

(** [for x in l: body x]. *)
Fixpoint for_each {A} (l : list A) (body : A -> M unit) : M unit :=
  match l with
  | [] => ret tt
  | x :: l' => body x ;; for_each l' body
  end.

(** [[f(x) for x in l]], also a generator drained by a loop. *)
Fixpoint for_collect {A B} (l : list A) (f : A -> M B) : M (list B) :=
  match l with
  | [] => ret []
  | x :: l' => y <- f x ;; ys <- for_collect l' f ;; ret (y :: ys)
  end.

Definition range (n : Z) : list Z := map Z.of_nat (seq 0 (Z.to_nat n)).

(** Python 2 orders [None] below every number. *)
Definition py_lt (a : Z) (b : option Z) : bool :=
  match b with None => false | Some b' => a <? b' end.
Definition py_gt (a : Z) (b : option Z) : bool :=
  match b with None => true | Some b' => b' <? a end.
Definition py_ge (a : Z) (b : option Z) : bool :=
  match b with None => true | Some b' => b' <=? a end.

Definition opt_eqb (a b : option Z) : bool :=
  match a, b with
  | None, None => true
  | Some x, Some y => x =? y
  | _, _ => false
  end.

Module Msg.
Import String.
Local Open Scope string_scope.
Definition tuple_index := "tuple index out of range".
Definition too_many_indices := "too many indices for array".
Definition index_out_of_bounds := "index is out of bounds for axis".
Definition none_attribute := "'NoneType' object has no attribute".
Definition none_operand := "unsupported operand type(s): 'NoneType'".
Definition audio_type := "Type of self.audio_data must be of type np.ndarray!".
Definition not_finite := "Not all values of audio_data are finite!".
Definition transposing := "self.audio_data is not as we expect it. Transposing signal...".
Definition audio_rank := "self.audio_data cannot have more than 2 dimensions!".
Definition stft_type := "Type of self.stft_data must be of type np.ndarray!".
Definition stft_rank_low := "Cannot support arrays with less than 2 dimensions!".
Definition stft_rank_high := "Cannot support arrays with more than 3 dimensions!".
Definition no_stft := "Cannot do inverse STFT without self.stft_data!".
Definition mask_type := "mask is {} but is expected to be a MaskBase-derived object!".
Definition mask_shape := "Input mask and self.stft_data are not the same shape! mask: {}, self.stft_data: {}".
Definition truncate_long := "n_samples must be less than self.signal_length!".
Definition truncate_region := "Cannot truncate while active region is not set as default!".
Definition truncate_seconds_long := "n_seconds must be shorter than self.signal_duration!".
Definition crop_region := "Cannot crop signal while active region is not set as default!".
Definition pad_region := "Cannot zero-pad while active region is not set as default!".
Definition bit_depth := "Cannot convert self.audio_data to integer array of bit depth = {}".
Definition not_scalar := "Can only multiply/divide by a scalar!".
Definition channel_bounds := "Cannot get channel {0} when this object only has {1} channels! (0-based)".
Definition channel_negative := "Cannot get channel {}. This will cause unexpected results".
Definition verify_channels := "Cannot do operation with two signals that have a different number of channels!".
Definition verify_rates := "Cannot do operation with two signals that have different sample rates!".
Definition verify_region := "Cannot do operation while active region is not set as default!".
Definition verify_length := "Cannot do arithmetic with signals of different length!".
Definition numpy_empty_max := "zero-size array to reduction operation maximum which has no identity".
Definition numpy_concatenate := "all the input array dimensions except for the concatenation axis must match exactly".
Definition numpy_broadcast := "operands could not be broadcast together".
Definition numpy_pad_negative := "index can't contain negative values".
Definition numpy_object_array := "ufunc 'isfinite' not supported for the input types".
Definition numpy_dtype := "data type not understood".
Definition numpy_ragged := "setting an array element with a sequence".
Definition slice_index := "slice indices must be integers or None or have an __index__ method".
Definition range_none := "range() integer end argument expected, got NoneType.".
Definition division_by_zero := "division by zero".
Definition copy_region := "Making a copy when active region is not default.".
Definition copy_shape := "Shape of new stft_data does not match current stft_data.".
Definition window_hann := "hann".
Definition no_stft_length := "Cannot calculate stft_length until self.stft() is run".
Definition no_num_fft_bins := "Cannot calculate num_fft_bins until self.stft() is run".
Definition no_signal := "No time domain signal (self.audio_data) to make STFT from!".
Definition no_signal_stft := "Cannot do stft without signal!".
Definition convert_16bit := "Please convert your array to 16-bit audio.".
Definition init_sources := "Can only initialize AudioSignal object with one of [path, audio, stft]!".
Definition resample_same := "Cannot resample to the same sample rate.".
Definition copy_audio_shape := "Shape of new audio_data does not match current audio_data.".
Definition float_division := "float division by zero".
Definition overflow_float := "OverflowError: long int too large to convert to float".
Definition numpy_axis := "'axis' entry is out of bounds".
Definition numpy_axes := "axes don't match array".
End Msg.

(** ** Properties *)

(** [a.shape[k]]. *)
Definition shape_at (a : array) (k : nat) : M Z :=
  match nth_error (arr_shape a) k with
  | Some d => ret (Z.of_nat d)
  | None => raise (IndexError Msg.tuple_index)
  end.

(** [a[:, start:stop]]. *)
Definition slice_samples (a : array) (start stop : Z) : M array :=
  match lift_opt (fun A x => np.slice_axis x LEN_INDEX start stop) a with
  | Some r => ret r
  | None => raise (IndexError Msg.too_many_indices)
  end.

(** The [audio_data] property: the stored array seen through the active
    region. *)
Definition audio_data : M (option array) :=
  s <- get ;;
  match _audio_data s with
  | None => ret None
  | Some a =>
      full <- shape_at a LEN_INDEX ;;
      let stop := match _active_end s with
                  | Some e => if e <? full then e else full
                  | None => full
                  end in
      let start := match _active_start s with
                   | Some b => if 0 <? b then b else 0
                   | None => 0
                   end in
      r <- slice_samples a start stop ;;
      ret (Some r)
  end.

Definition stft_data : M (option (ndarray complex)) :=
  s <- get ;; ret (_stft_data s).

Definition sample_rate : M (option Z) :=
  s <- get ;; ret (_sample_rate s).

Definition signal_length : M (option Z) :=
  a <- audio_data ;;
  match a with
  | None => ret None
  | Some a' => n <- shape_at a' LEN_INDEX ;; ret (Some n)
  end.

Definition _signal_length : M (option Z) :=
  s <- get ;;
  match _audio_data s with
  | None => ret None
  | Some a => n <- shape_at a LEN_INDEX ;; ret (Some n)
  end.

Definition num_channels : M (option Z) :=
  a <- audio_data ;;
  match a with
  | Some a' => n <- shape_at a' CHAN_INDEX ;; ret (Some n)
  | None =>
      t <- stft_data ;;
      match t with
      | Some t' =>
          match nth_error (shape t') STFT_CHAN_INDEX with
          | Some d => ret (Some (Z.of_nat d))
          | None => raise (IndexError Msg.tuple_index)
          end
      | None => ret None
      end
  end.

Definition active_region_is_default : M bool :=
  s <- get ;;
  if opt_eqb (_active_start s) (Some 0)
  then (n <- _signal_length ;; ret (opt_eqb (_active_end s) n))
  else ret false.

(** ** Active region *)

Definition set_active_region (start stop : Z) : M unit :=
  modify (with_active_start (Some (if 0 <=? start then start else 0))) ;;
  n <- _signal_length ;;
  modify (with_active_end (if py_lt stop n then Some stop else n)).

Definition set_active_region_to_default : M unit :=
  modify (with_active_start (Some 0)) ;;
  n <- _signal_length ;;
  modify (with_active_end n).

(** ** Assignment to [audio_data] and [stft_data] *)

Definition audio_data_setter (value : pyobj array) : M unit :=
  match value with
  | PyNone => modify (with_audio_data None)
  | PyOther => raise (ValueError Msg.audio_type)
  | PyNdarray v =>
      raise_if (negb (np.isfinite_all v)) (ValueError Msg.not_finite) ;;
      v1 <- (if (1 <? arr_ndim v)%nat
                && (nth LEN_INDEX (arr_shape v) 0 <? nth CHAN_INDEX (arr_shape v) 0)%nat
             then warn Msg.transposing ;; ret (lift (@np.transpose) v)
             else ret v) ;;
      raise_if (2 <? arr_ndim v1)%nat (ValueError Msg.audio_rank) ;;
      let v2 := if (arr_ndim v1 <? 2)%nat
                then lift (fun A x => np.expand_dims x CHAN_INDEX) v1
                else v1 in
      modify (with_audio_data (Some v2)) ;;
      set_active_region_to_default
  end.

Definition stft_data_setter (value : pyobj (ndarray complex)) : M unit :=
  match value with
  | PyNone => modify (with_stft_data None)
  | PyOther => raise (ValueError Msg.stft_type)
  | PyNdarray v =>
      raise_if (ndim v =? 1)%nat (ValueError Msg.stft_rank_low) ;;
      let v1 := if (ndim v =? 2)%nat then np.expand_dims v STFT_CHAN_INDEX else v in
      raise_if (3 <? ndim v1)%nat (ValueError Msg.stft_rank_high) ;;
      modify (with_stft_data (Some v1))
  end.

(** ** Channel utilities *)

Definition _verify_get_channel (n : Z) : M unit :=
  c <- num_channels ;;
  raise_if (py_ge n c) (ValueError Msg.channel_bounds) ;;
  raise_if (n <? 0) (ValueError Msg.channel_negative).

(** Modelled from the spec: [utils._get_axis(array, axis, i)] is absent; by
    the docstrings of its callers it returns index [i] of the array along
    the axis, one rank lower. *)
Definition _get_axis {A} (take : A -> option A) (a : option A) : M A :=
  match a with
  | None => raise (AttributeError Msg.none_attribute)
  | Some a' =>
      match take a' with
      | Some r => ret r
      | None => raise (IndexError Msg.index_out_of_bounds)
      end
  end.

Definition get_channel (n : Z) : M array :=
  _verify_get_channel n ;;
  a <- audio_data ;;
  _get_axis (lift_opt (fun A x => np.take_axis x CHAN_INDEX (Z.to_nat n))) a.

Definition get_stft_channel (n : Z) : M (ndarray complex) :=
  _verify_get_channel n ;;
  t <- stft_data ;;
  _get_axis (fun x => np.take_axis x STFT_CHAN_INDEX (Z.to_nat n)) t.

(** [for i in range(self.num_channels)], the bound read once. *)
Definition channel_range : M (list Z) :=
  c <- num_channels ;;
  match c with
  | Some n => ret (range n)
  | None => raise (TypeError Msg.range_none)
  end.

Definition get_stft_channels : M (list (ndarray complex)) :=
  l <- channel_range ;; for_collect l get_stft_channel.

(** ** Checks shared by the mutators *)

Definition _verify_audio (other : AudioSignal) : M unit :=
  c <- num_channels ;;
  c' <- on other num_channels ;;
  raise_if (negb (opt_eqb c c')) (Exception Msg.verify_channels) ;;
  r <- sample_rate ;;
  r' <- on other sample_rate ;;
  raise_if (negb (opt_eqb r r')) (Exception Msg.verify_rates) ;;
  d <- active_region_is_default ;;
  raise_if (negb d) (Exception Msg.verify_region).

Definition _verify_audio_arithmetic (other : AudioSignal) : M unit :=
  _verify_audio other ;;
  n <- signal_length ;;
  n' <- on other signal_length ;;
  raise_if (negb (opt_eqb n n')) (ValueError Msg.verify_length).

(** ** Utilities *)

Definition concat (other : AudioSignal) : M unit :=
  _verify_audio other ;;
  a <- audio_data ;;
  b <- on other audio_data ;;
  match a, b with
  | Some a', Some b' =>
      match np.concatenate_arr a' b' LEN_INDEX with
      | Some c => audio_data_setter (PyNdarray c)
      | None => raise (ValueError Msg.numpy_concatenate)
      end
  | _, _ => raise (ValueError Msg.numpy_concatenate)
  end.

(** [n > m] for a Python number [n] and an int-or-None [m]. *)
Definition num_gt (n : pynum) (m : option Z) : bool :=
  match n, m with
  | _, None => true
  | PyInt z, Some m' => m' <? z
  | PyFloat f, Some m' => (float_of_Z m' <? f)%float
  end.

Definition truncate_samples (n_samples : pynum) : M unit :=
  len <- signal_length ;;
  raise_if (num_gt n_samples len) (ValueError Msg.truncate_long) ;;
  d <- active_region_is_default ;;
  raise_if (negb d) (Exception Msg.truncate_region) ;;
  a <- audio_data ;;
  match a, n_samples with
  | None, _ => raise (TypeError Msg.none_attribute)
  | Some _, PyFloat _ => raise (TypeError Msg.slice_index)
  | Some a', PyInt n => r <- slice_samples a' 0 n ;; audio_data_setter (PyNdarray r)
  end.

(** [self.signal_length / self.sample_rate] under true division. *)
Definition signal_duration : M (option float) :=
  len <- signal_length ;;
  match len with
  | None => ret None
  | Some n =>
      r <- sample_rate ;;
      match r with
      | None => raise (TypeError Msg.none_operand)
      | Some r' =>
          if r' =? 0 then raise (ZeroDivisionError Msg.division_by_zero)
          else ret (Some (float_of_Z n / float_of_Z r')%float)
      end
  end.

Definition truncate_seconds (n_seconds : pynum) : M unit :=
  d <- signal_duration ;;
  raise_if (match d with
            | None => true
            | Some d' => (d' <? np.to_float n_seconds)%float
            end) (Exception Msg.truncate_seconds_long) ;;
  dflt <- active_region_is_default ;;
  raise_if (negb dflt) (Exception Msg.truncate_region) ;;
  r <- sample_rate ;;
  match r, n_seconds with
  | None, _ => raise (TypeError Msg.none_operand)
  | Some r', PyInt z => truncate_samples (PyInt (z * r'))
  | Some r', PyFloat f => truncate_samples (PyFloat (f * float_of_Z r'))
  end.

Definition crop_signal (before after : Z) : M unit :=
  d <- active_region_is_default ;;
  raise_if (negb d) (Exception Msg.crop_region) ;;
  num_samples <- signal_length ;;
  a <- audio_data ;;
  match num_samples, a with
  | Some n, Some a' =>
      r <- slice_samples a' before (n - after) ;;
      audio_data_setter (PyNdarray r) ;;
      set_active_region_to_default
  | _, _ => raise (TypeError Msg.none_operand)
  end.

Definition zero_pad (before after : Z) : M unit :=
  d <- active_region_is_default ;;
  raise_if (negb d) (Exception Msg.pad_region) ;;
  chans <- channel_range ;;
  for_each chans (fun ch =>
    c <- get_channel ch ;;
    raise_if ((before <? 0) || (after <? 0)) (ValueError Msg.numpy_pad_negative) ;;
    audio_data_setter (PyNdarray (np.pad_arr c (Z.to_nat before) (Z.to_nat after)))).

(** [max_signal > max_val] with [max_val = 1.0]. *)
Definition exceeds_one (m : pynum) : bool := (1 <? np.to_float m)%float.

Definition peak_normalize (overwrite : bool) : M (option array) :=
  a <- audio_data ;;
  match a with
  | None => raise (TypeError Msg.none_operand)
  | Some a' =>
      match np.max (np.abs a') with
      | None => raise (ValueError Msg.numpy_empty_max)
      | Some max_signal =>
          if exceeds_one max_signal then
            let normalized := FloatArr (np.divide (np.astype_float a') max_signal) in
            (if overwrite then audio_data_setter (PyNdarray normalized) else ret tt) ;;
            ret (Some normalized)
          else ret None
      end
  end.

(** [self.add(other)]: the new object is returned. *)
Definition add (other : AudioSignal) : M AudioSignal :=
  _verify_audio_arithmetic other ;;
  new_signal <- get ;;
  a <- audio_data ;;
  b <- on other audio_data ;;
  match a, b with
  | Some a', Some b' =>
      match np.add a' b' with
      | Some c =>
          p <- with_object new_signal (audio_data_setter (PyNdarray c)) ;;
          ret (snd p)
      | None => raise (ValueError Msg.numpy_broadcast)
      end
  | _, _ => raise (TypeError Msg.none_operand)
  end.

(** The argument of [apply_gain]: a [numbers.Real] or anything else. *)
Definition apply_gain (value : option pynum) : M unit :=
  match value with
  | None => raise (ValueError Msg.not_scalar)
  | Some v =>
      a <- audio_data ;;
      match a with
      | None => raise (TypeError Msg.none_operand)
      | Some a' =>
          match np.multiply a' v with
          | Some c => audio_data_setter (PyNdarray c)
          | None => raise (TypeError Msg.numpy_object_array)
          end
      end
  end.

(** [other_copy *= -1] goes through [__imul__], that is [apply_gain]. *)
Definition subtract (other : AudioSignal) : M AudioSignal :=
  p <- with_object other (apply_gain (Some (PyInt (-1)))) ;;
  add (snd p).

(** ** Masks *)

(** Modelled from the spec: [separation.masks.mask_base.MaskBase] is absent.
    [apply_mask] reads its [mask] array and its [shape]; a real or boolean
    mask is held as numpy promotes it in a product with complex data, and
    [shape] is the shape of that array. *)
Record MaskBase : Type := mk_MaskBase { mask : ndarray complex }.

Definition mask_shape (m : MaskBase) : list nat := shape (mask m).

Definition make_copy_with_stft_data (stft : ndarray complex) (verbose : bool)
  : M AudioSignal :=
  (if verbose then
     d <- active_region_is_default ;;
     (if negb d then warn Msg.copy_region
      else ret tt) ;;
     t <- stft_data ;;
     match t with
     | None => raise (AttributeError Msg.none_attribute)
     | Some t' =>
         if negb (shape_eqb (shape stft) (shape t'))
         then warn Msg.copy_shape
         else ret tt
     end
   else ret tt) ;;
  new_signal <- get ;;
  p <- with_object new_signal
         (stft_data_setter (PyNdarray stft) ;; audio_data_setter PyNone) ;;
  ret (snd p).

(** The argument is [Some m] for a [MaskBase]-derived object. *)
Definition apply_mask (mask_obj : option MaskBase) : M AudioSignal :=
  match mask_obj with
  | None => raise (ValueError Msg.mask_type)
  | Some m =>
      t <- stft_data ;;
      match t with
      | None => raise (AttributeError Msg.none_attribute)
      | Some t' =>
          raise_if (negb (shape_eqb (mask_shape m) (shape t'))) (ValueError Msg.mask_shape) ;;
          match broadcast2 cmul t' (mask m) with
          | Some masked_stft => make_copy_with_stft_data masked_stft false
          | None => raise (ValueError Msg.numpy_broadcast)
          end
      end
  end.

(** ** Integer export *)

(** [2 ** e] in Python: an int for [e >= 0], a float below. *)
Definition py_pow2 (e : Z) : pynum :=
  if 0 <=? e then PyInt (2 ^ e) else PyFloat (Z.ldexp 1 e).

(** numpy has the signed integer dtypes int8, int16, int32 and int64. *)
Definition numpy_int_dtype (bits : Z) : bool :=
  existsb (Z.eqb bits) [8; 16; 32; 64].

Section IntegerExport.

(** [constants.DEFAULT_BIT_DEPTH]; [constants.py] is absent from the
    sources, so the value is left open. *)
Variable DEFAULT_BIT_DEPTH : Z.

Definition audio_data_as_ints (bit_depth : Z) : M (ndarray Z) :=
  raise_if (negb (existsb (Z.eqb bit_depth) [8; 16; 24; 32])) (TypeError Msg.bit_depth) ;;
  a <- audio_data ;;
  match a with
  | None => raise (TypeError Msg.none_operand)
  | Some a' =>
      match np.multiply a' (py_pow2 (DEFAULT_BIT_DEPTH - 1)) with
      | None => raise (TypeError Msg.numpy_object_array)
      | Some scaled =>
          if numpy_int_dtype bit_depth then ret (np.astype_int bit_depth scaled)
          else raise (TypeError Msg.numpy_dtype)
      end
  end.

End IntegerExport.

(** ** Inverse transform *)

Section InverseTransform.

(** [stft_utils.e_istft], or [stft_utils.librosa_istft_wrapper] when the
    flag is set: the per-channel inverse transform.  [stft_utils.py] is
    absent from the sources. *)
Variable istft_func : bool -> ndarray complex -> Z -> Z -> string -> result (ndarray float).

Definition call {A} (r : result A) : M A :=
  match r with inl e => raise e | inr x => ret x end.

Definition _do_istft (window_length hop_length : Z) (window_type : string)
           (use_librosa : bool) : M array :=
  t <- stft_data ;;
  match t with
  | None => raise (AttributeError Msg.none_attribute)
  | Some t' =>
      raise_if (size t' =? 0)%nat (ValueError Msg.no_stft) ;;
      chans <- channel_range ;;
      signals <- for_collect chans (fun i =>
                   stft <- get_stft_channel i ;;
                   call (istft_func use_librosa stft window_length hop_length window_type)) ;;
      match np.stack signals with
      | Some r => ret (FloatArr r)
      | None => raise (ValueError Msg.numpy_ragged)
      end
  end.

Definition istft (window_length hop_length : option Z) (window_type : option string)
           (overwrite use_librosa : bool) (truncate_to_length : option Z) : M array :=
  t <- stft_data ;;
  raise_if (match t with None => true | Some t' => (size t' =? 0)%nat end)
           (ValueError Msg.no_stft) ;;
  s <- get ;;
  let wl := match window_length with
            | None => stft_utils.window_length (stft_params s)
            | Some w => w
            end in
  let hl := match hop_length with
            | None => stft_utils.hop_length (stft_params s)
            | Some h => h
            end in
  let wt := match window_type with
            | None => stft_utils.window_type (stft_params s)
            | Some w => w
            end in
  calculated_signal <- _do_istft wl hl wt use_librosa ;;
  let shaped := if (arr_ndim calculated_signal =? 1)%nat
                then lift (@np.expand_dims_last) calculated_signal
                else calculated_signal in
  target <- match truncate_to_length with
            | None => signal_length
            | Some n => ret (Some n)
            end ;;
  truncated <- match target with
               | Some n => if 0 <? n then slice_samples shaped 0 n else ret shaped
               | None => ret shaped
               end ;;
  store <- (if overwrite then ret true
            else a <- audio_data ;;
                 ret (match a with None => true | Some _ => false end)) ;;
  (if store then audio_data_setter (PyNdarray truncated) else ret tt) ;;
  ret truncated.

End InverseTransform.

(** ** Further properties of the object *)

(** Modelled from the spec: [constants.STFT_VERT_INDEX] and
    [constants.STFT_LEN_INDEX] are absent; the class fixes [_STFT_BINS = 0]
    and [_STFT_LEN = 1]. *)
Definition STFT_VERT_INDEX : nat := 0.
Definition STFT_LEN_INDEX : nat := 1.

Definition is_mono : M bool :=
  c <- num_channels ;; ret (opt_eqb c (Some 1)).

Definition is_stereo : M bool :=
  c <- num_channels ;; ret (opt_eqb c (Some 2)).

Definition stft_length : M Z :=
  t <- stft_data ;;
  match t with
  | None => raise (AttributeError Msg.no_stft_length)
  | Some t' =>
      match nth_error (shape t') STFT_LEN_INDEX with
      | Some d => ret (Z.of_nat d)
      | None => raise (IndexError Msg.tuple_index)
      end
  end.

Definition num_fft_bins : M Z :=
  t <- stft_data ;;
  match t with
  | None => raise (AttributeError Msg.no_num_fft_bins)
  | Some t' =>
      match nth_error (shape t') STFT_VERT_INDEX with
      | Some d => ret (Z.of_nat d)
      | None => raise (IndexError Msg.tuple_index)
      end
  end.

Definition has_stft_data : M bool :=
  t <- stft_data ;;
  ret (match t with None => false | Some t' => negb (size t' =? 0)%nat end).

Definition has_audio_data : M bool :=
  a <- audio_data ;;
  ret (match a with None => false | Some a' => negb (arr_size a' =? 0)%nat end).

Definition has_data : M bool :=
  a <- has_audio_data ;;
  if a then ret true else has_stft_data.

(** The generator [get_channels], drained. *)
Definition get_channels : M (list array) :=
  l <- channel_range ;; for_collect l get_channel.

(** ** Copies and the arithmetic operators *)

(** [audio] is an [np.ndarray]. *)
Definition make_copy_with_audio_data (audio : array) (verbose : bool) : M AudioSignal :=
  (if verbose then
     d <- active_region_is_default ;;
     (if negb d then warn Msg.copy_region
      else ret tt) ;;
     a <- audio_data ;;
     match a with
     | None => raise (AttributeError Msg.none_attribute)
     | Some a' =>
         if negb (shape_eqb (arr_shape audio) (arr_shape a'))
         then warn Msg.copy_audio_shape
         else ret tt
     end
   else ret tt) ;;
  new_signal <- get ;;
  p <- with_object new_signal
         (audio_data_setter (PyNdarray audio) ;; stft_data_setter PyNone) ;;
  ret (snd p).

(** [float(v)] of a Python number.  An int beyond the binary64 range
    raises OverflowError, a subclass of [Exception] that [exc] does not
    list; it is recorded under [Exception] with its name in the message. *)
Definition py_float (v : pynum) : M float :=
  match v with
  | PyFloat f => ret f
  | PyInt z =>
      if is_infinity (float_of_Z z) then raise (Exception Msg.overflow_float)
      else ret (float_of_Z z)
  end.

(** [self * value]; the argument as for [apply_gain]. *)
Definition __mul__ (value : option pynum) : M AudioSignal :=
  match value with
  | None => raise (ValueError Msg.not_scalar)
  | Some v =>
      a <- audio_data ;;
      match a with
      | None => raise (TypeError Msg.none_operand)
      | Some a' =>
          match np.multiply a' v with
          | Some c => make_copy_with_audio_data c false
          | None => raise (TypeError Msg.numpy_object_array)
          end
      end
  end.

(** [self / value]: [np.divide(self.audio_data, float(value))]. *)
Definition __div__ (value : option pynum) : M AudioSignal :=
  match value with
  | None => raise (ValueError Msg.not_scalar)
  | Some v =>
      a <- audio_data ;;
      f <- py_float v ;;
      match a with
      | None => raise (TypeError Msg.none_operand)
      | Some a' =>
          make_copy_with_audio_data
            (FloatArr (np.divide (np.astype_float a') (PyFloat f))) false
      end
  end.

Definition __truediv__ (value : option pynum) : M AudioSignal := __div__ value.

(** [self *= value]. *)
Definition __imul__ (value : option pynum) : M unit := apply_gain value.

(** [self /= value] for a Python number: [self.apply_gain(1 / float(value))]. *)
Definition __idiv__ (value : pynum) : M unit :=
  f <- py_float value ;;
  if (f =? 0)%float then raise (ZeroDivisionError Msg.float_division)
  else apply_gain (Some (PyFloat (1 / f))).

Definition __itruediv__ (value : pynum) : M unit := __idiv__ value.

(** ** Channels as signals, and down-mixing *)

(** [copy.copy(self)] is shallow, but the two assignments rebind the
    attributes of the copy only. *)
Definition make_audio_signal_from_channel (n : Z) : M AudioSignal :=
  new_signal <- get ;;
  ch <- get_channel n ;;
  p <- with_object new_signal (audio_data_setter (PyNdarray ch)) ;;
  st <- get_stft_channel n ;;
  q <- with_object (snd p) (stft_data_setter (PyNdarray st)) ;;
  ret (snd q).

Section Averaging.

(** [np.mean] of the numbers of one lane, real and complex.  The order of
    numpy's summation and its final division are numpy's own; they are
    left open. *)
Variable mean : list float -> float.
Variable cmean : list complex -> complex.

Definition to_mono (overwrite keep_dims : bool) : M (ndarray float) :=
  a <- audio_data ;;
  match a with
  | None => raise (ValueError Msg.numpy_axis)
  | Some a' =>
      match np.reduce_axis mean (np.astype_float a') CHAN_INDEX keep_dims with
      | None => raise (ValueError Msg.numpy_axis)
      | Some mono =>
          (if overwrite then audio_data_setter (PyNdarray (FloatArr mono)) else ret tt) ;;
          ret mono
      end
  end.

(** The reduction is over [constants.CHAN_INDEX], as the source has it. *)
Definition stft_to_one_channel (overwrite : bool) : M (ndarray complex) :=
  t <- stft_data ;;
  match t with
  | None => raise (ValueError Msg.numpy_axis)
  | Some t' =>
      match np.reduce_axis cmean t' CHAN_INDEX false with
      | None => raise (ValueError Msg.numpy_axis)
      | Some one_channel_stft =>
          (if overwrite then stft_data_setter (PyNdarray one_channel_stft) else ret tt) ;;
          ret one_channel_stft
      end
  end.

End Averaging.

(** ** Loading from an array, resampling and the forward transform *)

Section Loading.

(** [constants.DEFAULT_SAMPLE_RATE]; [constants.py] is absent from the
    sources. *)
Variable DEFAULT_SAMPLE_RATE : Z.

(** [np.max(signal) > np.iinfo(np.dtype('int16')).max]. *)
Definition exceeds_int16 (m : pynum) : bool :=
  match m with
  | PyInt z => 32767 <? z
  | PyFloat f => (32767 <? f)%float
  end.

(** [signal] is an [np.ndarray]. *)
Definition load_audio_from_array (signal : array) (sample_rate_arg : option Z) : M unit :=
  modify (with_path_to_input_file None) ;;
  converted <- (if is_float_dtype signal then ret signal
                else match np.max signal with
                     | None => raise (ValueError Msg.numpy_empty_max)
                     | Some m =>
                         raise_if (exceeds_int16 m) (ValueError Msg.convert_16bit) ;;
                         ret (FloatArr (np.divide (np.astype_float signal) (PyFloat 32768)))
                     end) ;;
  audio_data_setter (PyNdarray converted) ;;
  modify (with_sample_rate
            (Some (match sample_rate_arg with
                   | Some r => r
                   | None => DEFAULT_SAMPLE_RATE
                   end))) ;;
  set_active_region_to_default.

End Loading.

Section Resampling.

(** [librosa.resample(channel, orig_sr, target_sr)]; librosa is not part
    of the sources. *)
Variable librosa_resample : array -> option Z -> Z -> result (ndarray float).

Definition resample (new_sample_rate : Z) : M unit :=
  r <- sample_rate ;;
  if opt_eqb (Some new_sample_rate) r then warn Msg.resample_same
  else
    chans <- channel_range ;;
    resampled_signal <- for_collect chans (fun i =>
                          channel <- get_channel i ;;
                          r' <- sample_rate ;;
                          call (librosa_resample channel r' new_sample_rate)) ;;
    match np.stack resampled_signal with
    | Some v =>
        audio_data_setter (PyNdarray (FloatArr v)) ;;
        modify (with_sample_rate (Some new_sample_rate))
    | None => raise (ValueError Msg.numpy_ragged)
    end.

End Resampling.

Section ForwardTransform.

(** [stft_utils.e_stft], or [stft_utils.librosa_stft_wrapper] when the flag
    is set: the transform of one channel.  [stft_utils.py] is absent from
    the sources. *)
Variable stft_func :
  bool -> array -> Z -> Z -> string -> Z -> bool -> result (ndarray complex).

Definition _do_stft (window_length hop_length : Z) (window_type : string)
           (n_fft_bins : Z) (remove_reflection use_librosa : bool) : M (ndarray complex) :=
  a <- audio_data ;;
  raise_if (match a with None => true | Some a' => (arr_size a' =? 0)%nat end)
           (ValueError Msg.no_signal_stft) ;;
  chans <- channel_range ;;
  stfts <- for_collect chans (fun i =>
             chan <- get_channel i ;;
             call (stft_func use_librosa chan window_length hop_length window_type
                             n_fft_bins remove_reflection)) ;;
  match np.stack stfts with
  | Some r =>
      match np.transpose_axes r [1; 2; 0]%nat with
      | Some t => ret t
      | None => raise (ValueError Msg.numpy_axes)
      end
  | None => raise (ValueError Msg.numpy_ragged)
  end.

Definition stft (window_length hop_length : option Z) (window_type : option string)
           (n_fft_bins : option Z) (remove_reflection overwrite use_librosa : bool)
  : M (ndarray complex) :=
  a <- audio_data ;;
  raise_if (match a with None => true | Some a' => (arr_size a' =? 0)%nat end)
           (ValueError Msg.no_signal) ;;
  s <- get ;;
  let wl := match window_length with
            | None => stft_utils.window_length (stft_params s)
            | Some w => w
            end in
  let hl := match hop_length with
            | None => stft_utils.hop_length (stft_params s)
            | Some h => h
            end in
  let wt := match window_type with
            | None => stft_utils.window_type (stft_params s)
            | Some w => w
            end in
  let nf := match n_fft_bins with
            | None => stft_utils.n_fft_bins (stft_params s)
            | Some n => n
            end in
  calculated_stft <- _do_stft wl hl wt nf remove_reflection use_librosa ;;
  (if overwrite then stft_data_setter (PyNdarray calculated_stft) else ret tt) ;;
  ret calculated_stft.

End ForwardTransform.

(** ** Construction *)

Section Construction.

(** [constants.DEFAULT_SAMPLE_RATE] and [constants.USE_LIBROSA_STFT];
    [constants.py] is absent from the sources. *)
Variable DEFAULT_SAMPLE_RATE : Z.
Variable USE_LIBROSA_STFT : bool.

(** [self.load_audio_from_file], which reads through audioread and
    librosa, and the constructor [stft_utils.StftParams(sample_rate)];
    neither library nor [stft_utils.py] is part of the sources. *)
Variable load_audio_from_file : string -> pynum -> option pynum -> option Z -> M unit.
Variable StftParams_init : option Z -> stft_utils.StftParams.

Definition count_true (l : list bool) : nat := List.length (filter (fun b => b) l).

(** [audio_data_array] and [stft] are [np.ndarray]s or [None]. *)
Definition __init__ (path : option string) (audio_data_array : option array)
           (stft : option (ndarray complex)) (sample_rate_arg : option Z)
           (stft_params_arg : option stft_utils.StftParams)
           (offset : pynum) (duration : option pynum) : M unit :=
  modify (with_path_to_input_file path) ;;
  modify (with_audio_data None) ;;
  modify (with_stft_data None) ;;
  modify (with_sample_rate None) ;;
  modify (with_active_start None) ;;
  modify (with_active_end None) ;;
  let got_path := match path with Some _ => true | None => false end in
  let got_audio_array := match audio_data_array with Some _ => true | None => false end in
  let got_stft := match stft with Some _ => true | None => false end in
  raise_if (1 <? count_true [got_path; got_audio_array; got_stft])%nat
           (ValueError Msg.init_sources) ;;
  match path, audio_data_array with
  | Some p, _ => load_audio_from_file p offset duration sample_rate_arg
  | None, Some a => load_audio_from_array DEFAULT_SAMPLE_RATE a sample_rate_arg
  | None, None => modify (with_sample_rate (Some DEFAULT_SAMPLE_RATE))
  end ;;
  match stft with
  | Some t => stft_data_setter (PyNdarray t)
  | None => ret tt
  end ;;
  r <- sample_rate ;;
  modify (with_stft_params (match stft_params_arg with
                            | None => StftParams_init r
                            | Some p => p
                            end)) ;;
  modify (with_use_librosa_stft USE_LIBROSA_STFT).

End Construction.

(** * Properties of the embedding *)

Unset Implicit Arguments.

(** ** Running a computation *)

Lemma bind_ok {A B} (m : M A) (k : A -> M B) w a w' :
  m w = (inr a, w') -> bind m k w = k a w'.
Proof. intros H. unfold bind. now rewrite H. Qed.

Lemma bind_err {A B} (m : M A) (k : A -> M B) w e w' :
  m w = (inl e, w') -> bind m k w = (inl e, w').
Proof. intros H. unfold bind. now rewrite H. Qed.

(** The value a read-only computation yields on an object. *)
Definition eval {A} (m : M A) (s : AudioSignal) : result A :=
  fst (m (mk_world s [])).

(** [reads m]: [m] changes neither the object nor the warnings, and its
    outcome depends on the object alone. *)
Definition reads {A} (m : M A) : Prop :=
  forall w, m w = (eval m (self w), w).

Lemma reads_ret {A} (x : A) : reads (ret x).
Proof. now intros w. Qed.

Lemma reads_raise {A} (e : exc) : reads (@raise A e).
Proof. now intros w. Qed.

Lemma reads_get : reads get.
Proof. now intros w. Qed.

Lemma reads_bind {A B} (m : M A) (k : A -> M B) :
  reads m -> (forall a, reads (k a)) -> reads (bind m k).
Proof.
  intros Hm Hk w. unfold eval, bind.
  rewrite (Hm w), (Hm (mk_world (self w) [])). cbn [self].
  destruct (eval m (self w)) as [e | a]; [reflexivity |].
  rewrite (Hk a w), (Hk a (mk_world (self w) [])). reflexivity.
Qed.

Lemma reads_raise_if c e : reads (raise_if c e).
Proof. destruct c; [apply reads_raise | apply reads_ret]. Qed.

Lemma on_run {A} (o : AudioSignal) (m : M A) w :
  reads m -> on o m w = (eval m o, w).
Proof.
  intros Hm. unfold on, with_object, bind.
  rewrite (Hm (mk_world o (warned w))). cbn.
  destruct (eval m o); destruct w; reflexivity.
Qed.

Lemma reads_on {A} (o : AudioSignal) (m : M A) : reads m -> reads (on o m).
Proof.
  intros Hm w. rewrite (on_run o m w Hm). unfold eval at 2.
  now rewrite (on_run o m _ Hm).
Qed.

Lemma eval_on {A} (o s : AudioSignal) (m : M A) : reads m -> eval (on o m) s = eval m o.
Proof. intros Hm. unfold eval at 1. now rewrite (on_run o m _ Hm). Qed.

Lemma eval_bind {A B} (m : M A) (k : A -> M B) s :
  reads m ->
  eval (bind m k) s = match eval m s with inl e => inl e | inr a => eval (k a) s end.
Proof.
  intros Hm. unfold eval at 1, bind. rewrite (Hm _). cbn [self].
  now destruct (eval m s).
Qed.

Lemma reads_for_collect {A B} (l : list A) (f : A -> M B) :
  (forall x, reads (f x)) -> reads (for_collect l f).
Proof.
  intros Hf. induction l as [| x l IH]; cbn.
  - apply reads_ret.
  - apply reads_bind; [apply Hf | intros y].
    apply reads_bind; [exact IH | intros ys; apply reads_ret].
Qed.

(** Goals [reads m] for the source's read-only methods follow their text. *)
Ltac reads_step :=
  match goal with
  | |- reads (bind _ _) => apply reads_bind; [| intro]
  | |- reads (ret _) => apply reads_ret
  | |- reads (raise _) => apply reads_raise
  | |- reads get => apply reads_get
  | |- reads (raise_if _ _) => apply reads_raise_if
  | |- reads (on _ _) => apply reads_on
  | |- reads (match ?x with _ => _ end) => destruct x
  | |- reads (if ?c then _ else _) => destruct c
  end.

Ltac prove_reads := repeat reads_step; auto.

#[local] Hint Resolve reads_ret reads_raise reads_get reads_raise_if reads_on : core.

Lemma reads_shape_at a k : reads (shape_at a k).
Proof. unfold shape_at. prove_reads. Qed.

Lemma reads_slice_samples a i j : reads (slice_samples a i j).
Proof. unfold slice_samples. prove_reads. Qed.

#[local] Hint Resolve reads_shape_at reads_slice_samples : core.

Lemma reads_audio_data : reads audio_data.
Proof. unfold audio_data. prove_reads. Qed.

Lemma reads_stft_data : reads stft_data.
Proof. unfold stft_data. prove_reads. Qed.

Lemma reads_sample_rate : reads sample_rate.
Proof. unfold sample_rate. prove_reads. Qed.

#[local] Hint Resolve reads_audio_data reads_stft_data reads_sample_rate : core.

Lemma reads_signal_length : reads signal_length.
Proof. unfold signal_length. prove_reads. Qed.

Lemma reads__signal_length : reads _signal_length.
Proof. unfold _signal_length. prove_reads. Qed.

Lemma reads_num_channels : reads num_channels.
Proof. unfold num_channels. prove_reads. Qed.

#[local] Hint Resolve reads_signal_length reads__signal_length reads_num_channels : core.

Lemma reads_active_region_is_default : reads active_region_is_default.
Proof. unfold active_region_is_default. prove_reads. Qed.

Lemma reads_signal_duration : reads signal_duration.
Proof. unfold signal_duration. prove_reads. Qed.

Lemma reads_channel_range : reads channel_range.
Proof. unfold channel_range. prove_reads. Qed.

Lemma reads__verify_get_channel n : reads (_verify_get_channel n).
Proof. unfold _verify_get_channel. prove_reads. Qed.

#[local] Hint Resolve reads_active_region_is_default reads_signal_duration
  reads_channel_range reads__verify_get_channel : core.

Lemma reads__get_axis {A} (take : A -> option A) a : reads (_get_axis take a).
Proof. unfold _get_axis. prove_reads. Qed.

#[local] Hint Resolve reads__get_axis : core.

Lemma reads_get_channel n : reads (get_channel n).
Proof. unfold get_channel. prove_reads. Qed.

Lemma reads_get_stft_channel n : reads (get_stft_channel n).
Proof. unfold get_stft_channel. prove_reads. Qed.

Lemma reads__verify_audio other : reads (_verify_audio other).
Proof. unfold _verify_audio. prove_reads. Qed.

#[local] Hint Resolve reads_get_channel reads_get_stft_channel reads__verify_audio : core.

Lemma reads__verify_audio_arithmetic other : reads (_verify_audio_arithmetic other).
Proof. unfold _verify_audio_arithmetic. prove_reads. Qed.

#[local] Hint Resolve reads__verify_audio_arithmetic : core.

(** ** Buffers and blocks *)

Lemma firstn_add {A} (i j : nat) (l : list A) :
  firstn (i + j) l = firstn i l ++ firstn j (skipn i l).
Proof.
  revert l. induction i as [| i IH]; intros l; [reflexivity |].
  destruct l as [| x l]; cbn.
  - now rewrite firstn_nil.
  - now rewrite IH.
Qed.

Lemma flat_map_firstn_chunks {A} (n k : nat) (l : list A) :
  flat_map (firstn k) (chunks n k l) = firstn (n * k) l.
Proof.
  revert l. induction n as [| n IH]; intros l; cbn [chunks flat_map].
  - reflexivity.
  - rewrite IH. cbn [Nat.mul].
    now rewrite firstn_add, firstn_firstn, Nat.min_id.
Qed.

Lemma slice_axis_full {A} (a : ndarray A) (c n : nat) :
  shape a = [c; n] -> well_shaped a = true ->
  np.slice_axis a LEN_INDEX 0 (Z.of_nat n) = Some a.
Proof.
  intros Hs Hw. unfold np.slice_axis, np.blocks, np.outer, np.inner, LEN_INDEX.
  rewrite Hs. cbn [nth_error firstn skipn size_of fold_right app].
  assert (Hb0 : slice_bound n 0 = 0%nat) by (unfold slice_bound; cbn; lia).
  assert (Hb1 : slice_bound n (Z.of_nat n) = n).
  { unfold slice_bound. destruct (Z.of_nat n <? 0) eqn:E; [lia |].
    rewrite Z.min_id. apply Nat2Z.id. }
  rewrite Hb0, Hb1, Nat.sub_0_r, !Nat.mul_1_r. cbn [Nat.mul skipn].
  rewrite flat_map_firstn_chunks.
  unfold well_shaped, size in Hw. rewrite Hs in Hw. cbn [size_of fold_right] in Hw.
  apply Nat.eqb_eq in Hw. rewrite Nat.mul_1_r in Hw.
  rewrite firstn_all2 by lia.
  destruct a as [sh fl]; cbn in *. now subst sh.
Qed.

Lemma slice_samples_full (a : array) (c n : nat) w :
  arr_shape a = [c; n] -> arr_well_shaped a = true ->
  slice_samples a 0 (Z.of_nat n) w = (inr a, w).
Proof.
  intros Hs Hw. unfold slice_samples, lift_opt.
  destruct a as [x | x]; cbn in Hs, Hw;
    now rewrite (slice_axis_full x c n Hs Hw).
Qed.

(** ** What the properties read on a signal with a default region *)

(** The object holds the 2-D array [a] of [c] channels and [n] samples
    with the active region covering it. *)
Definition holds_full (s : AudioSignal) (a : array) (c n : nat) : Prop :=
  _audio_data s = Some a /\ arr_shape a = [c; n] /\ arr_well_shaped a = true /\
  _active_start s = Some 0 /\ _active_end s = Some (Z.of_nat n).

Lemma audio_data_full s a c n w :
  holds_full s a c n -> self w = s -> audio_data w = (inr (Some a), w).
Proof.
  intros (Ha & Hs & Hw & Hb & He) <-. unfold audio_data.
  erewrite bind_ok by reflexivity.
  rewrite Ha. unfold shape_at. rewrite Hs. cbn [nth_error LEN_INDEX].
  erewrite bind_ok by reflexivity.
  rewrite He, Hb, !Z.ltb_irrefl.
  erewrite bind_ok by (eapply slice_samples_full; eassumption). reflexivity.
Qed.

Lemma eval_audio_data_full s a c n :
  holds_full s a c n -> eval audio_data s = inr (Some a).
Proof. intros H. unfold eval. now rewrite (audio_data_full s a c n (mk_world s []) H). Qed.

Lemma eval_signal_length_full s a c n :
  holds_full s a c n -> eval signal_length s = inr (Some (Z.of_nat n)).
Proof.
  intros H. unfold signal_length.
  rewrite eval_bind, (eval_audio_data_full s a c n H) by auto.
  unfold eval, shape_at, bind. destruct H as (_ & -> & _). reflexivity.
Qed.

Lemma eval__signal_length_full s a c n :
  holds_full s a c n -> eval _signal_length s = inr (Some (Z.of_nat n)).
Proof.
  intros (Ha & Hs & _). unfold eval, _signal_length, bind, get, shape_at. cbn.
  rewrite Ha, Hs. reflexivity.
Qed.

Lemma eval_num_channels_full s a c n :
  holds_full s a c n -> eval num_channels s = inr (Some (Z.of_nat c)).
Proof.
  intros H. unfold num_channels.
  rewrite eval_bind, (eval_audio_data_full s a c n H) by auto.
  unfold eval, shape_at, bind. destruct H as (_ & -> & _). reflexivity.
Qed.

Lemma eval_active_region_is_default_full s a c n :
  holds_full s a c n -> eval active_region_is_default s = inr true.
Proof.
  intros H. unfold active_region_is_default.
  rewrite eval_bind by auto. unfold eval at 1. cbn [get fst self].
  pose proof H as (_ & _ & _ & Hb & He). rewrite Hb. cbn [opt_eqb Z.eqb].
  rewrite eval_bind, (eval__signal_length_full s a c n H) by auto.
  unfold eval, ret. cbn. rewrite He. cbn. now rewrite Z.eqb_refl.
Qed.

(** ** Invariants of the object

    [triple P m Q]: from an object satisfying [P], the method [m] leaves
    an object satisfying [P], whether it returns or raises, and a value it
    returns satisfies [Q]. *)

Definition triple (P : AudioSignal -> Prop) {A} (m : M A) (Q : A -> Prop) : Prop :=
  forall w, P (self w) ->
            P (self (snd (m w))) /\ (forall a, fst (m w) = inr a -> Q a).

Lemma triple_weaken P {A} (m : M A) (Q Q' : A -> Prop) :
  triple P m Q -> (forall a, Q a -> Q' a) -> triple P m Q'.
Proof. intros H HQ w Hw. destruct (H w Hw) as [H1 H2]. split; auto. Qed.

Lemma triple_reads P {A} (m : M A) : reads m -> triple P m (fun _ => True).
Proof. intros Hm w Hw. rewrite (Hm w). cbn. auto. Qed.

Lemma triple_ret P {A} (x : A) (Q : A -> Prop) : Q x -> triple P (ret x) Q.
Proof. intros Hx w Hw. cbn. split; [exact Hw |]. now intros a [= <-]. Qed.

Lemma triple_raise P {A} (e : exc) (Q : A -> Prop) : triple P (raise e) Q.
Proof. intros w Hw. cbn. split; [exact Hw | discriminate]. Qed.

Lemma triple_get P : triple P get P.
Proof. intros w Hw. cbn. split; [exact Hw |]. now intros a [= <-]. Qed.

Lemma triple_warn P msg : triple P (warn msg) (fun _ => True).
Proof. intros w Hw. cbn. auto. Qed.

Lemma triple_bind P {A B} (m : M A) (k : A -> M B) (Q : A -> Prop) (R : B -> Prop) :
  triple P m Q -> (forall a, Q a -> triple P (k a) R) -> triple P (bind m k) R.
Proof.
  intros Hm Hk w Hw. destruct (Hm w Hw) as [H1 H2]. unfold bind.
  destruct (m w) as [[e | a] w'] eqn:E; cbn in *.
  - split; [exact H1 | discriminate].
  - exact (Hk a (H2 a eq_refl) w' H1).
Qed.

Lemma triple_with_object P P' {A} (o : AudioSignal) (m : M A) (Q : A -> Prop) :
  triple P' m Q -> P' o ->
  triple P (with_object o m) (fun p => Q (fst p) /\ P' (snd p)).
Proof.
  intros Hm Ho w Hw. unfold with_object.
  destruct (Hm (mk_world o (warned w)) Ho) as [H1 H2].
  destruct (m (mk_world o (warned w))) as [[e | a] w'] eqn:E; cbn in *.
  - split; [exact Hw | discriminate].
  - split; [exact Hw |]. intros p [= <-]. cbn. auto.
Qed.

Lemma triple_for_each P {A} (l : list A) (body : A -> M unit) :
  (forall x, triple P (body x) (fun _ => True)) ->
  triple P (for_each l body) (fun _ => True).
Proof.
  intros Hb. induction l as [| x l IH]; cbn [for_each].
  - now apply triple_ret.
  - eapply triple_bind; [apply Hb | intros _ _; exact IH].
Qed.

Lemma triple_for_collect P {A B} (l : list A) (f : A -> M B) :
  (forall x, triple P (f x) (fun _ => True)) ->
  triple P (for_collect l f) (fun _ => True).
Proof.
  intros Hf. induction l as [| x l IH]; cbn [for_collect].
  - now apply triple_ret.
  - eapply triple_bind; [apply Hf | intros y _].
    eapply triple_bind; [exact IH | intros ys _]. now apply triple_ret.
Qed.

(** The length of the stored samples, when they are stored with a
    sample axis. *)
Definition stored_length (s : AudioSignal) : option Z :=
  match _audio_data s with
  | Some a => option_map Z.of_nat (nth_error (arr_shape a) LEN_INDEX)
  | None => None
  end.

(** The region fields against the stored samples.  An assignment that
    returns stores a 2-D array.  The one other array the setter leaves
    stored is the rank-1 array of one sample that it makes of a rank-0
    value before the reset of the region raises; that array has no sample
    axis, the start of the region is not negative, and its end is still
    the one of the samples that were replaced.  [R b e n] relates the
    start, the end and the stored length. *)
Definition region_satisfies (R : Z -> Z -> Z -> Prop) (s : AudioSignal) : Prop :=
  forall a, _audio_data s = Some a ->
    (exists c n b e, arr_shape a = [c; n] /\
                     _active_start s = Some b /\ _active_end s = Some e /\
                     R b e (Z.of_nat n)) \/
    (arr_shape a = [1%nat] /\ exists b, _active_start s = Some b /\ 0 <= b).

(** The invariant as the spec words it: [0 <= activeStart <= activeEnd <= length]. *)
Definition region_ordered : AudioSignal -> Prop :=
  region_satisfies (fun b e n => 0 <= b /\ b <= e /\ e <= n).

(** The part of it every operation maintains: [0 <= activeStart] and
    [activeEnd <= length]. *)
Definition region_within : AudioSignal -> Prop :=
  region_satisfies (fun b e n => 0 <= b /\ e <= n).

(** Evaluation of the monad's operations and of the record's fields. *)
Arguments bind {A B} m k w /.
Arguments ret {A} x w /.
Arguments raise {A} e w /.
Arguments get w /.
Arguments modify f w /.
Arguments warn msg w /.
Arguments raise_if c e /.

Ltac exec :=
  cbn [bind ret raise raise_if get modify warn self warned fst snd negb
       with_audio_data with_stft_data with_active_start with_active_end
       path_to_input_file _audio_data _stft_data _sample_rate _active_start
       _active_end stft_params use_librosa_stft].

(** The three outcomes of resetting the region, by what is stored. *)
Lemma set_active_region_to_default_none w :
  _audio_data (self w) = None ->
  set_active_region_to_default w =
  (inr tt, mk_world (with_active_end None (with_active_start (Some 0) (self w))) (warned w)).
Proof.
  destruct w as [[p ad sd sr st en sp ul] l]. cbn. intros ->. reflexivity.
Qed.

Lemma set_active_region_to_default_some w a d :
  _audio_data (self w) = Some a -> nth_error (arr_shape a) LEN_INDEX = Some d ->
  set_active_region_to_default w =
  (inr tt, mk_world (with_active_end (Some (Z.of_nat d)) (with_active_start (Some 0) (self w)))
                    (warned w)).
Proof.
  destruct w as [[p ad sd sr st en sp ul] l]. cbn [self _audio_data]. intros -> Hd.
  unfold set_active_region_to_default, _signal_length, shape_at.
  exec. rewrite Hd. reflexivity.
Qed.

Lemma set_active_region_to_default_rank w a :
  _audio_data (self w) = Some a -> nth_error (arr_shape a) LEN_INDEX = None ->
  set_active_region_to_default w =
  (inl (IndexError Msg.tuple_index), mk_world (with_active_start (Some 0) (self w)) (warned w)).
Proof.
  destruct w as [[p ad sd sr st en sp ul] l]. cbn [self _audio_data]. intros -> Hd.
  unfold set_active_region_to_default, _signal_length, shape_at.
  exec. rewrite Hd. reflexivity.
Qed.

(** [set_active_region] on an object that holds 2-D samples, and on one
    that holds none. *)
Lemma set_active_region_some start stop w a d :
  _audio_data (self w) = Some a -> nth_error (arr_shape a) LEN_INDEX = Some d ->
  set_active_region start stop w =
  (inr tt, mk_world (with_active_end (Some (Z.min stop (Z.of_nat d)))
                       (with_active_start (Some (Z.max 0 start)) (self w)))
                    (warned w)).
Proof.
  destruct w as [[p ad sd sr st en sp ul] l]. cbn [self _audio_data]. intros -> Hd.
  unfold set_active_region, _signal_length, shape_at.
  exec. rewrite Hd. exec. cbn [py_lt].
  replace (if 0 <=? start then start else 0) with (Z.max 0 start)
    by (destruct (0 <=? start) eqn:E; lia).
  replace (if stop <? Z.of_nat d then Some stop else Some (Z.of_nat d))
    with (Some (Z.min stop (Z.of_nat d)))
    by (destruct (stop <? Z.of_nat d) eqn:E; f_equal; lia).
  reflexivity.
Qed.

Lemma set_active_region_none start stop w :
  _audio_data (self w) = None ->
  set_active_region start stop w =
  (inr tt, mk_world (with_active_end None (with_active_start (Some (Z.max 0 start)) (self w)))
                    (warned w)).
Proof.
  destruct w as [[p ad sd sr st en sp ul] l]. cbn [self _audio_data]. intros ->.
  unfold set_active_region, _signal_length.
  exec. cbn [py_lt].
  replace (if 0 <=? start then start else 0) with (Z.max 0 start)
    by (destruct (0 <=? start) eqn:E; lia).
  reflexivity.
Qed.

Lemma set_active_region_rank start stop w a :
  _audio_data (self w) = Some a -> nth_error (arr_shape a) LEN_INDEX = None ->
  set_active_region start stop w =
  (inl (IndexError Msg.tuple_index),
   mk_world (with_active_start (Some (Z.max 0 start)) (self w)) (warned w)).
Proof.
  destruct w as [[p ad sd sr st en sp ul] l]. cbn [self _audio_data]. intros -> Hd.
  unfold set_active_region, _signal_length, shape_at.
  exec. rewrite Hd. exec.
  replace (if 0 <=? start then start else 0) with (Z.max 0 start)
    by (destruct (0 <=? start) eqn:E; lia).
  reflexivity.
Qed.

(** ** What the setter stores *)

Lemma arr_shape_transpose v : arr_shape (lift (@np.transpose) v) = rev (arr_shape v).
Proof. now destruct v. Qed.

Lemma arr_shape_expand_dims v k :
  arr_shape (lift (fun A x => np.expand_dims x k) v) =
  firstn k (arr_shape v) ++ 1%nat :: skipn k (arr_shape v).
Proof. now destruct v. Qed.

(** Whether the setter transposes [v]. *)
Definition transposes (v : array) : bool :=
  (1 <? arr_ndim v)%nat
  && (nth LEN_INDEX (arr_shape v) 0 <? nth CHAN_INDEX (arr_shape v) 0)%nat.

(** The array the setter stores for [v], when it stores one. *)
Definition normalized (v : array) : array :=
  let v1 := if transposes v then lift (@np.transpose) v else v in
  if (arr_ndim v1 <? 2)%nat then lift (fun A x => np.expand_dims x CHAN_INDEX) v1 else v1.

Lemma transposes_rank2 v r c :
  arr_shape v = [r; c] -> transposes v = (c <? r)%nat.
Proof. intros Hs. unfold transposes, arr_ndim. rewrite Hs. reflexivity. Qed.

Lemma audio_data_setter_stores v w :
  np.isfinite_all v = true ->
  (2 <? arr_ndim v)%nat = false ->
  audio_data_setter (PyNdarray v) w =
  set_active_region_to_default
    (mk_world (with_audio_data (Some (normalized v)) (self w))
              (if transposes v then warned w ++ [Msg.transposing] else warned w)).
Proof.
  intros Hf Hr. unfold normalized. cbn [audio_data_setter]. exec. rewrite Hf. exec.
  fold (transposes v). destruct (transposes v); exec.
  - unfold arr_ndim in *. rewrite arr_shape_transpose, length_rev, Hr. exec. reflexivity.
  - rewrite Hr. exec. reflexivity.
Qed.

Lemma audio_data_setter_rejects_rank v w :
  np.isfinite_all v = true ->
  (2 <? arr_ndim v)%nat = true ->
  audio_data_setter (PyNdarray v) w =
  (inl (ValueError Msg.audio_rank),
   mk_world (self w) (if transposes v then warned w ++ [Msg.transposing] else warned w)).
Proof.
  intros Hf Hr. cbn [audio_data_setter]. exec. rewrite Hf. exec.
  fold (transposes v). destruct (transposes v); exec.
  - unfold arr_ndim in *. rewrite arr_shape_transpose, length_rev, Hr. exec. reflexivity.
  - rewrite Hr. exec. now destruct w.
Qed.

(** The setter stores a 2-D array, or the one sample of a rank-0 value. *)
Lemma normalized_shape v :
  (2 <? arr_ndim v)%nat = false ->
  (exists c n, arr_shape (normalized v) = [c; n]) \/
  (arr_shape v = [] /\ arr_shape (normalized v) = [1%nat]).
Proof.
  intros Hr. apply Nat.ltb_ge in Hr. unfold arr_ndim in Hr.
  destruct (arr_shape v) as [| r [| c [| d l]]] eqn:Hs; cbn [List.length] in Hr; [| | | lia].
  - right. split; [reflexivity |].
    assert (Ht : transposes v = false) by (unfold transposes, arr_ndim; now rewrite Hs).
    unfold normalized, arr_ndim. rewrite Ht, Hs. cbn [List.length].
    change (0 <? 2)%nat with true. cbn iota. now rewrite arr_shape_expand_dims, Hs.
  - left.
    assert (Ht : transposes v = false) by (unfold transposes, arr_ndim; now rewrite Hs).
    unfold normalized, arr_ndim. rewrite Ht, Hs. cbn [List.length].
    change (1 <? 2)%nat with true. cbn iota. rewrite arr_shape_expand_dims, Hs. cbn. eauto.
  - left. unfold normalized, arr_ndim. rewrite (transposes_rank2 v r c Hs).
    destruct (c <? r)%nat; rewrite ?arr_shape_transpose, Hs; cbn [rev app List.length];
      change (2 <? 2)%nat with false; cbn iota; rewrite ?arr_shape_transpose, Hs; cbn; eauto.
Qed.

(** Goals [triple P m Q] for a method follow its text down to the
    assignments, whose triples are given as hints. *)
Ltac triple_step :=
  match goal with
  | |- triple _ (bind _ _) _ => eapply triple_bind; [| intros ? ?]
  | |- triple _ (ret _) _ => apply triple_ret; cbn beta in *; solve [auto | tauto]
  | |- triple ?P (with_object _ _) _ =>
      first [ eapply (triple_with_object P P); [| assumption]
            | eapply (triple_with_object P (fun _ => True)); [| exact I] ]
  | |- triple _ (raise _) _ => apply triple_raise
  | |- triple _ (raise_if ?c _) _ =>
      destruct c; [apply triple_raise | apply triple_ret; exact I]
  | |- triple _ (warn _) _ => apply triple_warn
  | |- triple ?P get _ => apply (triple_get P)
  | |- triple _ (for_each _ _) _ => apply triple_for_each; intros ?
  | |- triple _ (for_collect _ _) _ => apply triple_for_collect; intros ?
  | |- triple _ (match ?x with _ => _ end) _ => destruct x
  | |- triple _ (if ?c then _ else _) _ => destruct c
  | |- triple _ _ _ => solve [eauto]
  | |- triple _ _ _ => solve [eapply triple_weaken; [eauto | auto]]
  | |- triple _ _ _ => solve [apply triple_reads; auto]
  | |- triple _ _ _ =>
      solve [eapply triple_weaken; [apply triple_reads; auto | cbn; auto]]
  end.

Ltac prove_triple := repeat triple_step.

(** ** The region stays where the stored samples allow *)

Section RegionInvariant.

Variable R : Z -> Z -> Z -> Prop.
Hypothesis R_full : forall n, 0 <= n -> R 0 n n.

Lemma satisfies_after_default w :
  (forall a, _audio_data (self w) = Some a ->
             (exists c n, arr_shape a = [c; n]) \/ arr_shape a = [1%nat]) ->
  region_satisfies R (self (snd (set_active_region_to_default w))).
Proof.
  intros Hshape. destruct (_audio_data (self w)) as [a |] eqn:Ea.
  - destruct (Hshape a eq_refl) as [(c & n & Hs) | Hs].
    + rewrite (set_active_region_to_default_some w a n Ea) by (now rewrite Hs).
      intros a'. exec. rewrite Ea. intros [= <-]. left.
      exists c, n, 0, (Z.of_nat n). repeat split; auto. apply R_full. lia.
    + rewrite (set_active_region_to_default_rank w a Ea) by (now rewrite Hs).
      intros a'. exec. rewrite Ea. intros [= <-]. right.
      split; [exact Hs |]. exists 0. split; [reflexivity | lia].
  - rewrite (set_active_region_to_default_none w Ea).
    intros a'. exec. rewrite Ea. discriminate.
Qed.

Lemma satisfies_set_active_region_to_default :
  triple (region_satisfies R) set_active_region_to_default (fun _ => True).
Proof.
  intros w Hw. split; [| auto]. apply satisfies_after_default.
  intros a Ha. destruct (Hw a Ha) as [(c & n & b & e & Hs & _) | [Hs _]]; eauto.
Qed.

Lemma satisfies_audio_data_setter v :
  triple (region_satisfies R) (audio_data_setter v) (fun _ => True).
Proof.
  intros w Hw. split; [| auto].
  destruct v as [| v |].
  - cbn [audio_data_setter]. exec. intros a. exec. discriminate.
  - destruct (np.isfinite_all v) eqn:Hf.
    2:{ cbn [audio_data_setter]. exec. rewrite Hf. exec. exact Hw. }
    destruct (2 <? arr_ndim v)%nat eqn:Hr.
    + rewrite (audio_data_setter_rejects_rank v w Hf Hr). exact Hw.
    + rewrite (audio_data_setter_stores v w Hf Hr).
      apply satisfies_after_default. exec. intros a [= <-].
      destruct (normalized_shape v Hr) as [H | [_ H]]; auto.
  - cbn [audio_data_setter]. exec. exact Hw.
Qed.

Lemma satisfies_stft_data_setter v :
  triple (region_satisfies R) (stft_data_setter v) (fun _ => True).
Proof.
  intros w Hw. split; [| auto].
  destruct v as [| v |]; cbn [stft_data_setter]; exec; [exact Hw | | exact Hw].
  destruct (ndim v =? 1)%nat; exec; [exact Hw |].
  destruct (3 <? ndim (if (ndim v =? 2)%nat then np.expand_dims v STFT_CHAN_INDEX else v))%nat;
    exec; exact Hw.
Qed.

End RegionInvariant.

(** [set_active_region] keeps the two outer bounds. *)
Lemma within_set_active_region start stop :
  triple region_within (set_active_region start stop) (fun _ => True).
Proof.
  intros w Hw. split; [| auto].
  destruct (_audio_data (self w)) as [a |] eqn:Ea.
  - destruct (Hw a Ea) as [(c & n & b & e & Hs & _) | [Hs _]].
    + rewrite (set_active_region_some start stop w a n Ea) by (now rewrite Hs).
      intros a'. exec. rewrite Ea. intros [= <-]. left.
      exists c, n, (Z.max 0 start), (Z.min stop (Z.of_nat n)). repeat split; auto; lia.
    + rewrite (set_active_region_rank start stop w a Ea) by (now rewrite Hs).
      intros a'. exec. rewrite Ea. intros [= <-]. right.
      split; [exact Hs |]. exists (Z.max 0 start). split; [reflexivity | lia].
  - rewrite (set_active_region_none start stop w Ea).
    intros a'. exec. rewrite Ea. discriminate.
Qed.

(** It keeps the order of the bounds exactly when the clamped start does
    not pass the clamped end. *)
Lemma ordered_set_active_region start stop s log a c n :
  _audio_data s = Some a -> arr_shape a = [c; n] ->
  region_ordered (self (snd (set_active_region start stop (mk_world s log)))) <->
  Z.max 0 start <= Z.min stop (Z.of_nat n).
Proof.
  intros Ea Hs.
  rewrite (set_active_region_some start stop (mk_world s log) a n Ea) by (now rewrite Hs).
  split.
  - intros H. destruct (H a) as [(c' & n' & b & e & Hs' & Hb & He & Hr) | [Hs' _]].
    + exec. exact Ea.
    + revert Hb He. exec. intros [= <-] [= <-].
      rewrite Hs in Hs'. injection Hs' as _ <-. lia.
    + rewrite Hs in Hs'. discriminate.
  - intros H a'. exec. rewrite Ea. intros [= <-]. left.
    exists c, n, (Z.max 0 start), (Z.min stop (Z.of_nat n)). repeat split; auto; lia.
Qed.

Lemma any_apply_gain v : triple (fun _ => True) (apply_gain v) (fun _ => True).
Proof. intros w _. auto. Qed.

#[local] Hint Resolve any_apply_gain : core.

(** ** The operations of the object *)

Inductive operation : Type :=
| Assign_audio_data (value : pyobj array)
| Assign_stft_data (value : pyobj (ndarray complex))
| Set_active_region (start stop : Z)
| Set_active_region_to_default
| Concat (other : AudioSignal)
| Truncate_samples (n_samples : pynum)
| Truncate_seconds (n_seconds : pynum)
| Crop_signal (before after : Z)
| Zero_pad (before after : Z)
| Peak_normalize (overwrite : bool)
| Add (other : AudioSignal)
| Subtract (other : AudioSignal)
| Apply_gain (value : option pynum)
| Audio_data_as_ints (bit_depth : Z)
| Apply_mask (mask_obj : option MaskBase)
| Istft (window_length hop_length : option Z) (window_type : option string)
        (overwrite use_librosa : bool) (truncate_to_length : option Z).

Section Operations.

Variable istft_func : bool -> ndarray complex -> Z -> Z -> string -> result (ndarray float).
Variable DEFAULT_BIT_DEPTH : Z.

Definition discard {A} (m : M A) : M (option AudioSignal) := m ;; ret None.
Definition built (m : M AudioSignal) : M (option AudioSignal) := o <- m ;; ret (Some o).

(** One call on the object; the new object, for the methods that build one. *)
Definition perform (op : operation) : M (option AudioSignal) :=
  match op with
  | Assign_audio_data v => discard (audio_data_setter v)
  | Assign_stft_data v => discard (stft_data_setter v)
  | Set_active_region start stop => discard (set_active_region start stop)
  | Set_active_region_to_default => discard set_active_region_to_default
  | Concat other => discard (concat other)
  | Truncate_samples n => discard (truncate_samples n)
  | Truncate_seconds n => discard (truncate_seconds n)
  | Crop_signal b a => discard (crop_signal b a)
  | Zero_pad b a => discard (zero_pad b a)
  | Peak_normalize ow => discard (peak_normalize ow)
  | Add other => built (add other)
  | Subtract other => built (subtract other)
  | Apply_gain v => discard (apply_gain v)
  | Audio_data_as_ints b => discard (audio_data_as_ints DEFAULT_BIT_DEPTH b)
  | Apply_mask m => built (apply_mask m)
  | Istft wl hl wt ow ul tl => discard (istft istft_func wl hl wt ow ul tl)
  end.

End Operations.

(** ** Properties of the object that every method maintains

    A property that the two setters and the reset of the region maintain
    is maintained by every method built on them, whether it returns or
    raises, and holds of the objects the copying methods return. *)

Section Maintained.

Variable P : AudioSignal -> Prop.
Hypothesis P_audio_data_setter : forall v, triple P (audio_data_setter v) (fun _ => True).
Hypothesis P_stft_data_setter : forall v, triple P (stft_data_setter v) (fun _ => True).
Hypothesis P_set_active_region_to_default :
  triple P set_active_region_to_default (fun _ => True).

Lemma maintained_concat other : triple P (concat other) (fun _ => True).
Proof. unfold concat. prove_triple. Qed.

Lemma maintained_truncate_samples n : triple P (truncate_samples n) (fun _ => True).
Proof. unfold truncate_samples. prove_triple. Qed.

Lemma maintained_truncate_seconds n : triple P (truncate_seconds n) (fun _ => True).
Proof.
  pose proof maintained_truncate_samples. unfold truncate_seconds. prove_triple.
Qed.

Lemma maintained_crop_signal b a : triple P (crop_signal b a) (fun _ => True).
Proof. unfold crop_signal. prove_triple. Qed.

Lemma maintained_zero_pad b a : triple P (zero_pad b a) (fun _ => True).
Proof. unfold zero_pad. prove_triple. Qed.

Lemma maintained_peak_normalize ow : triple P (peak_normalize ow) (fun _ => True).
Proof. unfold peak_normalize. prove_triple. Qed.

Lemma maintained_apply_gain v : triple P (apply_gain v) (fun _ => True).
Proof. unfold apply_gain. prove_triple. Qed.

Lemma maintained_add other : triple P (add other) P.
Proof. unfold add. prove_triple. Qed.

Lemma maintained_subtract other : triple P (subtract other) P.
Proof. pose proof maintained_add. unfold subtract. prove_triple. Qed.

Lemma maintained_make_copy_with_stft_data t verbose :
  triple P (make_copy_with_stft_data t verbose) P.
Proof. unfold make_copy_with_stft_data. prove_triple. Qed.

Lemma maintained_apply_mask m : triple P (apply_mask m) P.
Proof.
  pose proof maintained_make_copy_with_stft_data. unfold apply_mask. prove_triple.
Qed.

Lemma maintained_audio_data_as_ints D b :
  triple P (audio_data_as_ints D b) (fun _ => True).
Proof. unfold audio_data_as_ints. prove_triple. Qed.

Lemma maintained_istft f wl hl wt ow ul tl :
  triple P (istft f wl hl wt ow ul tl) (fun _ => True).
Proof. unfold istft, _do_istft, call. prove_triple. Qed.

(** Every operation maintains it, given that [set_active_region] does
    where it is the operation. *)
Lemma maintained_perform f D op :
  (forall start stop, op = Set_active_region start stop ->
                      triple P (set_active_region start stop) (fun _ => True)) ->
  triple P (perform f D op)
         (fun r => match r with Some o => P o | None => True end).
Proof.
  intros Hregion.
  pose proof maintained_concat. pose proof maintained_truncate_samples.
  pose proof maintained_truncate_seconds.
  pose proof maintained_crop_signal. pose proof maintained_zero_pad.
  pose proof maintained_peak_normalize. pose proof maintained_apply_gain.
  pose proof maintained_add.
  pose proof maintained_subtract. pose proof maintained_audio_data_as_ints.
  pose proof maintained_apply_mask. pose proof maintained_istft.
  destruct op; cbn [perform]; unfold discard, built;
    try (specialize (Hregion _ _ eq_refl)); prove_triple.
Qed.

End Maintained.

Lemma full_within n : 0 <= n -> 0 <= 0 /\ n <= n.
Proof. lia. Qed.

Lemma full_ordered n : 0 <= n -> 0 <= 0 /\ 0 <= n /\ n <= n.
Proof. lia. Qed.

Lemma within_perform f D op :
  triple region_within (perform f D op)
         (fun r => match r with Some o => region_within o | None => True end).
Proof.
  apply maintained_perform.
  - apply satisfies_audio_data_setter, full_within.
  - apply satisfies_stft_data_setter.
  - apply satisfies_set_active_region_to_default, full_within.
  - intros start stop _. apply within_set_active_region.
Qed.

Lemma ordered_perform f D op :
  (forall start stop, op <> Set_active_region start stop) ->
  triple region_ordered (perform f D op)
         (fun r => match r with Some o => region_ordered o | None => True end).
Proof.
  intros Hop. apply maintained_perform.
  - apply satisfies_audio_data_setter, full_ordered.
  - apply satisfies_stft_data_setter.
  - apply satisfies_set_active_region_to_default, full_ordered.
  - intros start stop E. destruct (Hop start stop E).
Qed.

(** ** Sample objects *)

Definition example_params : stft_utils.StftParams :=
  stft_utils.mk_StftParams 4 2 Msg.window_hann 4.

(** [AudioSignal()] with no input. *)
Definition empty_signal : AudioSignal :=
  mk_AudioSignal None None None (Some 44100) None None example_params false.

(** The object after [audio_data] was assigned [a]. *)
Definition signal_of (a : array) : AudioSignal :=
  self (snd (audio_data_setter (PyNdarray a) (mk_world empty_signal []))).

Definition float_array (sh : list nat) (l : list float) : array :=
  FloatArr (mk_ndarray sh l).

Definition mono4 : AudioSignal := signal_of (float_array [1; 4]%nat [1; 2; 3; 4]%float).

(** An inverse transform that returns silence, [frames * hop_length] samples
    of it; it stands for [stft_utils.e_istft] where a concrete function is
    needed. *)
Definition silent_istft (use_librosa : bool) (stft : ndarray complex)
           (window_length hop_length : Z) (window_type : string) : result (ndarray float) :=
  let n := (nth 1 (shape stft) 0 * Z.to_nat hop_length)%nat in
  inr (mk_ndarray [n] (repeat 0%float n)).

(** ** C3: the active region *)


Lemma mono4_region_ordered : region_ordered mono4.
Proof.
  intros a [= <-]. left. exists 1%nat, 4%nat, 0, 4.
  repeat split; try reflexivity; discriminate.
Qed.

Lemma mono4_region_within : region_within mono4.
Proof.
  intros a [= <-]. left. exists 1%nat, 4%nat, 0, 4.
  repeat split; try reflexivity; discriminate.
Qed.

(** A rank-0 array holding the one number 5. *)
Definition scalar5 : array := float_array [] [5]%float.



(** ** C8: assignment to [audio_data] *)

Lemma audio_data_setter_rank1 v n w :
  np.isfinite_all v = true -> arr_shape v = [n] ->
  audio_data_setter (PyNdarray v) w =
  (inr tt,
   mk_world (with_active_end (Some (Z.of_nat n))
               (with_active_start (Some 0)
                  (with_audio_data
                     (Some (lift (fun A x => np.expand_dims x CHAN_INDEX) v)) (self w))))
            (warned w)).
Proof.
  intros Hf Hs.
  rewrite audio_data_setter_stores by (unfold arr_ndim; rewrite ?Hs; auto).
  assert (Ht : transposes v = false) by (unfold transposes, arr_ndim; now rewrite Hs).
  assert (Hn : normalized v = lift (fun A x => np.expand_dims x CHAN_INDEX) v).
  { unfold normalized, arr_ndim. rewrite Ht, Hs. reflexivity. }
  rewrite Ht, Hn.
  erewrite set_active_region_to_default_some; [reflexivity | reflexivity |].
  cbn [self]. rewrite arr_shape_expand_dims, Hs. reflexivity.
Qed.

Lemma audio_data_setter_tall v r c w :
  np.isfinite_all v = true -> arr_shape v = [r; c] -> (c < r)%nat ->
  audio_data_setter (PyNdarray v) w =
  (inr tt,
   mk_world (with_active_end (Some (Z.of_nat r))
               (with_active_start (Some 0)
                  (with_audio_data (Some (lift (@np.transpose) v)) (self w))))
            (warned w ++ [Msg.transposing])).
Proof.
  intros Hf Hs Hlt.
  rewrite audio_data_setter_stores by (unfold arr_ndim; rewrite ?Hs; auto).
  assert (Ht : transposes v = true).
  { rewrite (transposes_rank2 v r c Hs). now apply Nat.ltb_lt. }
  assert (Hn : normalized v = lift (@np.transpose) v).
  { unfold normalized, arr_ndim. rewrite Ht, arr_shape_transpose, Hs. reflexivity. }
  rewrite Ht, Hn.
  erewrite set_active_region_to_default_some; [reflexivity | reflexivity |].
  cbn [self]. rewrite arr_shape_transpose, Hs. reflexivity.
Qed.

Lemma audio_data_setter_wide v r c w :
  np.isfinite_all v = true -> arr_shape v = [r; c] -> (r <= c)%nat ->
  audio_data_setter (PyNdarray v) w =
  (inr tt,
   mk_world (with_active_end (Some (Z.of_nat c))
               (with_active_start (Some 0) (with_audio_data (Some v) (self w))))
            (warned w)).
Proof.
  intros Hf Hs Hle.
  rewrite audio_data_setter_stores by (unfold arr_ndim; rewrite ?Hs; auto).
  assert (Ht : transposes v = false).
  { rewrite (transposes_rank2 v r c Hs). now apply Nat.ltb_ge. }
  assert (Hn : normalized v = v) by (unfold normalized, arr_ndim; now rewrite Ht, Hs).
  rewrite Ht, Hn.
  erewrite set_active_region_to_default_some; [reflexivity | reflexivity |].
  cbn [self]. rewrite Hs. reflexivity.
Qed.

(** A rank-0 array passes every check: it is stored as one sample of
    rank 1, and the reset of the region raises on the missing sample axis
    after it has set the start and before it sets the end. *)
Lemma audio_data_setter_rank0 v w :
  np.isfinite_all v = true -> arr_shape v = [] ->
  audio_data_setter (PyNdarray v) w =
  (inl (IndexError Msg.tuple_index),
   mk_world (with_active_start (Some 0)
               (with_audio_data
                  (Some (lift (fun A x => np.expand_dims x CHAN_INDEX) v)) (self w)))
            (warned w)).
Proof.
  intros Hf Hs.
  rewrite audio_data_setter_stores by (unfold arr_ndim; rewrite ?Hs; auto).
  assert (Ht : transposes v = false) by (unfold transposes, arr_ndim; now rewrite Hs).
  assert (Hn : normalized v = lift (fun A x => np.expand_dims x CHAN_INDEX) v).
  { unfold normalized, arr_ndim. rewrite Ht, Hs. reflexivity. }
  rewrite Ht, Hn.
  erewrite set_active_region_to_default_rank; [reflexivity | reflexivity |].
  cbn [self]. rewrite arr_shape_expand_dims, Hs. reflexivity.
Qed.

(** What an assignment that returned has left. *)
Definition assigned (w' : world) : Prop :=
  exists a n, _audio_data (self w') = Some a /\ arr_ndim a = 2%nat /\
              stored_length (self w') = Some n /\
              _active_start (self w') = Some 0 /\ _active_end (self w') = Some n.


Definition empty_world : world := mk_world empty_signal [].

Definition with_infinity : array := float_array [3]%nat [1; infinity; 3]%float.
Definition rank3 : array := float_array [2; 1; 1]%nat [1; 3]%float.
Definition three_samples : array := float_array [3]%nat [1; 2; 3]%float.
Definition tall : array := float_array [3; 2]%nat [1; 2; 3; 4; 5; 6]%float.
Definition wide : array := float_array [1; 4]%nat [1; 2; 3; 4]%float.



(** ** C10: [zero_pad] *)

(** The first channel of a 2-D array, and that channel between [before]
    and [after] fill values, as one channel of a 2-D array. *)
Definition first_row {A} (x : ndarray A) : ndarray A :=
  let n := nth LEN_INDEX (shape x) 0%nat in
  mk_ndarray [n] (firstn n (flat x)).

Definition padded_row {A} (z : A) (x : ndarray A) (before after : nat) : ndarray A :=
  let n := nth LEN_INDEX (shape x) 0%nat in
  mk_ndarray [1; before + n + after]%nat
             (repeat z before ++ firstn n (flat x) ++ repeat z after).

Definition padded_first_channel (v : array) (before after : nat) : array :=
  match v with
  | IntArr x => IntArr (padded_row 0 x before after)
  | FloatArr x => FloatArr (padded_row 0%float x before after)
  end.

Lemma concat_chunks {A} (n k : nat) (l : list A) :
  List.concat (chunks n k l) = firstn (n * k) l.
Proof.
  revert l. induction n as [| n IH]; intros l; cbn [chunks List.concat]; [reflexivity |].
  rewrite IH. cbn [Nat.mul]. now rewrite firstn_add.
Qed.

Lemma concat_repeat_singleton {A} (z : A) (b : nat) : List.concat (repeat [z] b) = repeat z b.
Proof. induction b as [| b IH]; cbn; [reflexivity | now rewrite IH]. Qed.

Lemma take_axis_first {A} (x : ndarray A) c n :
  shape x = [c; n] -> (1 <= c)%nat ->
  np.take_axis x CHAN_INDEX 0 = Some (first_row x).
Proof.
  intros Hs Hc. unfold np.take_axis, np.blocks, np.outer, np.inner, first_row, CHAN_INDEX.
  rewrite Hs. cbn [nth_error nth LEN_INDEX firstn skipn size_of fold_right app].
  destruct (0 <? c)%nat eqn:E; [| apply Nat.ltb_ge in E; lia].
  cbn [chunks flat_map Nat.mul skipn]. rewrite app_nil_r, !Nat.mul_1_r.
  rewrite firstn_firstn. now replace (Nat.min n (c * n)) with n by nia.
Qed.

Lemma pad_rank1 {A} (z : A) (l : list A) n b a :
  np.pad z (mk_ndarray [n] l) b a =
  mk_ndarray [b + n + a]%nat (repeat z b ++ firstn n l ++ repeat z a).
Proof.
  unfold np.pad. cbn [shape flat map np.pad_buffer size_of fold_right repeat].
  f_equal. rewrite !concat_app, !concat_repeat_singleton. f_equal. f_equal.
  rewrite map_id. rewrite concat_chunks. now rewrite Nat.mul_1_r.
Qed.

Lemma padded_as_computed v c n b a :
  arr_shape v = [c; n] -> (1 <= c)%nat ->
  exists first,
    lift_opt (fun A x => np.take_axis x CHAN_INDEX 0) v = Some first /\
    arr_shape (np.pad_arr first b a) = [b + n + a]%nat /\
    lift (fun A x => np.expand_dims x CHAN_INDEX) (np.pad_arr first b a) =
    padded_first_channel v b a.
Proof.
  intros Hs Hc. destruct v as [x | x]; cbn [arr_shape] in Hs;
    (eexists; split; [cbn [lift_opt]; rewrite (take_axis_first x c n Hs Hc); reflexivity |]);
    unfold first_row; rewrite Hs; cbn [nth LEN_INDEX np.pad_arr];
    rewrite pad_rank1; (split; [reflexivity |]);
    cbn [lift padded_first_channel]; unfold np.expand_dims, padded_row;
    rewrite Hs; cbn [shape flat firstn skipn app nth CHAN_INDEX LEN_INDEX];
    now rewrite firstn_firstn, Nat.min_id.
Qed.

Lemma num_channels_full w v c n :
  holds_full (self w) v c n -> num_channels w = (inr (Some (Z.of_nat c)), w).
Proof.
  intros H. rewrite (reads_num_channels w). now rewrite (eval_num_channels_full _ v c n H).
Qed.

Lemma active_region_is_default_full w v c n :
  holds_full (self w) v c n -> active_region_is_default w = (inr true, w).
Proof.
  intros H. rewrite (reads_active_region_is_default w).
  now rewrite (eval_active_region_is_default_full _ v c n H).
Qed.

Lemma signal_length_full w v c n :
  holds_full (self w) v c n -> signal_length w = (inr (Some (Z.of_nat n)), w).
Proof.
  intros H. rewrite (reads_signal_length w). now rewrite (eval_signal_length_full _ v c n H).
Qed.

Lemma get_channel_first w v c n first :
  holds_full (self w) v c n -> (1 <= c)%nat ->
  lift_opt (fun A x => np.take_axis x CHAN_INDEX 0) v = Some first ->
  get_channel 0 w = (inr first, w).
Proof.
  intros H Hc Hfirst. unfold get_channel, _verify_get_channel. exec.
  rewrite (num_channels_full w v c n H). exec. cbn [py_ge].
  destruct (Z.of_nat c <=? 0) eqn:E; [lia |]. exec. cbn [Z.ltb Z.compare]. exec.
  rewrite (audio_data_full (self w) v c n w H eq_refl). exec.
  unfold _get_axis. cbn [Z.to_nat]. rewrite Hfirst. reflexivity.
Qed.

Lemma get_channel_out_of_bounds w v c n i :
  holds_full (self w) v c n -> Z.of_nat c <= i ->
  get_channel i w = (inl (ValueError Msg.channel_bounds), w).
Proof.
  intros H Hc. unfold get_channel, _verify_get_channel. exec.
  rewrite (num_channels_full w v c n H). exec. cbn [py_ge].
  destruct (Z.of_nat c <=? i) eqn:E; [| lia]. exec. reflexivity.
Qed.

Lemma forallb_firstn {A} (f : A -> bool) (n : nat) (l : list A) :
  forallb f l = true -> forallb f (firstn n l) = true.
Proof.
  revert n. induction l as [| x l IH]; intros [| n] H; cbn in *; auto.
  apply andb_true_iff in H as [Hx Hl]. now rewrite Hx, IH.
Qed.

Lemma forallb_repeat {A} (f : A -> bool) (z : A) (n : nat) :
  f z = true -> forallb f (repeat z n) = true.
Proof. intros Hz. induction n as [| n IH]; cbn; [reflexivity | now rewrite Hz]. Qed.

Lemma padded_first_channel_finite v b a :
  np.isfinite_all v = true -> np.isfinite_all (padded_first_channel v b a) = true.
Proof.
  destruct v as [x | x]; cbn [np.isfinite_all padded_first_channel]; [reflexivity |].
  intros H. unfold padded_row. cbn [flat]. rewrite !forallb_app.
  rewrite (forallb_firstn _ _ _ H), !forallb_repeat by reflexivity. reflexivity.
Qed.

Lemma padded_first_channel_shape v b a :
  arr_shape (padded_first_channel v b a) =
  [1; b + nth LEN_INDEX (arr_shape v) 0 + a]%nat.
Proof. now destruct v. Qed.

Lemma padded_first_channel_well_shaped v c n b a :
  arr_shape v = [c; n] -> arr_well_shaped v = true -> (1 <= c)%nat ->
  arr_well_shaped (padded_first_channel v b a) = true.
Proof.
  intros Hs Hw Hc.
  destruct v as [x | x]; cbn [arr_shape arr_well_shaped padded_first_channel] in *;
    unfold well_shaped, size, padded_row in *; rewrite Hs in *;
    cbn [shape flat size_of fold_right nth LEN_INDEX] in *;
    apply Nat.eqb_eq in Hw; apply Nat.eqb_eq;
    rewrite !length_app, !repeat_length, length_firstn; nia.
Qed.

Lemma channel_range_full w v c n :
  holds_full (self w) v c n -> channel_range w = (inr (range (Z.of_nat c)), w).
Proof.
  intros H. unfold channel_range. exec. now rewrite (num_channels_full w v c n H).
Qed.

Lemma range_succ (c : nat) :
  range (Z.of_nat (S c)) = 0 :: map (fun i => i + 1) (range (Z.of_nat c)).
Proof.
  unfold range. rewrite !Nat2Z.id. cbn [seq map]. f_equal.
  rewrite <- seq_shift, !map_map. apply map_ext. intros x. lia.
Qed.

Lemma for_each_map {A B} (g : A -> B) (l : list A) (body : B -> M unit) w :
  for_each (map g l) body w = for_each l (fun x => body (g x)) w.
Proof.
  revert w. induction l as [| x l IH]; intros w; cbn [map for_each]; [reflexivity |].
  unfold bind. destruct (body (g x) w) as [[e | u] w']; [reflexivity | apply IH].
Qed.

(** The object after the first iteration of [zero_pad]'s loop. *)
Definition after_first_pad (s : AudioSignal) (v : array) (before after : Z) : AudioSignal :=
  let b := Z.to_nat before in
  let a := Z.to_nat after in
  with_active_end (Some (Z.of_nat (b + nth LEN_INDEX (arr_shape v) 0%nat + a)))
    (with_active_start (Some 0)
       (with_audio_data (Some (padded_first_channel v b a)) s)).

Lemma zero_pad_first_iteration w v c n before after :
  holds_full (self w) v c n -> np.isfinite_all v = true -> (1 <= c)%nat ->
  0 <= before -> 0 <= after ->
  (ch <- get_channel 0 ;;
   raise_if ((before <? 0) || (after <? 0)) (ValueError Msg.numpy_pad_negative) ;;
   audio_data_setter (PyNdarray (np.pad_arr ch (Z.to_nat before) (Z.to_nat after)))) w =
  (inr tt, mk_world (after_first_pad (self w) v before after) (warned w)).
Proof.
  intros H Hf Hc Hb Ha.
  pose proof H as (_ & Hs & _).
  destruct (padded_as_computed v c n (Z.to_nat before) (Z.to_nat after) Hs Hc)
    as (first & Hfirst & Hshape & Hpad).
  exec. rewrite (get_channel_first w v c n first H Hc Hfirst). exec.
  destruct (before <? 0) eqn:E1; [lia |]. destruct (after <? 0) eqn:E2; [lia |].
  cbn [orb]. exec.
  rewrite (audio_data_setter_rank1 _ (Z.to_nat before + n + Z.to_nat after)%nat w).
  - rewrite Hpad. unfold after_first_pad. rewrite Hs. reflexivity.
  - assert (Hfin := padded_first_channel_finite v (Z.to_nat before) (Z.to_nat after) Hf).
    rewrite <- Hpad in Hfin.
    destruct (np.pad_arr first (Z.to_nat before) (Z.to_nat after)); exact Hfin.
  - exact Hshape.
Qed.

Lemma after_first_pad_holds s v c n before after :
  holds_full s v c n -> (1 <= c)%nat ->
  holds_full (after_first_pad s v before after)
             (padded_first_channel v (Z.to_nat before) (Z.to_nat after))
             1 (Z.to_nat before + n + Z.to_nat after).
Proof.
  intros (Ha & Hs & Hw & _) Hc. unfold holds_full, after_first_pad. exec.
  rewrite padded_first_channel_shape, Hs. cbn [nth LEN_INDEX].
  repeat split.
  exact (padded_first_channel_well_shaped v c n _ _ Hs Hw Hc).
Qed.

(** With a negative count numpy's [pad] raises in the first iteration,
    after [get_channel] has returned and before anything is assigned. *)
Lemma zero_pad_negative w v c n before after :
  holds_full (self w) v c n -> (1 <= c)%nat -> before < 0 \/ after < 0 ->
  zero_pad before after w = (inl (ValueError Msg.numpy_pad_negative), w).
Proof.
  intros H Hc Hneg. pose proof H as (_ & Hs & _).
  destruct (padded_as_computed v c n 0 0 Hs Hc) as (first & Hfirst & _).
  destruct c as [| c']; [lia |].
  unfold zero_pad.
  erewrite bind_ok by (eapply active_region_is_default_full; exact H).
  erewrite bind_ok by reflexivity.
  erewrite bind_ok by (eapply channel_range_full; exact H).
  rewrite range_succ. cbn [for_each].
  erewrite bind_err; [reflexivity |].
  erewrite bind_ok by (apply (get_channel_first w v (S c') n first H Hc Hfirst)).
  assert (E : (before <? 0) || (after <? 0) = true).
  { apply orb_true_iff. destruct Hneg; [left | right]; now apply Z.ltb_lt. }
  rewrite E. reflexivity.
Qed.

(** Without a channel the loop has nothing to do. *)
Lemma zero_pad_no_channel w v n before after :
  holds_full (self w) v 0 n -> zero_pad before after w = (inr tt, w).
Proof.
  intros H. unfold zero_pad.
  erewrite bind_ok by (eapply active_region_is_default_full; exact H).
  erewrite bind_ok by reflexivity.
  erewrite bind_ok by (eapply channel_range_full; exact H).
  reflexivity.
Qed.

(** C10, as amended.  On an object with a default region holding [c]
    finite channels of [n] samples, [zero_pad(before, after)] with
    non-negative counts: for [c >= 2] raises the channel-bounds error of
    [get_channel] after the stored samples have become the padded first
    channel alone; for [c = 1] returns, and the stored length has grown by
    [before + after].  With a negative count and [c >= 1] it raises the
    ValueError of numpy's [pad] with the object as it was, and with
    [c = 0] it returns without a change. *)
Theorem zero_pad_keeps_only_first_channel :
  forall s v c n before after log,
    holds_full s v c n -> np.isfinite_all v = true ->
    ((2 <= c)%nat -> 0 <= before -> 0 <= after ->
     zero_pad before after (mk_world s log) =
     (inl (ValueError Msg.channel_bounds),
      mk_world (after_first_pad s v before after) log)) /\
    (c = 1%nat -> 0 <= before -> 0 <= after ->
     zero_pad before after (mk_world s log) =
     (inr tt, mk_world (after_first_pad s v before after) log)) /\
    ((1 <= c)%nat -> before < 0 \/ after < 0 ->
     zero_pad before after (mk_world s log) =
     (inl (ValueError Msg.numpy_pad_negative), mk_world s log)) /\
    (c = 0%nat -> zero_pad before after (mk_world s log) = (inr tt, mk_world s log)) /\
    (0 <= before -> 0 <= after ->
     _audio_data (after_first_pad s v before after) =
     Some (padded_first_channel v (Z.to_nat before) (Z.to_nat after)) /\
     arr_shape (padded_first_channel v (Z.to_nat before) (Z.to_nat after)) =
     [1; Z.to_nat before + n + Z.to_nat after]%nat /\
     stored_length (after_first_pad s v before after) = Some (before + Z.of_nat n + after)).
Proof.
  intros s v c n before after log H Hf.
  pose proof H as (_ & Hs & _).
  assert (Hrun : forall c', c = S c' -> 0 <= before -> 0 <= after ->
            zero_pad before after (mk_world s log) =
            for_each (range (Z.of_nat c'))
              (fun ch => c0 <- get_channel (ch + 1) ;;
                 raise_if ((before <? 0) || (after <? 0)) (ValueError Msg.numpy_pad_negative) ;;
                 audio_data_setter
                   (PyNdarray (np.pad_arr c0 (Z.to_nat before) (Z.to_nat after))))
              (mk_world (after_first_pad s v before after) log)).
  { intros c' -> Hb Ha. unfold zero_pad.
    erewrite bind_ok by (eapply active_region_is_default_full; exact H).
    erewrite bind_ok by reflexivity.
    erewrite bind_ok by (eapply channel_range_full; exact H).
    rewrite range_succ. cbn [for_each].
    erewrite bind_ok
      by (apply (zero_pad_first_iteration (mk_world s log) v (S c') n before after
                   H Hf ltac:(lia) Hb Ha)).
    cbn [self warned]. apply for_each_map. }
  refine (conj _ (conj _ (conj _ (conj _ _)))).
  - intros Hc Hb Ha. destruct c as [| [| c'']]; try lia.
    rewrite (Hrun (S c'') eq_refl Hb Ha), range_succ. cbn [for_each].
    erewrite bind_err; [reflexivity |].
    erewrite bind_err; [reflexivity |].
    eapply (get_channel_out_of_bounds
              (mk_world (after_first_pad s v before after) log) _ 1%nat _ (0 + 1)).
    + apply (after_first_pad_holds s v (S (S c'')) n before after H). lia.
    + lia.
  - intros -> Hb Ha. rewrite (Hrun 0%nat eq_refl Hb Ha). reflexivity.
  - intros Hc Hneg. exact (zero_pad_negative (mk_world s log) v c n before after H Hc Hneg).
  - intros ->. exact (zero_pad_no_channel (mk_world s log) v n before after H).
  - intros Hb Ha. split; [reflexivity | split].
    + rewrite padded_first_channel_shape, Hs. reflexivity.
    + unfold stored_length, after_first_pad. exec.
      rewrite padded_first_channel_shape, Hs. cbn [nth_error nth LEN_INDEX option_map].
      f_equal. lia.
Qed.

Definition stereo_samples : array :=
  float_array [2; 4]%nat [1; 2; 3; 4; 5; 6; 7; 8]%float.

Definition stereo4 : AudioSignal := signal_of stereo_samples.

Lemma stereo4_holds : holds_full stereo4 stereo_samples 2 4.
Proof. repeat split. Qed.

Lemma mono4_holds : holds_full mono4 wide 1 4.
Proof. repeat split. Qed.

Lemma zero_pad_keeps_only_first_channel_witness :
  zero_pad 1 2 (mk_world stereo4 []) =
  (inl (ValueError Msg.channel_bounds),
   mk_world (after_first_pad stereo4 stereo_samples 1 2) []) /\
  zero_pad 1 2 (mk_world mono4 []) =
  (inr tt, mk_world (after_first_pad mono4 wide 1 2) []) /\
  zero_pad 1 (-2) (mk_world stereo4 []) =
  (inl (ValueError Msg.numpy_pad_negative), mk_world stereo4 []) /\
  _audio_data (after_first_pad stereo4 stereo_samples 1 2) =
  Some (float_array [1; 7]%nat [0; 1; 2; 3; 4; 0; 0]%float) /\
  stored_length (after_first_pad mono4 wide 1 2) = Some 7.
Proof.
  assert (H0 : 0 <= 1) by discriminate.
  assert (H1 : 0 <= 2) by discriminate.
  assert (H2 : (2 <= 2)%nat) by constructor.
  assert (H3 : (1 <= 2)%nat) by (repeat constructor).
  assert (H4 : 1 < 0 \/ -2 < 0) by (right; reflexivity).
  pose proof (zero_pad_keeps_only_first_channel stereo4 stereo_samples 2 4 1 2 []
                stereo4_holds eq_refl) as (Hs & _ & _ & _ & Hd).
  pose proof (zero_pad_keeps_only_first_channel stereo4 stereo_samples 2 4 1 (-2) []
                stereo4_holds eq_refl) as (_ & _ & Hn & _).
  pose proof (zero_pad_keeps_only_first_channel mono4 wide 1 4 1 2 []
                mono4_holds eq_refl) as (_ & Hm & _ & _ & Hl).
  refine (conj (Hs H2 H0 H1) (conj (Hm eq_refl H0 H1) (conj (Hn H3 H4) (conj _ _)))).
  - exact (proj1 (Hd H0 H1)).
  - exact (proj2 (proj2 (Hl H0 H1))).
Defined.

(** C10 as stated fails for a negative count.  [zero_pad(-1, 0)] on two
    channels raises the ValueError of numpy's [pad], not a channel-bounds
    error, and both channels are still stored; on one channel it raises
    too, and the signal is not extended. *)
Lemma zero_pad_rejects_negative_counts :
  eval num_channels stereo4 = inr (Some 2) /\
  eval active_region_is_default stereo4 = inr true /\
  zero_pad (-1) 0 (mk_world stereo4 []) =
  (inl (ValueError Msg.numpy_pad_negative), mk_world stereo4 []) /\
  zero_pad (-1) 0 (mk_world mono4 []) =
  (inl (ValueError Msg.numpy_pad_negative), mk_world mono4 []).
Proof. repeat split. Qed.

(** ** C2: mutators under a narrowed active region *)

(** [m] raises from [w] and leaves the object as it was. *)
Definition rejects {A} (m : M A) (w : world) : Prop :=
  is_raise (fst (m w)) = true /\ self (snd (m w)) = self w.

(** The active region of [s] is not the default one. *)
Definition narrowed (s : AudioSignal) : Prop :=
  eval active_region_is_default s = inr false.

Lemma rejects_reads {A} (m : M A) w e :
  reads m -> eval m (self w) = inl e -> rejects m w.
Proof. intros Hm He. unfold rejects. rewrite (Hm w), He. now split. Qed.

Lemma rejects_bind_reads {A B} (m : M A) (k : A -> M B) w :
  reads m ->
  (forall a, eval m (self w) = inr a -> rejects (k a) w) ->
  rejects (bind m k) w.
Proof.
  intros Hm Hk. unfold rejects, bind. rewrite (Hm w).
  destruct (eval m (self w)) as [e | a] eqn:E; [now split | exact (Hk a eq_refl)].
Qed.

Lemma rejects_raise {A} (e : exc) w : rejects (@raise A e) w.
Proof. now split. Qed.

Lemma verify_audio_narrowed other s :
  narrowed s -> exists e, eval (_verify_audio other) s = inl e.
Proof.
  intros Hn. unfold _verify_audio.
  repeat (rewrite eval_bind by auto;
          match goal with
          | |- exists e, match eval ?m s with _ => _ end = _ =>
              let E := fresh "E" in
              destruct (eval m s) as [? | ?] eqn:E; [eauto |]
          end).
  match goal with
  | H : eval active_region_is_default s = inr ?b |- _ =>
      unfold narrowed in Hn; rewrite Hn in H; injection H as <-
  end.
  eexists. reflexivity.
Qed.

Lemma rejects_verify_audio {B} other (k : unit -> M B) w :
  narrowed (self w) -> rejects (bind (_verify_audio other) k) w.
Proof.
  intros Hn. destruct (verify_audio_narrowed other (self w) Hn) as [e He].
  apply rejects_bind_reads; [auto |]. intros a Ha. congruence.
Qed.

Lemma rejects_region_check {B} msg (k : unit -> M B) w :
  narrowed (self w) ->
  rejects (d <- active_region_is_default ;; raise_if (negb d) (Exception msg) ;; k tt) w.
Proof.
  intros Hn. apply rejects_bind_reads; [auto |]. intros d Hd.
  unfold narrowed in Hn. rewrite Hn in Hd. injection Hd as <-.
  now split.
Qed.

(** The seven mutators that check the active region reject a narrowed one. *)
Theorem guarded_mutators_reject_narrowed_region :
  forall s log other n_samples n_seconds before after,
    narrowed s ->
    rejects (concat other) (mk_world s log) /\
    rejects (truncate_samples n_samples) (mk_world s log) /\
    rejects (truncate_seconds n_seconds) (mk_world s log) /\
    rejects (crop_signal before after) (mk_world s log) /\
    rejects (zero_pad before after) (mk_world s log) /\
    rejects (add other) (mk_world s log) /\
    rejects (subtract other) (mk_world s log).
Proof.
  intros s log other n_samples n_seconds before after Hn.
  assert (Hadd : forall o w, self w = s -> rejects (add o) w).
  { intros o w Hw. unfold add.
    apply rejects_bind_reads; [auto |]. intros [] Ha.
    destruct (verify_audio_narrowed o (self w) ltac:(now rewrite Hw)) as [e He].
    unfold _verify_audio_arithmetic in Ha.
    rewrite eval_bind, He in Ha by auto. discriminate. }
  refine (conj _ (conj _ (conj _ (conj _ (conj _ (conj _ _)))))).
  - apply (rejects_verify_audio other _ (mk_world s log) Hn).
  - unfold truncate_samples. apply rejects_bind_reads; [auto |]. intros len _.
    destruct (num_gt n_samples len); [now split |].
    apply (rejects_region_check _ (fun _ => _) (mk_world s log) Hn).
  - unfold truncate_seconds. apply rejects_bind_reads; [auto |]. intros d _.
    match goal with |- context [raise_if ?c _] => destruct c; [now split |] end.
    apply (rejects_region_check _ (fun _ => _) (mk_world s log) Hn).
  - apply (rejects_region_check _ (fun _ => _) (mk_world s log) Hn).
  - apply (rejects_region_check _ (fun _ => _) (mk_world s log) Hn).
  - apply (Hadd other (mk_world s log) eq_refl).
  - unfold subtract, rejects, bind, with_object. cbn [self warned].
    destruct (apply_gain (Some (PyInt (-1))) (mk_world other log)) as [[e' | u] w2].
    + now split.
    + exact (Hadd _ (mk_world s (warned w2)) eq_refl).
Qed.

(** Four mono samples seen through the region [1, 3). *)
Definition narrowed4 : AudioSignal :=
  self (snd (set_active_region 1 3 (mk_world mono4 []))).

(** C2 fails for [apply_gain] and [peak_normalize]: neither checks the
    active region.  On four samples [1 2 3 4] narrowed to [1, 3),
    [apply_gain(2.0)] returns and the stored samples become [4 6];
    [peak_normalize()] returns and they become [2/3 1].  The samples
    outside the region are gone in both cases. *)
Theorem apply_gain_and_peak_normalize_ignore_region :
  narrowed narrowed4 /\
  _audio_data narrowed4 = Some wide /\
  fst (apply_gain (Some (PyFloat 2)) (mk_world narrowed4 [])) = inr tt /\
  _audio_data (self (snd (apply_gain (Some (PyFloat 2)) (mk_world narrowed4 [])))) =
  Some (float_array [1; 2]%nat [4; 6]%float) /\
  is_raise (fst (peak_normalize true (mk_world narrowed4 []))) = false /\
  _audio_data (self (snd (peak_normalize true (mk_world narrowed4 [])))) =
  Some (float_array [1; 2]%nat [2 / 3; 1]%float).
Proof. repeat split; vm_compute; reflexivity. Qed.

(** ** IEEE facts used for [subtract]: negation by [* -1], and [x + -y] *)

Lemma SFadd_SFopp x y : SF64add x (SFopp y) = SF64sub x y.
Proof.
  unfold SF64add, SF64sub.
  destruct x as [sx | sx | | sx mx ex], y as [sy | sy | | sy my ey]; cbn [SFopp SFadd SFsub];
    try reflexivity; try (destruct sx, sy; reflexivity).
Qed.

Lemma fadd_opp (x y : float) : (x + - y)%float = (x - y)%float.
Proof.
  apply Prim2SF_inj.
  rewrite FloatAxioms.add_spec, FloatAxioms.sub_spec, FloatAxioms.opp_spec.
  apply SFadd_SFopp.
Qed.

Lemma neg_one_spec : Prim2SF (-1)%float = S754_finite true 4503599627370496 (-52).
Proof. reflexivity. Qed.

Lemma SFmul_neg_one f :
  valid_binary f = true ->
  SF64mul f (S754_finite true 4503599627370496 (-52)) = SFopp f.
Proof.
  destruct f as [s | s | | s m e]; unfold SF64mul;
    cbn [SFmul SFopp SpecFloat.valid_binary]; intros Hv;
    try (destruct s; reflexivity); try reflexivity.
  unfold bounded, canonical_mantissa in Hv.
  apply andb_true_iff in Hv as [Hc He]. apply Z.eqb_eq in Hc.
  rewrite Pos.mul_comm. cbn [Pos.mul].
  unfold binary_round_aux, shr_fexp. cbn [Zdigits2 digits2_pos].
  rewrite !Pos2Z.inj_succ.
  match goal with
  | |- context [fexp prec emax (?a + (e + -52))] =>
      replace (a + (e + -52)) with (Z.pos (digits2_pos m) + e) by lia
  end.
  rewrite Hc. replace (e - (e + -52)) with 52 by lia.
  cbn [shr shr_record_of_loc iter_pos shr_1 orb loc_of_shr_record round_nearest_even shr_m
       Zdigits2].
  replace (e + -52 + 52) with e by lia.
  rewrite Hc, Z.sub_diag. cbn [shr shr_m]. rewrite He.
  now destruct s.
Qed.

Lemma fmul_neg_one (u : float) : (u * (-1))%float = (- u)%float.
Proof.
  apply Prim2SF_inj. rewrite FloatAxioms.mul_spec, FloatAxioms.opp_spec, neg_one_spec.
  apply SFmul_neg_one, Prim2SF_valid.
Qed.

Lemma SFeqb_finite_refl s m e : SFeqb (S754_finite s m e) (S754_finite s m e) = true.
Proof.
  unfold SFeqb, SFcompare. rewrite Z.compare_refl.
  change (Pos.compare_cont Eq m m) with (m ?= m)%positive. rewrite Pos.compare_refl.
  now destruct s.
Qed.

Lemma SFeqb_opp f : SFeqb (SFopp f) (SFopp f) = SFeqb f f.
Proof.
  destruct f as [s | s | | s m e]; cbn [SFopp];
    rewrite ?SFeqb_finite_refl; try destruct s; reflexivity.
Qed.

Lemma SFabs_opp f : SFabs (SFopp f) = SFabs f.
Proof. now destruct f. Qed.

Lemma is_finite_opp (u : float) : is_finite (- u) = is_finite u.
Proof.
  unfold is_finite, is_nan, is_infinity.
  rewrite !FloatAxioms.eqb_spec, !FloatAxioms.abs_spec, !FloatAxioms.opp_spec.
  now rewrite SFeqb_opp, SFabs_opp.
Qed.

(** ** C4: [add] and [subtract] *)

(** The object [s] with the samples [v] of length [n] under a full region:
    what the setter leaves. *)
Definition with_samples (v : array) (n : nat) (s : AudioSignal) : AudioSignal :=
  with_active_end (Some (Z.of_nat n))
    (with_active_start (Some 0) (with_audio_data (Some v) s)).

Lemma audio_data_setter_rank2 v c n w :
  np.isfinite_all v = true -> arr_shape v = [c; n] -> (c <= n)%nat ->
  audio_data_setter (PyNdarray v) w =
  (inr tt, mk_world (with_samples v n (self w)) (warned w)).
Proof.
  intros Hf Hs Hle.
  rewrite audio_data_setter_stores by (unfold arr_ndim; rewrite ?Hs; auto).
  assert (Ht : transposes v = false).
  { rewrite (transposes_rank2 v c n Hs). now apply Nat.ltb_ge. }
  assert (Hn : normalized v = v) by (unfold normalized, arr_ndim; now rewrite Ht, Hs).
  rewrite Ht, Hn.
  erewrite set_active_region_to_default_some; [reflexivity | reflexivity |].
  cbn [self]. rewrite Hs. reflexivity.
Qed.

Lemma with_samples_holds v c n s :
  arr_shape v = [c; n] -> arr_well_shaped v = true ->
  holds_full (with_samples v n s) v c n.
Proof. intros Hs Hw. repeat split; assumption. Qed.

(** [b] is what [o.audio_data] reads. *)
Definition views (o : AudioSignal) (b : array) : Prop :=
  eval audio_data o = inr (Some b).

Lemma holds_full_views s a c n : holds_full s a c n -> views s a.
Proof. apply eval_audio_data_full. Qed.

Lemma eval_num_channels_view o b c n :
  views o b -> arr_shape b = [c; n] -> eval num_channels o = inr (Some (Z.of_nat c)).
Proof.
  intros Hv Hs. unfold num_channels. rewrite eval_bind, Hv by auto.
  unfold eval, shape_at. exec. rewrite Hs. reflexivity.
Qed.

Lemma eval_signal_length_view o b c n :
  views o b -> arr_shape b = [c; n] -> eval signal_length o = inr (Some (Z.of_nat n)).
Proof.
  intros Hv Hs. unfold signal_length. rewrite eval_bind, Hv by auto.
  unfold eval, shape_at. exec. rewrite Hs. reflexivity.
Qed.

Lemma eval_sample_rate s : eval sample_rate s = inr (_sample_rate s).
Proof. reflexivity. Qed.

Lemma opt_eqb_eq a b : opt_eqb a b = true <-> a = b.
Proof.
  destruct a as [x |], b as [y |]; cbn; split; intros H; try discriminate; try reflexivity.
  - apply Z.eqb_eq in H. now subst.
  - injection H as ->. apply Z.eqb_refl.
Qed.

(** The operands differ in sample rate, channel count or signal length,
    as the properties read them. *)
Definition differ (s o : AudioSignal) : Prop :=
  eval sample_rate s <> eval sample_rate o \/
  eval num_channels s <> eval num_channels o \/
  eval signal_length s <> eval signal_length o.

Lemma raise_if_passed c e s u : eval (raise_if c e) s = inr u -> c = false.
Proof. destruct c; [discriminate | reflexivity]. Qed.

(** From [eval (m1 ;; m2 ;; ...) s = inr _]: every step returned. *)
Ltac invert_eval H s :=
  repeat (rewrite eval_bind in H by auto;
          match type of H with
          | match eval ?m s with _ => _ end = _ =>
              let E := fresh "E" in
              destruct (eval m s) as [? | ?] eqn:E; [discriminate |]
          end).

Lemma verify_audio_passed o s :
  eval (_verify_audio o) s = inr tt ->
  eval num_channels s = eval num_channels o /\
  eval sample_rate s = eval sample_rate o /\
  eval active_region_is_default s = inr true.
Proof.
  unfold _verify_audio. intros H. invert_eval H s.
  repeat match goal with
         | E : eval (on _ _) _ = _ |- _ => rewrite eval_on in E by auto
         | E : eval (raise_if _ _) _ = inr _ |- _ =>
             apply raise_if_passed, negb_false_iff in E
         | E : opt_eqb _ _ = true |- _ => apply opt_eqb_eq in E; subst
         end.
  repeat split; congruence.
Qed.

Lemma verify_audio_arithmetic_passed o s :
  eval (_verify_audio_arithmetic o) s = inr tt -> ~ differ s o.
Proof.
  unfold _verify_audio_arithmetic. intros H.
  rewrite eval_bind in H by auto.
  destruct (eval (_verify_audio o) s) as [? | []] eqn:Hv; [discriminate |].
  apply verify_audio_passed in Hv as (Hc & Hr & _).
  invert_eval H s.
  repeat match goal with
         | E : eval (on _ _) _ = _ |- _ => rewrite eval_on in E by auto
         end.
  apply raise_if_passed, negb_false_iff, opt_eqb_eq in H. subst.
  intros [Hd | [Hd | Hd]]; apply Hd; congruence.
Qed.

Lemma add_differ s o log : differ s o -> rejects (add o) (mk_world s log).
Proof.
  intros Hd. unfold add. apply rejects_bind_reads; [auto |]. intros [] H.
  destruct (verify_audio_arithmetic_passed o s H Hd).
Qed.

Lemma eval_raise_if_false e s : eval (raise_if false e) s = inr tt.
Proof. reflexivity. Qed.

Lemma opt_eqb_refl x : opt_eqb x x = true.
Proof. now apply opt_eqb_eq. Qed.

Lemma eval_verify_audio_ok s o a b c n :
  holds_full s a c n -> views o b -> arr_shape b = [c; n] ->
  _sample_rate s = _sample_rate o ->
  eval (_verify_audio o) s = inr tt.
Proof.
  intros H Hv Hs Hr. unfold _verify_audio.
  rewrite eval_bind, (eval_num_channels_full _ a c n H) by auto.
  rewrite eval_bind, eval_on, (eval_num_channels_view o b c n Hv Hs) by auto.
  rewrite opt_eqb_refl. cbn [negb].
  rewrite eval_bind, eval_raise_if_false by auto.
  rewrite eval_bind, eval_sample_rate by auto.
  rewrite eval_bind, eval_on, eval_sample_rate, Hr by auto.
  rewrite opt_eqb_refl. cbn [negb].
  rewrite eval_bind, eval_raise_if_false by auto.
  rewrite eval_bind, (eval_active_region_is_default_full _ a c n H) by auto.
  reflexivity.
Qed.

Lemma verify_audio_arithmetic_ok w o a b c n :
  holds_full (self w) a c n -> views o b -> arr_shape b = [c; n] ->
  _sample_rate (self w) = _sample_rate o ->
  _verify_audio_arithmetic o w = (inr tt, w).
Proof.
  intros H Hv Hs Hr. rewrite (reads__verify_audio_arithmetic o w). f_equal.
  unfold _verify_audio_arithmetic.
  rewrite eval_bind, (eval_verify_audio_ok _ o a b c n H Hv Hs Hr) by auto.
  rewrite eval_bind, (eval_signal_length_full _ a c n H) by auto.
  rewrite eval_bind, eval_on, (eval_signal_length_view o b c n Hv Hs) by auto.
  rewrite opt_eqb_refl. reflexivity.
Qed.

Lemma with_object_ok {A} (o : AudioSignal) (m : M A) w a w' :
  m (mk_world o (warned w)) = (inr a, w') ->
  with_object o m w = (inr (a, self w'), mk_world (self w) (warned w')).
Proof. intros H. unfold with_object. now rewrite H. Qed.

(** [add] on a receiver with a default region and an operand whose viewed
    samples have the receiver's shape. *)
Lemma add_run s o log x y c n :
  holds_full s (FloatArr x) c n -> (c <= n)%nat ->
  views o (FloatArr y) -> shape y = [c; n] ->
  _sample_rate s = _sample_rate o ->
  forallb is_finite (zip_with PrimFloat.add (flat x) (flat y)) = true ->
  add o (mk_world s log) =
  (inr (with_samples
          (FloatArr (mk_ndarray [c; n] (zip_with PrimFloat.add (flat x) (flat y)))) n s),
   mk_world s log).
Proof.
  intros H Hle Hv Hs Hr Hfin. unfold add.
  erewrite bind_ok
    by (apply (verify_audio_arithmetic_ok (mk_world s log) o _ _ c n H Hv Hs Hr)).
  erewrite bind_ok by reflexivity.
  erewrite bind_ok by (apply (audio_data_full s _ c n (mk_world s log) H eq_refl)).
  erewrite bind_ok by (rewrite (on_run o audio_data _ reads_audio_data), Hv; reflexivity).
  pose proof H as (_ & Hsx & _). cbn [arr_shape] in Hsx.
  cbn [np.add np.astype_float]. unfold broadcast2.
  rewrite Hsx, Hs. unfold shape_eqb.
  destruct (list_eq_dec Nat.eq_dec [c; n] [c; n]) as [_ | Hne]; [| now destruct Hne].
  cbn [option_map].
  erewrite bind_ok
    by (apply with_object_ok;
        apply (audio_data_setter_rank2
                 (FloatArr (mk_ndarray [c; n] (zip_with PrimFloat.add (flat x) (flat y))))
                 c n _ Hfin eq_refl Hle)).
  reflexivity.
Qed.

(** [b * -1], as [apply_gain(-1)] computes it. *)
Definition negated (b : array) : array :=
  match b with
  | IntArr x => IntArr (map_array (fun u => wrap64 (u * -1)) x)
  | FloatArr x => FloatArr (map_array (fun u => u * float_of_Z (-1))%float x)
  end.

Lemma multiply_neg_one b : np.multiply b (PyInt (-1)) = Some (negated b).
Proof. now destruct b. Qed.

Lemma negated_shape b : arr_shape (negated b) = arr_shape b.
Proof. now destruct b. Qed.

Lemma negated_well_shaped b : arr_well_shaped (negated b) = arr_well_shaped b.
Proof.
  destruct b as [x | x]; cbn; unfold well_shaped, size, map_array; cbn;
    now rewrite length_map.
Qed.

Lemma float_neg_one : float_of_Z (-1) = (-1)%float.
Proof. reflexivity. Qed.

Lemma negated_finite (y : ndarray float) :
  forallb is_finite (flat y) = true -> np.isfinite_all (negated (FloatArr y)) = true.
Proof.
  cbn [negated np.isfinite_all map_array flat]. rewrite float_neg_one.
  induction (flat y) as [| u l IH]; cbn [map forallb]; [reflexivity |].
  intros H. apply andb_true_iff in H as [Hu Hl].
  now rewrite fmul_neg_one, is_finite_opp, Hu, IH.
Qed.

Lemma zip_with_negated (xs ys : list float) :
  zip_with PrimFloat.add xs (map (fun u => u * float_of_Z (-1))%float ys) =
  zip_with PrimFloat.sub xs ys.
Proof.
  rewrite float_neg_one. unfold zip_with. revert ys.
  induction xs as [| x xs IH]; intros [| y ys]; cbn; try reflexivity.
  now rewrite fmul_neg_one, fadd_opp, <- IH.
Qed.

(** [apply_gain(-1)] on an object whose viewed samples are [b]. *)
Lemma apply_gain_neg_run o log b c n :
  views o b -> arr_shape b = [c; n] -> (c <= n)%nat ->
  apply_gain (Some (PyInt (-1))) (mk_world o log) =
  if np.isfinite_all (negated b)
  then (inr tt, mk_world (with_samples (negated b) n o) log)
  else (inl (ValueError Msg.not_finite), mk_world o log).
Proof.
  intros Hv Hs Hle. cbn [apply_gain].
  erewrite bind_ok by (rewrite (reads_audio_data _); cbn [self]; rewrite Hv; reflexivity).
  cbn beta iota. rewrite multiply_neg_one.
  destruct (np.isfinite_all (negated b)) eqn:Hf.
  - rewrite (audio_data_setter_rank2 (negated b) c n _ Hf); auto.
    now rewrite negated_shape.
  - cbn [audio_data_setter]. exec. rewrite Hf. reflexivity.
Qed.

Lemma subtract_differ s o log b c n :
  views o b -> arr_shape b = [c; n] -> (c <= n)%nat -> arr_well_shaped b = true ->
  differ s o -> rejects (subtract o) (mk_world s log).
Proof.
  intros Hv Hs Hle Hw Hd. unfold subtract, rejects, bind, with_object. cbn [self warned].
  rewrite (apply_gain_neg_run o log b c n Hv Hs Hle).
  destruct (np.isfinite_all (negated b)); [| now split].
  cbn [snd self warned].
  apply (add_differ s (with_samples (negated b) n o) log).
  assert (Hc : holds_full (with_samples (negated b) n o) (negated b) c n).
  { apply with_samples_holds; [now rewrite negated_shape | now rewrite negated_well_shaped]. }
  unfold differ in *.
  rewrite (eval_num_channels_full _ _ c n Hc), (eval_signal_length_full _ _ c n Hc).
  rewrite (eval_num_channels_view o b c n Hv Hs), (eval_signal_length_view o b c n Hv Hs) in Hd.
  exact Hd.
Qed.

Lemma subtract_run s o log x y c n :
  holds_full s (FloatArr x) c n -> (c <= n)%nat ->
  views o (FloatArr y) -> shape y = [c; n] -> well_shaped y = true ->
  forallb is_finite (flat y) = true ->
  _sample_rate s = _sample_rate o ->
  forallb is_finite (zip_with PrimFloat.sub (flat x) (flat y)) = true ->
  subtract o (mk_world s log) =
  (inr (with_samples
          (FloatArr (mk_ndarray [c; n] (zip_with PrimFloat.sub (flat x) (flat y)))) n s),
   mk_world s log).
Proof.
  intros H Hle Hv Hs Hw Hfy Hr Hfin. unfold subtract.
  erewrite bind_ok
    by (apply with_object_ok; cbn [warned];
        rewrite (apply_gain_neg_run o log (FloatArr y) c n Hv Hs Hle),
          (negated_finite y Hfy); reflexivity).
  cbn [snd fst self warned].
  rewrite <- zip_with_negated.
  apply (add_run s _ log x (map_array (fun u => u * float_of_Z (-1))%float y) c n H Hle).
  - apply holds_full_views with (c := c) (n := n).
    apply (with_samples_holds (negated (FloatArr y)) c n o); [exact Hs |].
    now rewrite negated_well_shaped.
  - exact Hs.
  - exact Hr.
  - cbn [map_array flat]. now rewrite zip_with_negated.
Qed.

(** The elementwise sum of two arrays of one shape, as numpy types it:
    [int64] with wrap-around for two integer arrays, [float64] otherwise. *)
Definition sum_of (a b : array) : array :=
  match a, b with
  | IntArr x, IntArr y =>
      IntArr (mk_ndarray (shape x) (zip_with (fun u v => wrap64 (u + v)) (flat x) (flat y)))
  | _, _ =>
      FloatArr (mk_ndarray (arr_shape a)
                  (zip_with PrimFloat.add (flat (np.astype_float a))
                            (flat (np.astype_float b))))
  end.

(** The elementwise difference.  For float samples minus integer samples
    the source adds the negated integers, and the negation is the [int64]
    one: [-(-2^63)] wraps to [-2^63]. *)
Definition difference_of (a b : array) : array :=
  match a, b with
  | IntArr x, IntArr y =>
      IntArr (mk_ndarray (shape x) (zip_with (fun u v => wrap64 (u - v)) (flat x) (flat y)))
  | FloatArr x, IntArr y =>
      FloatArr (mk_ndarray (shape x)
                  (zip_with (fun u v => u + float_of_Z (wrap64 (- v)))%float (flat x) (flat y)))
  | _, FloatArr y =>
      FloatArr (mk_ndarray (arr_shape a)
                  (zip_with PrimFloat.sub (flat (np.astype_float a)) (flat y)))
  end.

Lemma shape_eqb_refl sh : shape_eqb sh sh = true.
Proof. unfold shape_eqb. destruct (list_eq_dec Nat.eq_dec sh sh); congruence. Qed.

Lemma astype_float_shape_of a : shape (np.astype_float a) = arr_shape a.
Proof. now destruct a. Qed.

Lemma add_same_shape a b : arr_shape a = arr_shape b -> np.add a b = Some (sum_of a b).
Proof.
  intros Hs. unfold np.add, sum_of, broadcast2.
  destruct a as [x | x], b as [y | y]; cbn [arr_shape] in Hs;
    rewrite ?astype_float_shape_of; cbn [arr_shape np.astype_float map_array shape];
    rewrite Hs, shape_eqb_refl; cbn [option_map]; now rewrite <- ?Hs.
Qed.

Lemma sum_of_shape a b : arr_shape (sum_of a b) = arr_shape a.
Proof. now destruct a, b. Qed.

Lemma wrap64_sub u v : wrap64 (u + wrap64 (v * -1)) = wrap64 (u - v).
Proof.
  unfold wrap64. f_equal.
  replace (u + ((v * -1 + 2 ^ 63) mod 2 ^ 64 - 2 ^ 63) + 2 ^ 63)
    with (u + (v * -1 + 2 ^ 63) mod 2 ^ 64) by lia.
  rewrite Zplus_mod_idemp_r. f_equal. lia.
Qed.

Lemma zip_with_map_r {A B B' C} (f : A -> B' -> C) (g : B -> B') (xs : list A) (ys : list B) :
  zip_with f xs (map g ys) = zip_with (fun u v => f u (g v)) xs ys.
Proof.
  unfold zip_with. revert ys.
  induction xs as [| x xs IH]; intros [| y ys]; cbn; try reflexivity. now rewrite IH.
Qed.

Lemma zip_with_ext {A B C} (f g : A -> B -> C) (xs : list A) (ys : list B) :
  (forall u v, f u v = g u v) -> zip_with f xs ys = zip_with g xs ys.
Proof. intros H. unfold zip_with. apply map_ext. intros [u v]. apply H. Qed.

(** Adding the negated operand gives the difference. *)
Lemma sum_of_negated a b : sum_of a (negated b) = difference_of a b.
Proof.
  destruct a as [x | x], b as [y | y];
    cbn [sum_of difference_of negated np.astype_float map_array flat shape arr_shape].
  - f_equal. f_equal. rewrite zip_with_map_r. apply zip_with_ext. intros u v. apply wrap64_sub.
  - f_equal. f_equal. apply zip_with_negated.
  - f_equal. f_equal. rewrite map_map, zip_with_map_r. apply zip_with_ext.
    intros u v. do 3 f_equal. lia.
  - f_equal. f_equal. apply zip_with_negated.
Qed.

Lemma negated_finite_any b : np.isfinite_all b = true -> np.isfinite_all (negated b) = true.
Proof. destruct b as [y | y]; [reflexivity | apply negated_finite]. Qed.

(** [add] on a receiver with a default region and an operand whose viewed
    samples have the receiver's shape, whatever the two dtypes. *)
Lemma add_run_any s o log a b c n :
  holds_full s a c n -> (c <= n)%nat ->
  views o b -> arr_shape b = [c; n] ->
  _sample_rate s = _sample_rate o ->
  np.isfinite_all (sum_of a b) = true ->
  add o (mk_world s log) = (inr (with_samples (sum_of a b) n s), mk_world s log).
Proof.
  intros H Hle Hv Hs Hr Hfin. unfold add.
  erewrite bind_ok
    by (apply (verify_audio_arithmetic_ok (mk_world s log) o _ _ c n H Hv Hs Hr)).
  erewrite bind_ok by reflexivity.
  erewrite bind_ok by (apply (audio_data_full s _ c n (mk_world s log) H eq_refl)).
  erewrite bind_ok by (rewrite (on_run o audio_data _ reads_audio_data), Hv; reflexivity).
  pose proof H as (_ & Hsa & _).
  cbn beta iota. rewrite add_same_shape by (now rewrite Hsa, Hs).
  erewrite bind_ok
    by (apply with_object_ok;
        apply (audio_data_setter_rank2 (sum_of a b) c n _ Hfin);
        [now rewrite sum_of_shape | exact Hle]).
  reflexivity.
Qed.

Lemma subtract_run_any s o log a b c n :
  holds_full s a c n -> (c <= n)%nat ->
  views o b -> arr_shape b = [c; n] -> arr_well_shaped b = true ->
  np.isfinite_all b = true ->
  _sample_rate s = _sample_rate o ->
  np.isfinite_all (difference_of a b) = true ->
  subtract o (mk_world s log) =
  (inr (with_samples (difference_of a b) n s), mk_world s log).
Proof.
  intros H Hle Hv Hs Hw Hfb Hr Hfin. unfold subtract.
  erewrite bind_ok
    by (apply with_object_ok; cbn [warned];
        rewrite (apply_gain_neg_run o log b c n Hv Hs Hle),
          (negated_finite_any b Hfb); reflexivity).
  cbn [snd fst self warned].
  rewrite <- sum_of_negated in *.
  apply (add_run_any s _ log a (negated b) c n H Hle).
  - apply holds_full_views with (c := c) (n := n).
    apply (with_samples_holds (negated b) c n o); [now rewrite negated_shape |].
    now rewrite negated_well_shaped.
  - now rewrite negated_shape.
  - exact Hr.
  - exact Hfin.
Qed.

(** A narrowed receiver is rejected before the operands are compared in
    length. *)
Lemma add_narrowed s o log : narrowed s -> rejects (add o) (mk_world s log).
Proof.
  intros Hn. unfold add.
  apply rejects_bind_reads; [auto |]. intros [] Ha.
  destruct (verify_audio_narrowed o s Hn) as [e He].
  unfold _verify_audio_arithmetic in Ha. cbn [self] in Ha.
  rewrite eval_bind, He in Ha by auto. discriminate.
Qed.

Lemma subtract_narrowed s o log : narrowed s -> rejects (subtract o) (mk_world s log).
Proof.
  intros Hn. unfold subtract, rejects, bind, with_object. cbn [self warned].
  destruct (apply_gain (Some (PyInt (-1))) (mk_world o log)) as [[e' | u] w2].
  - now split.
  - exact (add_narrowed s _ (warned w2) Hn).
Qed.

(** [add] and [subtract] reach the other operand [o] through [on] and
    [with_object] alone: these run a method [m] on [o] and know the object
    the method leaves, which is [left_by m o log].  [on] goes on with the
    value read and [o] itself; [with_object], in [subtract], with the
    negated deep copy. *)
Definition left_by {A} (m : M A) (o : AudioSignal) (log : list string) : AudioSignal :=
  self (snd (m (mk_world o log))).

Lemma with_object_left_by {A} (o : AudioSignal) (m : M A) w :
  forall p w', with_object o m w = (inr p, w') -> snd p = left_by m o (warned w).
Proof.
  intros p w'. unfold with_object, left_by.
  destruct (m (mk_world o (warned w))) as [[e | a] w2]; [discriminate |].
  now intros [= <- _].
Qed.

Lemma left_by_reads {A} (m : M A) o log : reads m -> left_by m o log = o.
Proof. intros Hm. unfold left_by. now rewrite (Hm (mk_world o log)). Qed.


Definition two_samples : AudioSignal := signal_of (float_array [1; 2]%nat [5; 6]%float).

(** Four samples of dtype [int64]. *)
Definition int_samples : array := IntArr (mk_ndarray [1; 4]%nat [1; 2; 3; 4]).
Definition int4 : AudioSignal := signal_of int_samples.

Lemma int4_holds : holds_full int4 int_samples 1 4.
Proof. repeat split. Qed.



Definition huge : AudioSignal := signal_of (float_array [1; 1]%nat [0x1p+1023]%float).

(** Two further ways the unamended claim fails.  A sum that overflows
    binary64 is rejected by the setter of the new object; and [subtract]
    accepts an operand of two channels and one sample for a receiver of one
    channel and two samples, because negating the copy transposes it. *)
Lemma add_rejects_overflow_and_subtract_transposes :
  fst (add huge (mk_world huge [])) = inl (ValueError Msg.not_finite) /\
  eval num_channels two_samples = inr (Some 1) /\
  eval num_channels (self (snd (set_active_region 0 1 (mk_world stereo4 [])))) =
  inr (Some 2) /\
  option_map _audio_data
    (match fst (subtract (self (snd (set_active_region 0 1 (mk_world stereo4 []))))
                  (mk_world two_samples []))
     with inr o => Some o | inl _ => None end) =
  Some (Some (float_array [1; 2]%nat [4; 1]%float)).
Proof. repeat split. Qed.

(** ** C5: [apply_mask] *)

(** The elementwise product of a time-frequency array and a mask of its
    shape. *)
Definition masked (t : ndarray complex) (m : MaskBase) : ndarray complex :=
  mk_ndarray (shape t) (zip_with cmul (flat t) (flat (mask m))).

Lemma shape_eqb_true s1 s2 : shape_eqb s1 s2 = true <-> s1 = s2.
Proof. unfold shape_eqb. destruct (list_eq_dec Nat.eq_dec s1 s2); split; congruence. Qed.

Lemma stft_data_setter_keeps v w :
  ndim v = 0%nat \/ ndim v = 3%nat ->
  stft_data_setter (PyNdarray v) w =
  (inr tt, mk_world (with_stft_data (Some v) (self w)) (warned w)).
Proof.
  intros H. cbn [stft_data_setter].
  destruct H as [H | H]; rewrite H; cbn [Nat.eqb]; exec; rewrite H; reflexivity.
Qed.

Lemma make_copy_with_stft_data_quiet t w :
  snd (make_copy_with_stft_data t false w) = w.
Proof.
  unfold make_copy_with_stft_data, with_object. exec. cbn [stft_data_setter]. exec.
  destruct (ndim t =? 1)%nat; exec; [now destruct w |].
  destruct (3 <? ndim (if (ndim t =? 2)%nat then np.expand_dims t STFT_CHAN_INDEX else t))%nat;
    exec; now destruct w.
Qed.

Lemma apply_mask_reads_only mo w : snd (apply_mask mo w) = w.
Proof.
  destruct mo as [m |]; cbn [apply_mask]; [| reflexivity]. unfold stft_data. exec.
  destruct (_stft_data (self w)) as [t |]; exec; [| reflexivity].
  destruct (shape_eqb (mask_shape m) (shape t)); exec; [| reflexivity].
  destruct (broadcast2 cmul t (mask m)); [| reflexivity].
  apply make_copy_with_stft_data_quiet.
Qed.

(** C5.  [apply_mask] never changes the object it is called on.  A mask
    whose shape differs from that of the stored time-frequency array raises
    the shape error.  A mask of the same shape, on an array as the
    [stft_data] setter stores it (rank 3, or rank 0), returns a copy of the
    object whose [stft_data] is the elementwise product and whose
    [audio_data] is [None]. *)
Theorem apply_mask_multiplies_elementwise :
  forall s log,
    (forall mo, snd (apply_mask mo (mk_world s log)) = mk_world s log) /\
    (forall m t,
        _stft_data s = Some t -> mask_shape m <> shape t ->
        apply_mask (Some m) (mk_world s log) =
        (inl (ValueError Msg.mask_shape), mk_world s log)) /\
    (forall m t,
        _stft_data s = Some t -> mask_shape m = shape t ->
        ndim t = 0%nat \/ ndim t = 3%nat ->
        apply_mask (Some m) (mk_world s log) =
        (inr (with_audio_data None (with_stft_data (Some (masked t m)) s)),
         mk_world s log)).
Proof.
  intros s log. split; [| split].
  - intros mo. apply apply_mask_reads_only.
  - intros m t Ht Hne. cbn [apply_mask]. unfold stft_data. exec. rewrite Ht. exec.
    destruct (shape_eqb (mask_shape m) (shape t)) eqn:E; [| reflexivity].
    apply shape_eqb_true in E. contradiction.
  - intros m t Ht He Hrank. cbn [apply_mask]. unfold stft_data. exec. rewrite Ht. exec.
    rewrite (proj2 (shape_eqb_true _ _) He). exec.
    unfold broadcast2. unfold mask_shape in He.
    rewrite (proj2 (shape_eqb_true (shape t) (shape (mask m))) (eq_sym He)).
    fold (masked t m).
    unfold make_copy_with_stft_data, with_object. exec.
    rewrite (stft_data_setter_keeps (masked t m) _ Hrank). reflexivity.
Qed.

Definition cx (r i : float) : complex := mk_complex r i.

(** Two bins, one frame, one channel. *)
Definition small_stft : ndarray complex :=
  mk_ndarray [2; 1; 1]%nat [cx 1 2; cx 3 4]%float.

Definition stft_signal : AudioSignal :=
  self (snd (stft_data_setter (PyNdarray small_stft) (mk_world mono4 []))).

Definition half_mask : MaskBase :=
  mk_MaskBase (mk_ndarray [2; 1; 1]%nat [cx 0.5 0; cx 0 1]%float).

Definition short_mask : MaskBase :=
  mk_MaskBase (mk_ndarray [1; 1; 1]%nat [cx 0.5 0]%float).

Lemma apply_mask_multiplies_elementwise_witness :
  apply_mask (Some short_mask) (mk_world stft_signal []) =
  (inl (ValueError Msg.mask_shape), mk_world stft_signal []) /\
  apply_mask (Some half_mask) (mk_world stft_signal []) =
  (inr (with_audio_data None
          (with_stft_data
             (Some (mk_ndarray [2; 1; 1]%nat [cx 0.5 1; cx (-4) 3]%float)) stft_signal)),
   mk_world stft_signal []).
Proof.
  destruct (apply_mask_multiplies_elementwise stft_signal []) as (_ & Hbad & Hok).
  split.
  - apply (Hbad short_mask small_stft eq_refl). discriminate.
  - exact (Hok half_mask small_stft eq_refl eq_refl (or_intror eq_refl)).
Defined.

(** ** C9: integer export *)

(** The conversion as the spec words it: the samples times
    [2^(bitDepth-1)], cast to signed integers of [bitDepth] bits. *)
Definition spec_audio_data_as_ints (bit_depth : Z) : M (ndarray Z) :=
  raise_if (negb (existsb (Z.eqb bit_depth) [8; 16; 24; 32])) (TypeError Msg.bit_depth) ;;
  a <- audio_data ;;
  match a with
  | None => raise (TypeError Msg.none_operand)
  | Some a' =>
      match np.multiply a' (py_pow2 (bit_depth - 1)) with
      | None => raise (TypeError Msg.numpy_object_array)
      | Some scaled => ret (np.astype_int bit_depth scaled)
      end
  end.

Definition half_and_quarter : AudioSignal :=
  signal_of (float_array [1; 2]%nat [0.5; -0.25]%float).

(** C9 fails on the code.  The scale is [2^(DEFAULT_BIT_DEPTH-1)] whatever
    [bit_depth] is: with the default depth 16, samples [0.5 -0.25] at depth
    32 come back as [16384 -8192] where the claim gives [2^30 -2^29]; and
    depth 24 raises, numpy having no [int24].  Whatever the default depth
    among 8, 16, 24 and 32, some accepted depth gives another result than
    the claim's.  Depths outside the four raise, as claimed. *)
Theorem audio_data_as_ints_scales_by_default_depth :
  fst (audio_data_as_ints 16 32 (mk_world half_and_quarter [])) =
  inr (mk_ndarray [1; 2]%nat [16384; -8192]) /\
  fst (spec_audio_data_as_ints 32 (mk_world half_and_quarter [])) =
  inr (mk_ndarray [1; 2]%nat [2 ^ 30; - 2 ^ 29]) /\
  fst (audio_data_as_ints 16 24 (mk_world half_and_quarter [])) =
  inl (TypeError Msg.numpy_dtype) /\
  fst (audio_data_as_ints 8 32 (mk_world half_and_quarter [])) <>
  fst (spec_audio_data_as_ints 32 (mk_world half_and_quarter [])) /\
  fst (audio_data_as_ints 24 32 (mk_world half_and_quarter [])) <>
  fst (spec_audio_data_as_ints 32 (mk_world half_and_quarter [])) /\
  fst (audio_data_as_ints 32 8 (mk_world half_and_quarter [])) <>
  fst (spec_audio_data_as_ints 8 (mk_world half_and_quarter [])) /\
  fst (audio_data_as_ints 16 12 (mk_world half_and_quarter [])) =
  inl (TypeError Msg.bit_depth).
Proof.
  refine (conj _ (conj _ (conj _ (conj _ (conj _ (conj _ _)))))).
  - vm_compute. reflexivity.
  - vm_compute. reflexivity.
  - vm_compute. reflexivity.
  - vm_compute. congruence.
  - vm_compute. congruence.
  - vm_compute. congruence.
  - vm_compute. reflexivity.
Qed.

(** Any bit depth outside 8, 16, 24 and 32 is a TypeError, and nothing is
    touched. *)
Lemma audio_data_as_ints_rejects_other_depths D b w :
  existsb (Z.eqb b) [8; 16; 24; 32] = false ->
  audio_data_as_ints D b w = (inl (TypeError Msg.bit_depth), w).
Proof.
  intros Hb. unfold audio_data_as_ints. exec. rewrite Hb. reflexivity.
Qed.

(** ** C7: [peak_normalize] *)

Definition int_signal : AudioSignal :=
  signal_of (IntArr (mk_ndarray [1; 3]%nat [0; 1; -1])).

(** The dtype of the stored samples is a float dtype. *)
Definition stored_as_float (s : AudioSignal) : bool :=
  match _audio_data s with
  | Some a => is_float_dtype a
  | None => false
  end.

(** C7 fails on the code in its last part: integer samples whose peak is
    at most 1 are returned from without conversion, so they stay integers,
    though the docstring of [peak_normalize] announces the conversion. *)
Theorem peak_normalize_keeps_integer_samples :
  peak_normalize true (mk_world int_signal []) = (inr None, mk_world int_signal []) /\
  stored_as_float int_signal = false /\
  stored_as_float (self (snd (peak_normalize true (mk_world int_signal [])))) = false.
Proof. repeat split. Qed.

(** A peak of at most 1 leaves the object alone, whatever the samples. *)
Theorem peak_normalize_within_range_unchanged :
  forall s log overwrite a peak,
    views s a -> np.max (np.abs a) = Some peak -> exceeds_one peak = false ->
    peak_normalize overwrite (mk_world s log) = (inr None, mk_world s log).
Proof.
  intros s log ow a peak Hv Hm He. unfold peak_normalize.
  erewrite bind_ok by (rewrite (reads_audio_data _); cbn [self]; rewrite Hv; reflexivity).
  cbn beta iota. rewrite Hm, He. reflexivity.
Qed.

(** A peak above 1 stores the samples, as floats, divided by the peak. *)
Theorem peak_normalize_above_range_divides :
  forall s log a c n peak,
    views s a -> arr_shape a = [c; n] -> (c <= n)%nat ->
    np.max (np.abs a) = Some peak -> exceeds_one peak = true ->
    forallb is_finite (flat (np.divide (np.astype_float a) peak)) = true ->
    peak_normalize true (mk_world s log) =
    (inr (Some (FloatArr (np.divide (np.astype_float a) peak))),
     mk_world (with_samples (FloatArr (np.divide (np.astype_float a) peak)) n s) log).
Proof.
  intros s log a c n peak Hv Hs Hle Hm He Hfin. unfold peak_normalize.
  erewrite bind_ok by (rewrite (reads_audio_data _); cbn [self]; rewrite Hv; reflexivity).
  cbn beta iota. rewrite Hm, He.
  erewrite bind_ok; [reflexivity |].
  apply (audio_data_setter_rank2 (FloatArr (np.divide (np.astype_float a) peak)) c n);
    [exact Hfin | | exact Hle].
  destruct a; exact Hs.
Qed.

(** ** C6: the length of the inverse transform's result *)

Lemma forallb_skipn {A} (f : A -> bool) (n : nat) (l : list A) :
  forallb f l = true -> forallb f (skipn n l) = true.
Proof.
  revert n. induction l as [| x l IH]; intros [| n] H; cbn in *; auto.
  apply andb_true_iff in H as [_ Hl]. now apply IH.
Qed.

Lemma forallb_flat_map_chunks {A} (f : A -> bool) (g : list A -> list A) n k (l : list A) :
  (forall blk, forallb f blk = true -> forallb f (g blk) = true) ->
  forallb f l = true ->
  forallb f (flat_map g (chunks n k l)) = true.
Proof.
  intros Hg. revert l. induction n as [| n IH]; intros l Hl; cbn [chunks flat_map].
  - reflexivity.
  - rewrite forallb_app, IH by (now apply forallb_skipn).
    rewrite Hg by (now apply forallb_firstn). reflexivity.
Qed.

Lemma slice_axis_finite (x : ndarray float) axis i j r :
  forallb is_finite (flat x) = true ->
  np.slice_axis x axis i j = Some r ->
  forallb is_finite (flat r) = true.
Proof.
  intros Hf. unfold np.slice_axis, np.blocks.
  destruct (nth_error (shape x) axis) as [dk |]; [| discriminate].
  intros [= <-]. cbn [flat]. apply forallb_flat_map_chunks; [| exact Hf].
  intros blk Hb. now apply forallb_firstn, forallb_skipn.
Qed.

(** A finite array of rank 2 is always accepted by the setter. *)
Lemma audio_data_setter_accepts v w :
  np.isfinite_all v = true -> arr_ndim v = 2%nat ->
  exists w', audio_data_setter (PyNdarray v) w = (inr tt, w') /\
             _audio_data (self w') = Some (normalized v).
Proof.
  intros Hf Hr.
  rewrite audio_data_setter_stores by (rewrite ?Hr; auto).
  set (w0 := mk_world _ _).
  assert (Hn : arr_ndim (normalized v) = 2%nat).
  { unfold normalized. destruct (transposes v).
    - unfold arr_ndim in *. rewrite arr_shape_transpose, length_rev, Hr. cbn.
      now rewrite arr_shape_transpose, length_rev.
    - now rewrite Hr. }
  destruct (nth_error (arr_shape (normalized v)) LEN_INDEX) as [d |] eqn:Hd.
  - eexists. split.
    + apply (set_active_region_to_default_some w0 (normalized v) d eq_refl Hd).
    + reflexivity.
  - apply nth_error_None in Hd. unfold arr_ndim, LEN_INDEX in *. lia.
Qed.

(** What [istft] truncates to: the argument when given, else the current
    signal length when there is one. *)
Definition truncation_target (truncate_to_length known_length : option Z) : option Z :=
  match truncate_to_length with
  | Some n => Some n
  | None => known_length
  end.

(** The number of samples per channel [istft] returns for a reconstruction
    of [natural] samples. *)
Definition returned_length (natural : nat) (target : option Z) : nat :=
  match target with
  | Some n => if 0 <? n then Z.to_nat (Z.min n (Z.of_nat natural)) else natural
  | None => natural
  end.

(** The same as the spec words it: exactly the target, by truncation or
    zero-padding. *)
Definition spec_returned_length (natural : nat) (target : option Z) : nat :=
  match target with
  | Some n => Z.to_nat n
  | None => natural
  end.

(** The time-domain side of [s] against an STFT of [c] channels: no
    samples, and [num_channels] reads the [c] channels of the STFT; or [k]
    channels of [len] samples in view, and [num_channels] reads [k]. *)
Definition time_domain (s : AudioSignal) (c k : nat) (known_length : option Z) : Prop :=
  (_audio_data s = None /\ k = c /\ known_length = None) \/
  (exists a len, views s a /\ arr_shape a = [k; len] /\ known_length = Some (Z.of_nat len)).

Lemma for_collect_reads_map {A B} (l : list A) (g : A -> M B) (h : A -> B) w :
  (forall x, In x l -> g x w = (inr (h x), w)) ->
  for_collect l g w = (inr (map h l), w).
Proof.
  induction l as [| x l IH]; intros H; cbn [for_collect map]; [reflexivity |].
  erewrite bind_ok by (apply H; now left).
  erewrite bind_ok by (apply IH; intros y Hy; apply H; now right).
  reflexivity.
Qed.

Lemma reads_run {A} (m : M A) w r :
  reads m -> eval m (self w) = r -> m w = (r, w).
Proof. intros Hm <-. apply Hm. Qed.

Lemma eval_audio_data_none s : _audio_data s = None -> eval audio_data s = inr None.
Proof. intros H. unfold eval, audio_data. exec. now rewrite H. Qed.

Lemma eval_num_channels_both s t bins frames c k known :
  _stft_data s = Some t -> shape t = [bins; frames; c] -> time_domain s c k known ->
  eval num_channels s = inr (Some (Z.of_nat k)).
Proof.
  intros Ht Hs [(Ha & -> & _) | (a & len & Hv & Hsh & _)].
  - unfold num_channels.
    rewrite eval_bind, (eval_audio_data_none s Ha) by apply reads_audio_data.
    unfold eval, stft_data. exec. rewrite Ht, Hs. reflexivity.
  - exact (eval_num_channels_view s a k len Hv Hsh).
Qed.

Lemma eval_signal_length_both s c k known :
  time_domain s c k known -> eval signal_length s = inr known.
Proof.
  intros [(Ha & _ & ->) | (a & len & Hv & Hsh & ->)].
  - unfold signal_length.
    rewrite eval_bind, (eval_audio_data_none s Ha) by apply reads_audio_data.
    reflexivity.
  - exact (eval_signal_length_view s a k len Hv Hsh).
Qed.

Lemma take_axis_in_bounds {A} (t : ndarray A) axis dk i :
  nth_error (shape t) axis = Some dk -> (i < dk)%nat ->
  exists ch, np.take_axis t axis i = Some ch.
Proof.
  intros Hn Hi. unfold np.take_axis. rewrite Hn.
  apply Nat.ltb_lt in Hi. rewrite Hi. eauto.
Qed.

Lemma eval_get_stft_channel s t bins frames c i ch :
  _stft_data s = Some t -> shape t = [bins; frames; c] ->
  eval num_channels s = inr (Some (Z.of_nat c)) -> (i < c)%nat ->
  np.take_axis t STFT_CHAN_INDEX i = Some ch ->
  eval (get_stft_channel (Z.of_nat i)) s = inr ch.
Proof.
  intros Ht Hs Hc Hi Hch. unfold get_stft_channel, _verify_get_channel.
  rewrite eval_bind by (apply reads__verify_get_channel).
  fold (_verify_get_channel (Z.of_nat i)).
  assert (Hv : eval (_verify_get_channel (Z.of_nat i)) s = inr tt).
  { unfold _verify_get_channel.
    rewrite eval_bind, Hc by apply reads_num_channels.
    cbn [py_ge].
    replace (Z.of_nat c <=? Z.of_nat i) with false by (symmetry; apply Z.leb_gt; lia).
    replace (Z.of_nat i <? 0) with false by (symmetry; apply Z.ltb_ge; lia).
    reflexivity. }
  rewrite Hv. unfold eval, stft_data, _get_axis. exec.
  rewrite Ht, Nat2Z.id, Hch. reflexivity.
Qed.

(** [get_stft_channel(i)] when [num_channels] reads [k]: the check is
    against [k], the index into the STFT against its own extent. *)
Lemma eval_verify_get_channel s k i :
  eval num_channels s = inr (Some (Z.of_nat k)) -> (i < k)%nat ->
  eval (_verify_get_channel (Z.of_nat i)) s = inr tt.
Proof.
  intros Hc Hi. unfold _verify_get_channel.
  rewrite eval_bind, Hc by apply reads_num_channels.
  cbn [py_ge].
  replace (Z.of_nat k <=? Z.of_nat i) with false by (symmetry; apply Z.leb_gt; lia).
  replace (Z.of_nat i <? 0) with false by (symmetry; apply Z.ltb_ge; lia).
  reflexivity.
Qed.

Lemma eval_get_stft_channel_of s t k i ch :
  _stft_data s = Some t ->
  eval num_channels s = inr (Some (Z.of_nat k)) -> (i < k)%nat ->
  np.take_axis t STFT_CHAN_INDEX i = Some ch ->
  eval (get_stft_channel (Z.of_nat i)) s = inr ch.
Proof.
  intros Ht Hc Hi Hch. unfold get_stft_channel.
  rewrite eval_bind by (apply reads__verify_get_channel).
  rewrite (eval_verify_get_channel s k i Hc Hi). unfold eval, stft_data, _get_axis. exec.
  rewrite Ht, Nat2Z.id, Hch. reflexivity.
Qed.

Lemma eval_get_stft_channel_beyond s t bins frames c k :
  _stft_data s = Some t -> shape t = [bins; frames; c] ->
  eval num_channels s = inr (Some (Z.of_nat k)) -> (c < k)%nat ->
  eval (get_stft_channel (Z.of_nat c)) s = inl (IndexError Msg.index_out_of_bounds).
Proof.
  intros Ht Hs Hc Hi. unfold get_stft_channel.
  rewrite eval_bind by (apply reads__verify_get_channel).
  rewrite (eval_verify_get_channel s k c Hc Hi). unfold eval, stft_data, _get_axis. exec.
  rewrite Ht, Nat2Z.id. unfold np.take_axis. rewrite Hs.
  cbn [nth_error STFT_CHAN_INDEX]. now rewrite Nat.ltb_irrefl.
Qed.

(** A comprehension stops at the first element that raises. *)
Lemma for_collect_reads_raise {A B} (l1 : list A) (x : A) (l2 : list A)
      (g : A -> M B) (h : A -> B) e w :
  (forall y, In y l1 -> g y w = (inr (h y), w)) -> g x w = (inl e, w) ->
  for_collect (l1 ++ x :: l2) g w = (inl e, w).
Proof.
  intros H Hx. induction l1 as [| y l1 IH]; cbn [app for_collect].
  - erewrite bind_err; [reflexivity | exact Hx].
  - erewrite bind_ok by (apply H; now left).
    erewrite bind_err; [reflexivity |]. apply IH. intros z Hz. apply H. now right.
Qed.

Lemma stack_uniform (n : nat) (l : list (ndarray float)) :
  l <> [] -> (forall a, In a l -> shape a = [n]) ->
  np.stack l = Some (mk_ndarray [List.length l; n] (flat_map (@flat float) l)).
Proof.
  intros Hne Hall. destruct l as [| a0 l']; [congruence |].
  unfold np.stack.
  assert (H0 : shape a0 = [n]) by (apply Hall; now left).
  replace (forallb _ (a0 :: l')) with true; [now rewrite H0 |].
  symmetry. apply forallb_forall. intros a Ha.
  apply shape_eqb_true. rewrite H0. now apply Hall.
Qed.

Lemma forallb_flat_map_in {A B} (f : B -> bool) (g : A -> list B) (l : list A) :
  (forall x, In x l -> forallb f (g x) = true) ->
  forallb f (flat_map g l) = true.
Proof.
  induction l as [| x l IH]; intros H; cbn [flat_map]; [reflexivity |].
  rewrite forallb_app, H by (now left).
  apply IH. intros y Hy. apply H. now right.
Qed.

Definition or_default {A} (o : option A) (d : A) : A :=
  match o with
  | None => d
  | Some x => x
  end.

(** The per-channel inverse transform [f] turns channel [i] of [t] into
    the [natural] finite samples [rec i]. *)
Definition reconstructs
           (f : bool -> ndarray complex -> Z -> Z -> string -> result (ndarray float))
           (use_librosa : bool) (wl hl : Z) (wt : string)
           (t : ndarray complex) (c natural : nat) (rec : nat -> list float) : Prop :=
  forall i ch, (i < c)%nat -> np.take_axis t STFT_CHAN_INDEX i = Some ch ->
    f use_librosa ch wl hl wt = inr (mk_ndarray [natural] (rec i)) /\
    List.length (rec i) = natural /\
    forallb is_finite (rec i) = true.

(** The reconstruction [_do_istft] assembles: one row per channel. *)
Definition reconstruction (c natural : nat) (rec : nat -> list float) : ndarray float :=
  mk_ndarray [c; natural] (flat_map rec (seq 0 c)).

Lemma do_istft_start f ul wl hl wt s log t k :
  _stft_data s = Some t -> size t <> 0%nat ->
  eval num_channels s = inr (Some (Z.of_nat k)) ->
  _do_istft f wl hl wt ul (mk_world s log) =
  (signals <- for_collect (range (Z.of_nat k)) (fun i =>
                stft <- get_stft_channel i ;;
                call (f ul stft wl hl wt)) ;;
   match np.stack signals with
   | Some r => ret (FloatArr r)
   | None => raise (ValueError Msg.numpy_ragged)
   end) (mk_world s log).
Proof.
  intros Ht Hsz Hc. unfold _do_istft.
  erewrite bind_ok by (apply reads_run; [apply reads_stft_data | reflexivity]).
  cbn [self]. rewrite Ht.
  apply Nat.eqb_neq in Hsz. rewrite Hsz.
  erewrite bind_ok by reflexivity.
  erewrite bind_ok.
  2:{ apply reads_run; [apply reads_channel_range |].
      cbn [self]. unfold channel_range.
      rewrite eval_bind, Hc by apply reads_num_channels.
      reflexivity. }
  reflexivity.
Qed.

Lemma reconstructs_channel f ul wl hl wt s log t bins frames c k natural rec i :
  _stft_data s = Some t -> shape t = [bins; frames; c] ->
  eval num_channels s = inr (Some (Z.of_nat k)) ->
  reconstructs f ul wl hl wt t (Nat.min k c) natural rec ->
  (i < Nat.min k c)%nat ->
  (stft <- get_stft_channel (Z.of_nat i) ;; call (f ul stft wl hl wt)) (mk_world s log) =
  (inr (mk_ndarray [natural] (rec i)), mk_world s log).
Proof.
  intros Ht Hs Hc Hrec Hi.
  destruct (take_axis_in_bounds t STFT_CHAN_INDEX c i) as [ch Hch];
    [now rewrite Hs | lia |].
  erewrite bind_ok.
  2:{ apply reads_run; [apply reads_get_stft_channel |].
      cbn [self]. apply (eval_get_stft_channel_of s t k i ch); auto; lia. }
  destruct (Hrec i ch Hi Hch) as [-> _]. reflexivity.
Qed.

Lemma do_istft_run f ul wl hl wt s log t bins frames c k natural known rec :
  _stft_data s = Some t -> shape t = [bins; frames; c] -> size t <> 0%nat ->
  time_domain s c k known -> (1 <= k <= c)%nat ->
  reconstructs f ul wl hl wt t (Nat.min k c) natural rec ->
  _do_istft f wl hl wt ul (mk_world s log) =
  (inr (FloatArr (reconstruction k natural rec)), mk_world s log).
Proof.
  intros Ht Hs Hsz Htd Hk Hrec.
  pose proof (eval_num_channels_both s t bins frames c k known Ht Hs Htd) as Hc.
  rewrite (do_istft_start f ul wl hl wt s log t k Ht Hsz Hc).
  erewrite bind_ok.
  2:{ apply (for_collect_reads_map _ _
               (fun i => mk_ndarray [natural] (rec (Z.to_nat i)))).
      intros x Hx. unfold range in Hx. rewrite Nat2Z.id in Hx.
      apply in_map_iff in Hx as (i & <- & Hi). apply in_seq in Hi.
      rewrite Nat2Z.id.
      apply (reconstructs_channel f ul wl hl wt s log t bins frames c k natural rec i);
        auto; lia. }
  rewrite (stack_uniform natural).
  - unfold reconstruction, range. rewrite Nat2Z.id, !length_map, length_seq.
    rewrite !flat_map_concat_map, !map_map. cbn [flat].
    erewrite map_ext by (intros i; rewrite Nat2Z.id; reflexivity).
    reflexivity.
  - unfold range. rewrite Nat2Z.id. destruct k; [lia | discriminate].
  - intros a Ha. apply in_map_iff in Ha as (x & <- & _). reflexivity.
Qed.

(** With more channels in the samples than in the STFT, the loop runs
    past the last channel of the STFT. *)
Lemma do_istft_overrun f ul wl hl wt s log t bins frames c k natural known rec :
  _stft_data s = Some t -> shape t = [bins; frames; c] -> size t <> 0%nat ->
  time_domain s c k known -> (c < k)%nat ->
  reconstructs f ul wl hl wt t (Nat.min k c) natural rec ->
  _do_istft f wl hl wt ul (mk_world s log) =
  (inl (IndexError Msg.index_out_of_bounds), mk_world s log).
Proof.
  intros Ht Hs Hsz Htd Hk Hrec.
  pose proof (eval_num_channels_both s t bins frames c k known Ht Hs Htd) as Hc.
  rewrite (do_istft_start f ul wl hl wt s log t k Ht Hsz Hc).
  erewrite bind_err; [reflexivity |].
  unfold range. rewrite Nat2Z.id.
  replace k with (c + S (k - c - 1))%nat by lia.
  rewrite seq_app, map_app. cbn [seq map Nat.add].
  apply (for_collect_reads_raise _ _ _ _
           (fun i => mk_ndarray [natural] (rec (Z.to_nat i)))).
  - intros x Hx. apply in_map_iff in Hx as (i & <- & Hi). apply in_seq in Hi.
    rewrite Nat2Z.id.
    apply (reconstructs_channel f ul wl hl wt s log t bins frames c
             (c + S (k - c - 1)) natural rec i); auto.
    + now replace (c + S (k - c - 1))%nat with k by lia.
    + now replace (c + S (k - c - 1))%nat with k by lia.
    + lia.
  - erewrite bind_err; [reflexivity |].
    apply reads_run; [apply reads_get_stft_channel |]. cbn [self].
    apply (eval_get_stft_channel_beyond s t bins frames c k); auto.
Qed.

(** The first [len] samples of every row. *)
Definition truncated_rows (c len : nat) (rec : nat -> list float) : ndarray float :=
  mk_ndarray [c; len] (flat_map (fun i => firstn len (rec i)) (seq 0 c)).

Lemma chunks_rows {A} (rec : nat -> list A) (k a c : nat) :
  (forall i, (a <= i < a + c)%nat -> List.length (rec i) = k) ->
  chunks c k (flat_map rec (seq a c)) = map rec (seq a c).
Proof.
  revert a. induction c as [| c IH]; intros a H; cbn [seq flat_map chunks map].
  - reflexivity.
  - assert (Ha : List.length (rec a) = k) by (apply H; lia).
    rewrite firstn_app, skipn_app, Ha, Nat.sub_diag.
    rewrite firstn_all2, skipn_all2 by lia. cbn [firstn skipn app].
    rewrite app_nil_r, IH by (intros i Hi; apply H; lia). reflexivity.
Qed.

Lemma reconstruction_untruncated c natural rec :
  (forall i, (i < c)%nat -> List.length (rec i) = natural) ->
  reconstruction c natural rec = truncated_rows c natural rec.
Proof.
  intros H. unfold reconstruction, truncated_rows. f_equal.
  rewrite !flat_map_concat_map. f_equal. apply map_ext_in.
  intros i Hi. apply in_seq in Hi. rewrite firstn_all2; [reflexivity |].
  rewrite H; lia.
Qed.

Lemma slice_reconstruction c natural rec n :
  0 < n -> (forall i, (i < c)%nat -> List.length (rec i) = natural) ->
  np.slice_axis (reconstruction c natural rec) LEN_INDEX 0 n =
  Some (truncated_rows c (Z.to_nat (Z.min n (Z.of_nat natural))) rec).
Proof.
  intros Hn Hlen.
  unfold np.slice_axis, np.blocks, np.outer, np.inner, reconstruction, LEN_INDEX.
  cbn [shape flat nth_error firstn skipn size_of fold_right app].
  assert (Hb0 : slice_bound natural 0 = 0%nat) by (unfold slice_bound; cbn; lia).
  assert (Hb1 : slice_bound natural n = Z.to_nat (Z.min n (Z.of_nat natural))).
  { unfold slice_bound. destruct (n <? 0) eqn:E; [lia | reflexivity]. }
  rewrite Hb0, Hb1, Nat.sub_0_r, !Nat.mul_1_r. cbn [Nat.mul skipn].
  rewrite chunks_rows by (intros i Hi; apply Hlen; lia).
  unfold truncated_rows. f_equal. f_equal.
  rewrite !flat_map_concat_map, map_map. reflexivity.
Qed.

Lemma truncated_rows_finite c len rec :
  (forall i, (i < c)%nat -> forallb is_finite (rec i) = true) ->
  forallb is_finite (flat (truncated_rows c len rec)) = true.
Proof.
  intros H. cbn [truncated_rows flat]. apply forallb_flat_map_in.
  intros i Hi. apply in_seq in Hi. apply forallb_firstn, H. lia.
Qed.

Lemma returned_length_le natural target :
  (returned_length natural target <= natural)%nat.
Proof.
  unfold returned_length. destruct target as [n |]; [| lia].
  destruct (0 <? n); lia.
Qed.

(** The truncation step of [istft]. *)
Lemma truncation_run c natural rec target w :
  (forall i, (i < c)%nat -> List.length (rec i) = natural) ->
  match target with
  | Some n => if 0 <? n then slice_samples (FloatArr (reconstruction c natural rec)) 0 n
              else ret (FloatArr (reconstruction c natural rec))
  | None => ret (FloatArr (reconstruction c natural rec))
  end w =
  (inr (FloatArr (truncated_rows c (returned_length natural target) rec)), w).
Proof.
  intros Hlen. unfold returned_length.
  destruct target as [n |];
    [destruct (0 <? n) eqn:E |];
    rewrite ?(reconstruction_untruncated c natural rec Hlen); try reflexivity.
  apply Z.ltb_lt in E. unfold slice_samples, lift_opt.
  rewrite <- (reconstruction_untruncated c natural rec Hlen).
  rewrite (slice_reconstruction c natural rec n E Hlen). reflexivity.
Qed.

(** The storing step of [istft]: the result replaces the samples when
    [overwrite] is set or there are none. *)
Lemma store_run (r : array) (overwrite : bool) s log (stored : option array) :
  np.isfinite_all r = true -> arr_ndim r = 2%nat ->
  eval audio_data s = inr stored ->
  exists w',
    (store <- (if overwrite then ret true
               else a <- audio_data ;;
                    ret (match a with None => true | Some _ => false end)) ;;
     (if store then audio_data_setter (PyNdarray r) else ret tt) ;;
     ret r) (mk_world s log) = (inr r, w') /\
    (overwrite = true \/ stored = None -> _audio_data (self w') = Some (normalized r)) /\
    (overwrite = false -> stored <> None -> w' = mk_world s log).
Proof.
  intros Hf Hr Hst.
  destruct (audio_data_setter_accepts r (mk_world s log) Hf Hr) as (w' & Hset & Hkept).
  assert (Hstore : (if overwrite then ret true
                    else a <- audio_data ;;
                         ret (match a with None => true | Some _ => false end))
                     (mk_world s log) =
                   (inr (if overwrite then true
                         else match stored with None => true | Some _ => false end),
                    mk_world s log)).
  { destruct overwrite; [reflexivity |].
    erewrite bind_ok by (apply reads_run; [apply reads_audio_data | exact Hst]).
    reflexivity. }
  erewrite bind_ok by exact Hstore.
  destruct overwrite; [| destruct stored as [a |]].
  - exists w'. erewrite bind_ok by exact Hset.
    split; [reflexivity | split; [auto | discriminate]].
  - exists (mk_world s log). erewrite bind_ok by reflexivity.
    split; [reflexivity | split; [intros [H | H]; discriminate | reflexivity]].
  - exists w'. erewrite bind_ok by exact Hset.
    split; [reflexivity | split; [auto | congruence]].
Qed.

Lemma time_domain_stored s c k known :
  time_domain s c k known ->
  exists stored, eval audio_data s = inr stored /\
                 (stored = None <-> _audio_data s = None).
Proof.
  intros [(Ha & _) | (a & len & Hv & _)].
  - exists None. split; [now apply eval_audio_data_none | tauto].
  - exists (Some a). split; [exact Hv | split; [discriminate |]].
    intros Ha. unfold views in Hv. rewrite (eval_audio_data_none s Ha) in Hv. discriminate.
Qed.

(** The first steps of [istft], down to the reconstruction. *)
Lemma istft_start f s log t wl hl wt ow ul tl :
  _stft_data s = Some t -> size t <> 0%nat ->
  istft f wl hl wt ow ul tl (mk_world s log) =
  (calculated_signal <-
     _do_istft f (or_default wl (stft_utils.window_length (stft_params s)))
               (or_default hl (stft_utils.hop_length (stft_params s)))
               (or_default wt (stft_utils.window_type (stft_params s))) ul ;;
   let shaped := if (arr_ndim calculated_signal =? 1)%nat
                 then lift (@np.expand_dims_last) calculated_signal
                 else calculated_signal in
   target <- match tl with
             | None => signal_length
             | Some n => ret (Some n)
             end ;;
   truncated <- match target with
                | Some n => if 0 <? n then slice_samples shaped 0 n else ret shaped
                | None => ret shaped
                end ;;
   store <- (if ow then ret true
             else a <- audio_data ;;
                  ret (match a with None => true | Some _ => false end)) ;;
   (if store then audio_data_setter (PyNdarray truncated) else ret tt) ;;
   ret truncated) (mk_world s log).
Proof.
  intros Ht Hsz. unfold istft.
  erewrite bind_ok by (apply reads_run; [apply reads_stft_data | reflexivity]).
  cbn [self]. rewrite Ht.
  apply Nat.eqb_neq in Hsz. rewrite Hsz.
  erewrite bind_ok by reflexivity.
  erewrite bind_ok by reflexivity.
  now destruct wl, hl, wt.
Qed.

(** The array [istft] returns when the samples have no channel: nothing
    is reconstructed, and the empty result gets a sample axis of extent 1. *)
Definition no_channel : array := FloatArr (mk_ndarray [0; 1]%nat []).

Lemma do_istft_no_channel f ul wl hl wt s log t bins frames c known :
  _stft_data s = Some t -> shape t = [bins; frames; c] -> size t <> 0%nat ->
  time_domain s c 0 known ->
  _do_istft f wl hl wt ul (mk_world s log) =
  (inr (FloatArr (mk_ndarray [0%nat] [])), mk_world s log).
Proof.
  intros Ht Hs Hsz Htd.
  pose proof (eval_num_channels_both s t bins frames c 0 known Ht Hs Htd) as Hc.
  rewrite (do_istft_start f ul wl hl wt s log t 0 Ht Hsz Hc). reflexivity.
Qed.

Lemma truncation_no_channel target w :
  match target with
  | Some n => if 0 <? n
              then slice_samples (lift (@np.expand_dims_last) (FloatArr (mk_ndarray [0%nat] [])))
                                 0 n
              else ret (lift (@np.expand_dims_last) (FloatArr (mk_ndarray [0%nat] [])))
  | None => ret (lift (@np.expand_dims_last) (FloatArr (mk_ndarray [0%nat] [])))
  end w = (inr no_channel, w).
Proof.
  destruct target as [n |]; [destruct (0 <? n) eqn:E |]; try reflexivity.
  apply Z.ltb_lt in E.
  unfold slice_samples, lift_opt, lift, np.expand_dims_last, np.expand_dims, np.slice_axis,
    no_channel, np.blocks, np.outer, np.inner, LEN_INDEX.
  cbn [ndim shape flat List.length firstn skipn app nth_error size_of fold_right chunks
       flat_map option_map].
  assert (Hb0 : slice_bound 1 0 = 0%nat) by reflexivity.
  assert (Hb1 : slice_bound 1 n = 1%nat).
  { unfold slice_bound. destruct (n <? 0) eqn:E'; lia. }
  rewrite Hb0, Hb1. reflexivity.
Qed.


Definition silence8 (i : nat) : list float := repeat 0%float 8.

(** An STFT of two channels on an object whose samples have one. *)
Definition stereo_stft : ndarray complex :=
  mk_ndarray [2; 1; 2]%nat (flat small_stft ++ flat small_stft).

Definition mono_with_stereo_stft : AudioSignal :=
  self (snd (stft_data_setter (PyNdarray stereo_stft) (mk_world mono4 []))).

Definition stereo_with_mono_stft : AudioSignal :=
  self (snd (stft_data_setter (PyNdarray small_stft) (mk_world stereo4 []))).



(** ** Instances of the supporting theorems *)

Lemma guarded_mutators_reject_narrowed_region_witness :
  rejects (concat mono4) (mk_world narrowed4 []) /\
  rejects (truncate_samples (PyInt 1)) (mk_world narrowed4 []) /\
  rejects (truncate_seconds (PyFloat 0)) (mk_world narrowed4 []) /\
  rejects (crop_signal 0 1) (mk_world narrowed4 []) /\
  rejects (zero_pad 1 1) (mk_world narrowed4 []) /\
  rejects (add mono4) (mk_world narrowed4 []) /\
  rejects (subtract mono4) (mk_world narrowed4 []).
Proof.
  apply (guarded_mutators_reject_narrowed_region
           narrowed4 [] mono4 (PyInt 1) (PyFloat 0) 0 1).
  vm_compute. reflexivity.
Defined.

Lemma peak_normalize_within_range_unchanged_witness :
  peak_normalize true (mk_world half_and_quarter []) =
  (inr None, mk_world half_and_quarter []).
Proof.
  apply (peak_normalize_within_range_unchanged half_and_quarter [] true
           (float_array [1; 2]%nat [0.5; -0.25]%float) (PyFloat 0.5)).
  - vm_compute. reflexivity.
  - vm_compute. reflexivity.
  - vm_compute. reflexivity.
Defined.

Lemma peak_normalize_above_range_divides_witness :
  peak_normalize true (mk_world mono4 []) =
  (inr (Some (FloatArr (np.divide (np.astype_float wide) (PyFloat 4)))),
   mk_world (with_samples (FloatArr (np.divide (np.astype_float wide) (PyFloat 4))) 4 mono4)
            []).
Proof.
  apply (peak_normalize_above_range_divides mono4 [] wide 1 4 (PyFloat 4)).
  - vm_compute. reflexivity.
  - reflexivity.
  - lia.
  - vm_compute. reflexivity.
  - vm_compute. reflexivity.
  - vm_compute. reflexivity.
Defined.

Lemma audio_data_as_ints_rejects_other_depths_witness :
  audio_data_as_ints 16 12 (mk_world half_and_quarter []) =
  (inl (TypeError Msg.bit_depth), mk_world half_and_quarter []).
Proof.
  apply (audio_data_as_ints_rejects_other_depths 16 12 (mk_world half_and_quarter [])).
  reflexivity.
Defined.

(** * Further properties of the methods *)

(** ** The active region as a view *)

(** Columns [i] to [j] of a 2-D array. *)
Definition columns {A} (i j : nat) (x : ndarray A) : ndarray A :=
  let c := nth CHAN_INDEX (shape x) 0%nat in
  let n := nth LEN_INDEX (shape x) 0%nat in
  mk_ndarray [c; j - i]%nat
             (flat_map (fun row => firstn (j - i) (skipn i row)) (chunks c n (flat x))).

Definition arr_columns (i j : nat) (a : array) : array :=
  lift (fun A => @columns A i j) a.

Lemma slice_axis_columns {A} (x : ndarray A) c n i j :
  shape x = [c; n] ->
  np.slice_axis x LEN_INDEX i j = Some (columns (slice_bound n i) (slice_bound n j) x).
Proof.
  intros Hs. unfold np.slice_axis, np.blocks, np.outer, np.inner, columns, LEN_INDEX, CHAN_INDEX.
  rewrite Hs. cbn [nth_error nth firstn skipn size_of fold_right app].
  rewrite !Nat.mul_1_r. reflexivity.
Qed.

Lemma slice_samples_columns a c n i j w :
  arr_shape a = [c; n] ->
  slice_samples a i j w = (inr (arr_columns (slice_bound n i) (slice_bound n j) a), w).
Proof.
  intros Hs. unfold slice_samples, lift_opt, arr_columns, lift.
  destruct a as [x | x]; cbn [arr_shape] in Hs;
    rewrite (slice_axis_columns x c n i j Hs); reflexivity.
Qed.

Lemma slice_bound_inside n i : 0 <= i <= Z.of_nat n -> slice_bound n i = Z.to_nat i.
Proof.
  intros H. unfold slice_bound. destruct (i <? 0) eqn:E; [lia |]. f_equal. lia.
Qed.

Lemma arr_shape_columns a c n i j :
  arr_shape a = [c; n] -> arr_shape (arr_columns i j a) = [c; j - i]%nat.
Proof. intros Hs. destruct a; cbn in *; now rewrite Hs. Qed.

(** What [audio_data] reads through a region [[i, j)] inside the stored
    length. *)
Lemma eval_audio_data_region s a c n i j :
  _audio_data s = Some a -> arr_shape a = [c; n] ->
  _active_start s = Some i -> _active_end s = Some j ->
  0 <= i <= Z.of_nat n -> 0 <= j <= Z.of_nat n ->
  eval audio_data s = inr (Some (arr_columns (Z.to_nat i) (Z.to_nat j) a)).
Proof.
  intros Ha Hs Hi Hj Hib Hjb. unfold eval, audio_data. exec.
  rewrite Ha. unfold shape_at. rewrite Hs. cbn [nth_error LEN_INDEX]. exec.
  rewrite Hi, Hj.
  replace (if j <? Z.of_nat n then j else Z.of_nat n) with j
    by (destruct (j <? Z.of_nat n) eqn:E; lia).
  replace (if 0 <? i then i else 0) with i by (destruct (0 <? i) eqn:E; lia).
  rewrite (slice_samples_columns a c n i j _ Hs). exec.
  now rewrite !slice_bound_inside by lia.
Qed.

Lemma with_region_default_id s a c n :
  holds_full s a c n ->
  with_active_end (Some (Z.of_nat n)) (with_active_start (Some 0) s) = s.
Proof.
  intros (_ & _ & _ & Hb & He). destruct s as [p ad sd sr st en sp ul].
  cbn in *. now subst.
Qed.

(** Narrowing the active region to [[start, stop)] keeps the stored array;
    [audio_data] then reads exactly the columns [start] to [stop] of every
    channel and [signal_length] is [stop - start]; resetting the region
    gives back the object as it was. *)
Theorem active_region_is_a_view :
  forall s a c n start stop log,
    holds_full s a c n -> 0 <= start <= stop -> stop <= Z.of_nat n ->
    exists w',
      set_active_region start stop (mk_world s log) = (inr tt, w') /\
      _audio_data (self w') = Some a /\
      eval audio_data (self w') =
      inr (Some (arr_columns (Z.to_nat start) (Z.to_nat stop) a)) /\
      eval signal_length (self w') = inr (Some (stop - start)) /\
      set_active_region_to_default w' = (inr tt, mk_world s log).
Proof.
  intros s a c n start stop log H Hord Hle.
  pose proof H as (Ha & Hs & Hw & Hb & He).
  eexists. split.
  { apply (set_active_region_some start stop (mk_world s log) a n Ha).
    now rewrite Hs. }
  cbn [self warned]. rewrite Z.max_r, Z.min_l by lia.
  set (s' := with_active_end (Some stop) (with_active_start (Some start) s)).
  assert (Hview : eval audio_data s' =
                  inr (Some (arr_columns (Z.to_nat start) (Z.to_nat stop) a))).
  { apply (eval_audio_data_region s' a c n start stop); auto; lia. }
  split; [exact Ha |]. split; [exact Hview |]. split.
  - unfold signal_length. rewrite eval_bind, Hview by apply reads_audio_data.
    unfold eval, shape_at. rewrite (arr_shape_columns a c n _ _ Hs).
    cbn [nth_error LEN_INDEX]. exec. do 2 f_equal. lia.
  - erewrite (set_active_region_to_default_some (mk_world s' log) a n);
      [| exact Ha | now rewrite Hs].
    cbn [self warned].
    replace (with_active_end (Some (Z.of_nat n)) (with_active_start (Some 0) s'))
      with (with_active_end (Some (Z.of_nat n)) (with_active_start (Some 0) s))
      by (destruct s; reflexivity).
    now rewrite (with_region_default_id s a c n H).
Qed.

Lemma active_region_is_a_view_witness :
  exists w',
    set_active_region 1 3 (mk_world mono4 []) = (inr tt, w') /\
    _audio_data (self w') = Some wide /\
    eval audio_data (self w') = inr (Some (arr_columns 1 3 wide)) /\
    eval signal_length (self w') = inr (Some (3 - 1)) /\
    set_active_region_to_default w' = (inr tt, mk_world mono4 []).
Proof.
  apply (active_region_is_a_view mono4 wide 1 4 1 3 [] mono4_holds); lia.
Defined.

(** ** Assignment to [stft_data] *)

Lemma stft_data_setter_rank2 v w d0 d1 :
  shape v = [d0; d1] ->
  stft_data_setter (PyNdarray v) w =
  (inr tt, mk_world (with_stft_data (Some (mk_ndarray [d0; d1; 1%nat] (flat v))) (self w))
                    (warned w)).
Proof.
  intros Hs. cbn [stft_data_setter]. unfold ndim, np.expand_dims, STFT_CHAN_INDEX.
  rewrite Hs. cbn [List.length Nat.eqb]. exec.
  cbn [shape List.length firstn skipn app Nat.ltb Nat.leb]. exec. reflexivity.
Qed.

(** Assigning to [stft_data]: anything but an array, an array of rank 1
    and an array of rank above 3 raise and change nothing; a rank-2 array is
    stored with a trailing channel axis of extent 1 and the same buffer; a
    rank-3 array is stored as it is, and so is a rank-0 array, which no
    check catches.  The time-domain samples and the active region are never
    touched. *)
Theorem stft_data_setter_validates :
  forall value w,
    (value = PyOther ->
     stft_data_setter value w = (inl (ValueError Msg.stft_type), w)) /\
    (forall v, value = PyNdarray v -> ndim v = 1%nat ->
     stft_data_setter value w = (inl (ValueError Msg.stft_rank_low), w)) /\
    (forall v, value = PyNdarray v -> (3 < ndim v)%nat ->
     stft_data_setter value w = (inl (ValueError Msg.stft_rank_high), w)) /\
    (forall v d0 d1, value = PyNdarray v -> shape v = [d0; d1] ->
     _stft_data (self (snd (stft_data_setter value w))) =
     Some (mk_ndarray [d0; d1; 1%nat] (flat v))) /\
    (forall v, value = PyNdarray v -> ndim v = 3%nat \/ ndim v = 0%nat ->
     _stft_data (self (snd (stft_data_setter value w))) = Some v) /\
    (value = PyNone -> _stft_data (self (snd (stft_data_setter value w))) = None) /\
    _audio_data (self (snd (stft_data_setter value w))) = _audio_data (self w) /\
    _active_start (self (snd (stft_data_setter value w))) = _active_start (self w) /\
    _active_end (self (snd (stft_data_setter value w))) = _active_end (self w).
Proof.
  intros value w.
  refine (conj _ (conj _ (conj _ (conj _ (conj _ (conj _ _)))))).
  - intros ->. reflexivity.
  - intros v -> Hr. cbn [stft_data_setter]. rewrite Hr. reflexivity.
  - intros v -> Hr. cbn [stft_data_setter].
    destruct (ndim v =? 1)%nat eqn:E1; [apply Nat.eqb_eq in E1; lia |]. exec.
    destruct (ndim v =? 2)%nat eqn:E2; [apply Nat.eqb_eq in E2; lia |].
    apply Nat.ltb_lt in Hr. rewrite Hr. destruct w. reflexivity.
  - intros v d0 d1 -> Hs. now rewrite (stft_data_setter_rank2 v w d0 d1 Hs).
  - intros v -> Hr. rewrite (stft_data_setter_keeps v w); [reflexivity | tauto].
  - intros ->. reflexivity.
  - destruct value as [| v |]; try (repeat split; reflexivity).
    cbn [stft_data_setter].
    destruct (ndim v =? 1)%nat; [repeat split; reflexivity |]. exec.
    destruct (3 <? ndim (if (ndim v =? 2)%nat then np.expand_dims v STFT_CHAN_INDEX else v))%nat;
      exec; repeat split; reflexivity.
Qed.

Lemma stft_data_setter_validates_witness :
  stft_data_setter (PyNdarray (mk_ndarray [2]%nat [cx 1 0; cx 0 1]%float)) empty_world =
  (inl (ValueError Msg.stft_rank_low), empty_world) /\
  _stft_data (self (snd (stft_data_setter
                           (PyNdarray (mk_ndarray [1; 2]%nat [cx 1 0; cx 0 1]%float))
                           empty_world))) =
  Some (mk_ndarray [1; 2; 1]%nat [cx 1 0; cx 0 1]%float) /\
  _stft_data (self (snd (stft_data_setter (PyNdarray (mk_ndarray [] [cx 1 0]%float))
                                          empty_world))) =
  Some (mk_ndarray [] [cx 1 0]%float).
Proof.
  refine (conj _ (conj _ _)).
  - exact (proj1 (proj2 (stft_data_setter_validates
                           (PyNdarray (mk_ndarray [2]%nat [cx 1 0; cx 0 1]%float))
                           empty_world)) _ eq_refl eq_refl).
  - exact (proj1 (proj2 (proj2 (proj2 (stft_data_setter_validates
                           (PyNdarray (mk_ndarray [1; 2]%nat [cx 1 0; cx 0 1]%float))
                           empty_world)))) _ 1%nat 2%nat eq_refl eq_refl).
  - exact (proj1 (proj2 (proj2 (proj2 (proj2 (stft_data_setter_validates
                           (PyNdarray (mk_ndarray [] [cx 1 0]%float))
                           empty_world))))) _ eq_refl (or_intror eq_refl)).
Defined.

(** ** Channels *)

(** Channel [i] of a 2-D array, as a 1-D array. *)
Definition row {A} (i : nat) (x : ndarray A) : ndarray A :=
  let n := nth LEN_INDEX (shape x) 0%nat in
  mk_ndarray [n] (firstn n (skipn (i * n) (flat x))).

Definition arr_row (i : nat) (a : array) : array := lift (fun A => @row A i) a.

(** The 2-D array whose channels are [rows]. *)
Definition of_rows {A} (n : nat) (rows : list (ndarray A)) : ndarray A :=
  mk_ndarray [List.length rows; n] (flat_map (@flat A) rows).

Lemma take_axis_row {A} (x : ndarray A) c n i :
  shape x = [c; n] -> (i < c)%nat -> np.take_axis x CHAN_INDEX i = Some (row i x).
Proof.
  intros Hs Hi. unfold np.take_axis, np.blocks, np.outer, np.inner, row, CHAN_INDEX, LEN_INDEX.
  rewrite Hs. cbn [nth_error nth firstn skipn size_of fold_right app].
  apply Nat.ltb_lt in Hi as Hi'. rewrite Hi'. rewrite !Nat.mul_1_r.
  cbn [chunks flat_map]. rewrite app_nil_r.
  rewrite skipn_firstn_comm, firstn_firstn.
  do 3 f_equal. apply Nat.min_l. nia.
Qed.

Lemma chunks_as_rows {A} (c n : nat) (l : list A) :
  chunks c n l = map (fun i => firstn n (skipn (i * n) l)) (seq 0 c).
Proof.
  revert l. induction c as [| c IH]; intros l; cbn [chunks seq map]; [reflexivity |].
  f_equal. rewrite IH, <- seq_shift, map_map. apply map_ext.
  intros i. rewrite skipn_skipn. do 2 f_equal. cbn [Nat.mul]. lia.
Qed.

Lemma rows_restore {A} (x : ndarray A) c n :
  shape x = [c; n] -> well_shaped x = true ->
  of_rows n (map (fun i => row i x) (seq 0 c)) = x.
Proof.
  intros Hs Hw. unfold of_rows, row. rewrite Hs. cbn [nth LEN_INDEX].
  rewrite length_map, length_seq, flat_map_concat_map, map_map. cbn [flat].
  rewrite <- chunks_as_rows, concat_chunks.
  unfold well_shaped, size in Hw. rewrite Hs in Hw. cbn [size_of fold_right] in Hw.
  apply Nat.eqb_eq in Hw. rewrite firstn_all2 by lia.
  destruct x as [sh fl]. cbn in *. now subst.
Qed.

Lemma get_channel_row w v c n i :
  holds_full (self w) v c n -> (i < c)%nat ->
  get_channel (Z.of_nat i) w = (inr (arr_row i v), w).
Proof.
  intros H Hi. pose proof H as (_ & Hs & _).
  unfold get_channel, _verify_get_channel. exec.
  rewrite (num_channels_full w v c n H). exec. cbn [py_ge].
  destruct (Z.of_nat c <=? Z.of_nat i) eqn:E; [lia |]. exec.
  destruct (Z.of_nat i <? 0) eqn:E0; [lia |]. exec.
  rewrite (audio_data_full (self w) v c n w H eq_refl). exec.
  unfold _get_axis, lift_opt, arr_row, lift. rewrite Nat2Z.id.
  destruct v as [x | x]; cbn [arr_shape] in Hs;
    rewrite (take_axis_row x c n i Hs Hi); reflexivity.
Qed.

Lemma get_channel_negative w v c n i :
  holds_full (self w) v c n -> i < 0 ->
  get_channel i w = (inl (ValueError Msg.channel_negative), w).
Proof.
  intros H Hi. unfold get_channel, _verify_get_channel. exec.
  rewrite (num_channels_full w v c n H). exec. cbn [py_ge].
  destruct (Z.of_nat c <=? i) eqn:E; [apply Z.leb_le in E; lia |]. exec.
  destruct (i <? 0) eqn:E0; [| apply Z.ltb_ge in E0; lia]. reflexivity.
Qed.

Lemma get_channels_run w v c n :
  holds_full (self w) v c n ->
  get_channels w = (inr (map (fun i => arr_row i v) (seq 0 c)), w).
Proof.
  intros H. unfold get_channels.
  erewrite bind_ok by exact (channel_range_full w v c n H).
  unfold range. rewrite Nat2Z.id.
  erewrite (for_collect_reads_map _ _ (fun i => arr_row (Z.to_nat i) v)).
  - rewrite map_map. do 2 f_equal. apply map_ext. intros i. now rewrite Nat2Z.id.
  - intros x Hx. apply in_map_iff in Hx as (i & <- & Hi). apply in_seq in Hi.
    rewrite Nat2Z.id. apply (get_channel_row w v c n i H). lia.
Qed.

(** On an object holding [c] channels of [n] samples under a default
    region, [get_channel(i)] returns channel [i] for [0 <= i < c] and raises
    ValueError for any other [i]; it never changes the object.  The
    generator [get_channels] yields the [c] channels in order, and put
    together they are the stored array again. *)
Theorem get_channel_indexes_the_rows :
  forall s log v c n,
    holds_full s v c n ->
    (forall i, 0 <= i < Z.of_nat c ->
               get_channel i (mk_world s log) = (inr (arr_row (Z.to_nat i) v), mk_world s log)) /\
    (forall i, Z.of_nat c <= i ->
               get_channel i (mk_world s log) =
               (inl (ValueError Msg.channel_bounds), mk_world s log)) /\
    (forall i, i < 0 ->
               get_channel i (mk_world s log) =
               (inl (ValueError Msg.channel_negative), mk_world s log)) /\
    get_channels (mk_world s log) =
    (inr (map (fun i => arr_row i v) (seq 0 c)), mk_world s log) /\
    lift (fun A x => of_rows n (map (fun i => row i x) (seq 0 c))) v = v.
Proof.
  intros s log v c n H. pose proof H as (_ & Hs & Hw & _).
  refine (conj _ (conj _ (conj _ (conj _ _)))).
  - intros i Hi. rewrite <- (Z2Nat.id i) at 1 by lia.
    apply (get_channel_row (mk_world s log) v c n (Z.to_nat i) H). lia.
  - intros i Hi. exact (get_channel_out_of_bounds (mk_world s log) v c n i H Hi).
  - intros i Hi. exact (get_channel_negative (mk_world s log) v c n i H Hi).
  - exact (get_channels_run (mk_world s log) v c n H).
  - destruct v as [x | x]; cbn [lift arr_shape arr_well_shaped] in *;
      now rewrite (rows_restore x c n Hs Hw).
Qed.

Lemma get_channel_indexes_the_rows_witness :
  get_channel 1 (mk_world stereo4 []) = (inr (arr_row 1 stereo_samples), mk_world stereo4 []) /\
  get_channel 2 (mk_world stereo4 []) =
  (inl (ValueError Msg.channel_bounds), mk_world stereo4 []) /\
  get_channel (-1) (mk_world stereo4 []) =
  (inl (ValueError Msg.channel_negative), mk_world stereo4 []).
Proof.
  destruct (get_channel_indexes_the_rows stereo4 [] stereo_samples 2 4 stereo4_holds)
    as (Hin & Hhigh & Hneg & _).
  refine (conj _ (conj _ _)).
  - apply (Hin 1). lia.
  - apply (Hhigh 2). lia.
  - apply (Hneg (-1)). lia.
Defined.

(** ** Truncating, cropping and concatenating *)

Lemma columns_finite i j a :
  np.isfinite_all a = true -> np.isfinite_all (arr_columns i j a) = true.
Proof.
  destruct a as [x | x]; [reflexivity |]. cbn [np.isfinite_all arr_columns lift columns flat].
  intros H. apply forallb_flat_map_chunks; [| exact H].
  intros blk Hb. now apply forallb_firstn, forallb_skipn.
Qed.

Lemma set_active_region_to_default_full w a c n :
  holds_full (self w) a c n -> set_active_region_to_default w = (inr tt, w).
Proof.
  intros H. pose proof H as (Ha & Hs & _).
  erewrite (set_active_region_to_default_some w a n); [| exact Ha | now rewrite Hs].
  rewrite (with_region_default_id (self w) a c n H). now destruct w.
Qed.

Lemma chunks_lengths {A} (c k : nat) (l : list A) :
  (c * k <= List.length l)%nat -> forall r, In r (chunks c k l) -> List.length r = k.
Proof.
  revert l. induction c as [| c IH]; intros l Hl r Hr; cbn [chunks] in Hr; [easy |].
  destruct Hr as [<- | Hr].
  - rewrite length_firstn. nia.
  - apply (IH (skipn k l)); [rewrite length_skipn; nia | exact Hr].
Qed.

Lemma chunks_concat {A} (k : nat) (rows : list (list A)) :
  (forall r, In r rows -> List.length r = k) ->
  chunks (List.length rows) k (List.concat rows) = rows.
Proof.
  induction rows as [| r rows IH]; intros H; cbn [List.length chunks List.concat].
  - reflexivity.
  - assert (Hr : List.length r = k) by (apply H; now left).
    rewrite firstn_app, skipn_app, Hr, Nat.sub_diag.
    rewrite firstn_all2, skipn_all2 by lia. cbn [firstn skipn app].
    rewrite app_nil_r, IH by (intros r' Hr'; apply H; now right). reflexivity.
Qed.

Lemma length_chunks {A} (c k : nat) (l : list A) : List.length (chunks c k l) = c.
Proof. revert l. induction c as [| c IH]; intros l; cbn; [reflexivity | now rewrite IH]. Qed.

Lemma length_flat_map_uniform {A B} (f : A -> list B) (k : nat) (l : list A) :
  (forall x, In x l -> List.length (f x) = k) ->
  List.length (flat_map f l) = (List.length l * k)%nat.
Proof.
  induction l as [| x l IH]; intros H; cbn [flat_map List.length]; [reflexivity |].
  rewrite length_app, H, IH by auto with datatypes. reflexivity.
Qed.

Lemma columns_well_shaped a c n i j :
  arr_shape a = [c; n] -> arr_well_shaped a = true -> (i <= j <= n)%nat ->
  arr_well_shaped (arr_columns i j a) = true.
Proof.
  intros Hs Hw Hij.
  assert (Hgen : forall A (x : ndarray A),
             shape x = [c; n] -> well_shaped x = true -> well_shaped (columns i j x) = true).
  { intros A x Hsx Hwx. unfold well_shaped, size, columns in *. rewrite Hsx in *.
    cbn [shape flat size_of fold_right nth CHAN_INDEX LEN_INDEX] in *.
    apply Nat.eqb_eq in Hwx. apply Nat.eqb_eq.
    rewrite (length_flat_map_uniform _ (j - i)), length_chunks; [lia |].
    intros r Hr. rewrite length_firstn, length_skipn.
    rewrite (chunks_lengths c n (flat x)) by (auto; lia). lia. }
  destruct a as [x | x]; cbn [arr_shape arr_well_shaped arr_columns lift] in *; auto.
Qed.

Lemma truncate_samples_run s log a c n k :
  holds_full s a c n -> np.isfinite_all a = true ->
  k <= Z.of_nat n -> (c <= slice_bound n k)%nat ->
  truncate_samples (PyInt k) (mk_world s log) =
  (inr tt,
   mk_world (with_samples (arr_columns 0 (slice_bound n k) a) (slice_bound n k) s) log).
Proof.
  intros H Hf Hk Hc. pose proof H as (_ & Hs & _). unfold truncate_samples.
  erewrite bind_ok by exact (signal_length_full (mk_world s log) a c n H).
  cbn [num_gt]. replace (Z.of_nat n <? k) with false by (symmetry; apply Z.ltb_ge; lia).
  erewrite bind_ok by reflexivity.
  erewrite bind_ok by exact (active_region_is_default_full (mk_world s log) a c n H).
  cbn [negb]. erewrite bind_ok by reflexivity.
  erewrite bind_ok by exact (audio_data_full s a c n (mk_world s log) H eq_refl).
  cbn beta iota.
  erewrite bind_ok by exact (slice_samples_columns a c n 0 k _ Hs).
  replace (slice_bound n 0) with 0%nat by (unfold slice_bound; cbn; lia).
  apply (audio_data_setter_rank2 _ c (slice_bound n k)).
  - now apply columns_finite.
  - rewrite (arr_shape_columns a c n _ _ Hs). now rewrite Nat.sub_0_r.
  - exact Hc.
Qed.

Lemma crop_signal_run s log a c n before after :
  holds_full s a c n -> np.isfinite_all a = true ->
  0 <= before -> 0 <= after -> before + after <= Z.of_nat n ->
  (c <= n - Z.to_nat before - Z.to_nat after)%nat ->
  crop_signal before after (mk_world s log) =
  (inr tt,
   mk_world (with_samples (arr_columns (Z.to_nat before) (n - Z.to_nat after) a)
                          (n - Z.to_nat before - Z.to_nat after) s) log).
Proof.
  intros H Hf Hb Ha Hsum Hc. pose proof H as (_ & Hs & Hw & _). unfold crop_signal.
  erewrite bind_ok by exact (active_region_is_default_full (mk_world s log) a c n H).
  cbn [negb]. erewrite bind_ok by reflexivity.
  erewrite bind_ok by exact (signal_length_full (mk_world s log) a c n H).
  erewrite bind_ok by exact (audio_data_full s a c n (mk_world s log) H eq_refl).
  cbn beta iota.
  erewrite bind_ok by exact (slice_samples_columns a c n before (Z.of_nat n - after) _ Hs).
  rewrite !slice_bound_inside by lia.
  replace (Z.to_nat (Z.of_nat n - after)) with (n - Z.to_nat after)%nat by lia.
  assert (Hshape : arr_shape (arr_columns (Z.to_nat before) (n - Z.to_nat after) a) =
                   [c; n - Z.to_nat before - Z.to_nat after]%nat).
  { rewrite (arr_shape_columns a c n _ _ Hs). do 2 f_equal. lia. }
  erewrite bind_ok
    by (apply (audio_data_setter_rank2 _ c (n - Z.to_nat before - Z.to_nat after));
        [now apply columns_finite | exact Hshape | exact Hc]).
  apply (set_active_region_to_default_full
           _ (arr_columns (Z.to_nat before) (n - Z.to_nat after) a)
           c (n - Z.to_nat before - Z.to_nat after)).
  cbn [self]. apply with_samples_holds; [exact Hshape |].
  apply (columns_well_shaped a c n); auto. lia.
Qed.

Lemma with_samples_again v n v' n' s :
  with_samples v n (with_samples v' n' s) = with_samples v n s.
Proof. reflexivity. Qed.

Lemma with_samples_id s a c n : holds_full s a c n -> with_samples a n s = s.
Proof.
  intros (Ha & _ & _ & Hb & He). destruct s as [p ad sd sr st en sp ul].
  cbn in *. now subst.
Qed.

Lemma eval_signal_length_stored v c n s :
  arr_shape v = [c; n] -> arr_well_shaped v = true ->
  eval signal_length (with_samples v n s) = inr (Some (Z.of_nat n)).
Proof.
  intros Hs Hw. apply (eval_signal_length_full _ v c n). now apply with_samples_holds.
Qed.

(** On an object holding [c] finite channels of [n] samples under a
    default region, [truncate_samples(k)] raises ValueError and changes
    nothing for [k > n]; for [c <= k <= n] it keeps the first [k] samples of
    every channel; and for a negative [k] with [c <= n + k] it does not
    raise but drops the last [-k] samples, as a Python slice does. *)
Theorem truncate_samples_keeps_a_prefix :
  forall s log a c n k,
    holds_full s a c n -> np.isfinite_all a = true ->
    (Z.of_nat n < k ->
     truncate_samples (PyInt k) (mk_world s log) =
     (inl (ValueError Msg.truncate_long), mk_world s log)) /\
    (Z.of_nat c <= k <= Z.of_nat n ->
     truncate_samples (PyInt k) (mk_world s log) =
     (inr tt, mk_world (with_samples (arr_columns 0 (Z.to_nat k) a) (Z.to_nat k) s) log) /\
     eval signal_length (with_samples (arr_columns 0 (Z.to_nat k) a) (Z.to_nat k) s) =
     inr (Some k)) /\
    (k < 0 -> Z.of_nat c <= Z.of_nat n + k ->
     truncate_samples (PyInt k) (mk_world s log) =
     (inr tt,
      mk_world (with_samples (arr_columns 0 (Z.to_nat (Z.of_nat n + k)) a)
                             (Z.to_nat (Z.of_nat n + k)) s) log) /\
     eval signal_length
          (with_samples (arr_columns 0 (Z.to_nat (Z.of_nat n + k)) a)
                        (Z.to_nat (Z.of_nat n + k)) s) =
     inr (Some (Z.of_nat n + k))).
Proof.
  intros s log a c n k H Hf. pose proof H as (_ & Hs & Hw & _).
  refine (conj _ (conj _ _)).
  - intros Hk. unfold truncate_samples.
    erewrite bind_ok by exact (signal_length_full (mk_world s log) a c n H).
    cbn [num_gt]. apply Z.ltb_lt in Hk. rewrite Hk. reflexivity.
  - intros Hk.
    assert (Hb : slice_bound n k = Z.to_nat k) by (apply slice_bound_inside; lia).
    split.
    + rewrite <- Hb. apply (truncate_samples_run s log a c n k H Hf); lia.
    + rewrite (eval_signal_length_stored _ c (Z.to_nat k)).
      * do 2 f_equal. lia.
      * rewrite (arr_shape_columns a c n _ _ Hs). now rewrite Nat.sub_0_r.
      * apply (columns_well_shaped a c n); auto. lia.
  - intros Hneg Hk.
    assert (Hb : slice_bound n k = Z.to_nat (Z.of_nat n + k)).
    { unfold slice_bound. apply Z.ltb_lt in Hneg. rewrite Hneg. f_equal. lia. }
    split.
    + rewrite <- Hb. apply (truncate_samples_run s log a c n k H Hf); lia.
    + rewrite (eval_signal_length_stored _ c (Z.to_nat (Z.of_nat n + k))).
      * do 2 f_equal. lia.
      * rewrite (arr_shape_columns a c n _ _ Hs). now rewrite Nat.sub_0_r.
      * apply (columns_well_shaped a c n); auto. lia.
Qed.

Lemma truncate_samples_keeps_a_prefix_witness :
  truncate_samples (PyInt 5) (mk_world mono4 []) =
  (inl (ValueError Msg.truncate_long), mk_world mono4 []) /\
  truncate_samples (PyInt 3) (mk_world mono4 []) =
  (inr tt, mk_world (with_samples (arr_columns 0 3 wide) 3 mono4) []) /\
  truncate_samples (PyInt (-1)) (mk_world mono4 []) =
  (inr tt, mk_world (with_samples (arr_columns 0 3 wide) 3 mono4) []).
Proof.
  destruct (truncate_samples_keeps_a_prefix mono4 [] wide 1 4 5 mono4_holds eq_refl)
    as (Hlong & _ & _).
  destruct (truncate_samples_keeps_a_prefix mono4 [] wide 1 4 3 mono4_holds eq_refl)
    as (_ & Hin & _).
  destruct (truncate_samples_keeps_a_prefix mono4 [] wide 1 4 (-1) mono4_holds eq_refl)
    as (_ & _ & Hneg).
  refine (conj _ (conj _ _)).
  - apply Hlong. lia.
  - apply Hin. lia.
  - apply Hneg; lia.
Defined.

(** On an object holding [c] finite channels of [n] samples under a
    default region, [crop_signal(before, after)] with non-negative counts
    that leave at least [c] samples keeps the samples from [before] to
    [n - after] of every channel: the length shrinks by [before + after] and
    the region stays the default one. *)
Theorem crop_signal_shrinks_by_before_and_after :
  forall s log a c n before after,
    holds_full s a c n -> np.isfinite_all a = true ->
    0 <= before -> 0 <= after ->
    Z.of_nat c <= Z.of_nat n - before - after ->
    let kept := arr_columns (Z.to_nat before) (n - Z.to_nat after) a in
    let len := (n - Z.to_nat before - Z.to_nat after)%nat in
    crop_signal before after (mk_world s log) =
    (inr tt, mk_world (with_samples kept len s) log) /\
    holds_full (with_samples kept len s) kept c len /\
    eval signal_length (with_samples kept len s) =
    inr (Some (Z.of_nat n - before - after)).
Proof.
  intros s log a c n before after H Hf Hb Ha Hc kept len.
  pose proof H as (_ & Hs & Hw & _).
  assert (Hshape : arr_shape kept = [c; len]).
  { unfold kept, len. rewrite (arr_shape_columns a c n _ _ Hs). do 2 f_equal. lia. }
  assert (Hwk : arr_well_shaped kept = true).
  { apply (columns_well_shaped a c n); auto. lia. }
  refine (conj _ (conj _ _)).
  - apply (crop_signal_run s log a c n before after H Hf); lia.
  - now apply with_samples_holds.
  - rewrite (eval_signal_length_stored kept c len s Hshape Hwk).
    do 2 f_equal. unfold len. lia.
Qed.

Lemma crop_signal_shrinks_by_before_and_after_witness :
  crop_signal 1 2 (mk_world mono4 []) =
  (inr tt, mk_world (with_samples (arr_columns 1 2 wide) 1 mono4) []) /\
  holds_full (with_samples (arr_columns 1 2 wide) 1 mono4) (arr_columns 1 2 wide) 1 1 /\
  eval signal_length (with_samples (arr_columns 1 2 wide) 1 mono4) = inr (Some (4 - 1 - 2)).
Proof.
  apply (crop_signal_shrinks_by_before_and_after mono4 [] wide 1 4 1 2 mono4_holds eq_refl);
    lia.
Defined.

(** Channel by channel, the samples of [y] after those of [x]. *)
Definition append_columns {A} (x y : ndarray A) : ndarray A :=
  let c := nth CHAN_INDEX (shape x) 0%nat in
  let n := nth LEN_INDEX (shape x) 0%nat in
  let m := nth LEN_INDEX (shape y) 0%nat in
  mk_ndarray [c; n + m]%nat
             (List.concat (map (fun p => fst p ++ snd p)
                               (combine (chunks c n (flat x)) (chunks c m (flat y))))).

Lemma concatenate_columns {A} (x y : ndarray A) c n m :
  shape x = [c; n] -> shape y = [c; m] ->
  np.concatenate x y LEN_INDEX = Some (append_columns x y).
Proof.
  intros Hx Hy.
  unfold np.concatenate, np.blocks, np.outer, np.inner, append_columns, LEN_INDEX, CHAN_INDEX.
  rewrite Hx, Hy. cbn [nth_error nth firstn skipn size_of fold_right app].
  unfold shape_eqb.
  destruct (list_eq_dec Nat.eq_dec [c] [c]) as [_ | Hne]; [| now destruct Hne].
  destruct (list_eq_dec Nat.eq_dec (@nil nat) []) as [_ | Hne]; [| now destruct Hne].
  cbn [andb]. now rewrite !Nat.mul_1_r.
Qed.

Lemma chunks_forallb {A} (f : A -> bool) (c k : nat) (l : list A) :
  forallb f l = true -> forall r, In r (chunks c k l) -> forallb f r = true.
Proof.
  revert l. induction c as [| c IH]; intros l Hl r Hr; cbn [chunks] in Hr; [easy |].
  destruct Hr as [<- | Hr]; [now apply forallb_firstn |].
  apply (IH (skipn k l)); [now apply forallb_skipn | exact Hr].
Qed.

Lemma append_columns_finite (x y : ndarray float) :
  forallb is_finite (flat x) = true -> forallb is_finite (flat y) = true ->
  forallb is_finite (flat (append_columns x y)) = true.
Proof.
  intros Hx Hy. unfold append_columns. cbn [flat].
  rewrite <- flat_map_concat_map. apply forallb_flat_map_in.
  intros [r1 r2] Hp. cbn [fst snd]. rewrite forallb_app.
  rewrite (chunks_forallb _ _ _ _ Hx r1 (in_combine_l _ _ _ _ Hp)).
  rewrite (chunks_forallb _ _ _ _ Hy r2 (in_combine_r _ _ _ _ Hp)). reflexivity.
Qed.

Lemma appended_rows {A} (n m : nat) (X Y : list (list A)) :
  List.length X = List.length Y ->
  (forall r, In r X -> List.length r = n) -> (forall r, In r Y -> List.length r = m) ->
  List.length (map (fun p => fst p ++ snd p) (combine X Y)) = List.length X /\
  (forall r, In r (map (fun p => fst p ++ snd p) (combine X Y)) ->
             List.length r = (n + m)%nat) /\
  flat_map (firstn n) (map (fun p => fst p ++ snd p) (combine X Y)) = List.concat X.
Proof.
  revert Y. induction X as [| r1 X IH]; intros [| r2 Y] Hlen HX HY; try discriminate.
  - repeat split. intros r [].
  - cbn [List.length] in Hlen. injection Hlen as Hlen.
    destruct (IH Y Hlen (fun r Hr => HX r (or_intror Hr)) (fun r Hr => HY r (or_intror Hr)))
      as (IH1 & IH2 & IH3).
    assert (H1 : List.length r1 = n) by (apply HX; now left).
    assert (H2 : List.length r2 = m) by (apply HY; now left).
    cbn [combine map List.length flat_map List.concat fst snd].
    refine (conj _ (conj _ _)).
    + now rewrite IH1.
    + intros r [<- | Hr]; [rewrite length_app; lia | now apply IH2].
    + rewrite IH3, firstn_app, H1, Nat.sub_diag, firstn_all2 by lia.
      cbn [firstn]. now rewrite app_nil_r.
Qed.

Lemma length_concat_uniform {A} (k : nat) (rows : list (list A)) :
  (forall r, In r rows -> List.length r = k) ->
  List.length (List.concat rows) = (List.length rows * k)%nat.
Proof.
  induction rows as [| r rows IH]; intros H; cbn [List.concat List.length]; [reflexivity |].
  rewrite length_app, H, IH by auto with datatypes. reflexivity.
Qed.

Lemma append_columns_spec {A} (x y : ndarray A) c n m :
  shape x = [c; n] -> shape y = [c; m] ->
  well_shaped x = true -> well_shaped y = true ->
  well_shaped (append_columns x y) = true /\
  columns 0 n (append_columns x y) = x.
Proof.
  intros Hx Hy Hwx Hwy.
  unfold well_shaped, size in Hwx, Hwy. rewrite Hx in Hwx. rewrite Hy in Hwy.
  cbn [size_of fold_right] in Hwx, Hwy.
  apply Nat.eqb_eq in Hwx. apply Nat.eqb_eq in Hwy.
  destruct (appended_rows n m (chunks c n (flat x)) (chunks c m (flat y)))
    as (Hlen & Hrows & Hfirst).
  { now rewrite !length_chunks. }
  { apply chunks_lengths. lia. }
  { apply chunks_lengths. lia. }
  rewrite length_chunks in Hlen.
  split.
  - unfold well_shaped, size, append_columns. rewrite Hx, Hy.
    cbn [shape flat nth CHAN_INDEX LEN_INDEX size_of fold_right].
    apply Nat.eqb_eq.
    rewrite (length_concat_uniform (n + m)), Hlen by exact Hrows. lia.
  - unfold columns, append_columns. rewrite Hx, Hy.
    cbn [shape flat nth CHAN_INDEX LEN_INDEX]. rewrite Nat.sub_0_r.
    rewrite <- Hlen at 2. rewrite chunks_concat by exact Hrows.
    change (fun row0 : list A => firstn n (skipn 0 row0)) with (@firstn A n).
    rewrite Hfirst, concat_chunks, firstn_all2 by lia.
    destruct x as [sh fl]. cbn in *. now subst.
Qed.

Lemma verify_audio_ok w o a b c n m :
  holds_full (self w) a c n -> views o b -> arr_shape b = [c; m] ->
  _sample_rate (self w) = _sample_rate o ->
  _verify_audio o w = (inr tt, w).
Proof.
  intros H Hv Hs Hr. apply reads_run; [apply reads__verify_audio |].
  unfold _verify_audio.
  rewrite eval_bind, (eval_num_channels_full _ a c n H) by auto.
  rewrite eval_bind, eval_on, (eval_num_channels_view o b c m Hv Hs) by auto.
  rewrite opt_eqb_refl. cbn [negb].
  rewrite eval_bind, eval_raise_if_false by auto.
  rewrite eval_bind, eval_sample_rate by auto.
  rewrite eval_bind, eval_on, eval_sample_rate, Hr by auto.
  rewrite opt_eqb_refl. cbn [negb].
  rewrite eval_bind, eval_raise_if_false by auto.
  rewrite eval_bind, (eval_active_region_is_default_full _ a c n H) by auto.
  reflexivity.
Qed.

Lemma concat_run s o log x y c n m :
  holds_full s (FloatArr x) c n -> views o (FloatArr y) -> shape y = [c; m] ->
  _sample_rate s = _sample_rate o ->
  forallb is_finite (flat x) = true -> forallb is_finite (flat y) = true ->
  (c <= n + m)%nat ->
  concat o (mk_world s log) =
  (inr tt, mk_world (with_samples (FloatArr (append_columns x y)) (n + m) s) log).
Proof.
  intros H Hv Hsy Hr Hfx Hfy Hc. pose proof H as (_ & Hsx & _). cbn [arr_shape] in Hsx.
  unfold concat.
  erewrite bind_ok
    by exact (verify_audio_ok (mk_world s log) o (FloatArr x) (FloatArr y) c n m H Hv Hsy Hr).
  erewrite bind_ok by exact (audio_data_full s _ c n (mk_world s log) H eq_refl).
  erewrite bind_ok by (rewrite (on_run o audio_data _ reads_audio_data), Hv; reflexivity).
  cbn [np.concatenate_arr np.astype_float].
  rewrite (concatenate_columns x y c n m Hsx Hsy). cbn [option_map].
  apply (audio_data_setter_rank2 _ c (n + m)).
  - now apply append_columns_finite.
  - cbn [arr_shape]. unfold append_columns. rewrite Hsx, Hsy. reflexivity.
  - exact Hc.
Qed.

(** [concat(other)] on a receiver holding [c] finite float channels of
    [n] samples under a default region, with an operand of the same sample
    rate whose visible samples are [c] finite float channels of [m]
    samples: the receiver then holds, channel by channel, its own samples
    followed by the operand's, [n + m] in all, under a default region.
    Truncating to [n] samples afterwards gives back the receiver exactly as
    it was. *)
Theorem concat_appends_and_truncate_undoes_it :
  forall s o log x y c n m,
    holds_full s (FloatArr x) c n -> (c <= n)%nat ->
    views o (FloatArr y) -> shape y = [c; m] -> well_shaped y = true ->
    _sample_rate s = _sample_rate o ->
    forallb is_finite (flat x) = true -> forallb is_finite (flat y) = true ->
    let joined := with_samples (FloatArr (append_columns x y)) (n + m) s in
    concat o (mk_world s log) = (inr tt, mk_world joined log) /\
    holds_full joined (FloatArr (append_columns x y)) c (n + m) /\
    columns 0 n (append_columns x y) = x /\
    truncate_samples (PyInt (Z.of_nat n)) (mk_world joined log) = (inr tt, mk_world s log).
Proof.
  intros s o log x y c n m H Hle Hv Hsy Hwy Hr Hfx Hfy joined.
  pose proof H as (_ & Hsx & Hwx & _). cbn [arr_shape arr_well_shaped] in Hsx, Hwx.
  destruct (append_columns_spec x y c n m Hsx Hsy Hwx Hwy) as (Hwj & Hback).
  assert (Hj : holds_full joined (FloatArr (append_columns x y)) c (n + m)).
  { apply with_samples_holds; [| exact Hwj].
    cbn [arr_shape]. unfold append_columns. rewrite Hsx, Hsy. reflexivity. }
  refine (conj _ (conj Hj (conj Hback _))).
  - apply (concat_run s o log x y c n m H Hv Hsy Hr Hfx Hfy). lia.
  - rewrite (truncate_samples_run joined log (FloatArr (append_columns x y)) c (n + m)
               (Z.of_nat n) Hj).
    + rewrite slice_bound_inside by lia. rewrite Nat2Z.id.
      cbn [arr_columns lift]. rewrite Hback. unfold joined.
      rewrite with_samples_again, (with_samples_id s (FloatArr x) c n H). reflexivity.
    + now apply append_columns_finite.
    + lia.
    + rewrite slice_bound_inside by lia. lia.
Qed.

Lemma concat_appends_and_truncate_undoes_it_witness :
  concat two_samples (mk_world mono4 []) =
  (inr tt,
   mk_world (with_samples
               (FloatArr (append_columns (mk_ndarray [1; 4]%nat [1; 2; 3; 4]%float)
                                         (mk_ndarray [1; 2]%nat [5; 6]%float)))
               (4 + 2) mono4) []) /\
  truncate_samples (PyInt 4)
    (mk_world (with_samples
                 (FloatArr (append_columns (mk_ndarray [1; 4]%nat [1; 2; 3; 4]%float)
                                           (mk_ndarray [1; 2]%nat [5; 6]%float)))
                 (4 + 2) mono4) []) =
  (inr tt, mk_world mono4 []).
Proof.
  destruct (concat_appends_and_truncate_undoes_it
              mono4 two_samples [] (mk_ndarray [1; 4]%nat [1; 2; 3; 4]%float)
              (mk_ndarray [1; 2]%nat [5; 6]%float) 1 4 2 mono4_holds)
    as (Hcat & _ & _ & Hback).
  - lia.
  - vm_compute. reflexivity.
  - reflexivity.
  - reflexivity.
  - reflexivity.
  - reflexivity.
  - reflexivity.
  - split; [exact Hcat | exact Hback].
Defined.

(** ** Padding and cropping a mono signal *)

Lemma zero_pad_mono_run s log v n before after :
  holds_full s v 1 n -> np.isfinite_all v = true -> 0 <= before -> 0 <= after ->
  zero_pad before after (mk_world s log) =
  (inr tt, mk_world (after_first_pad s v before after) log).
Proof.
  intros H Hf Hb Ha. unfold zero_pad.
  erewrite bind_ok by exact (active_region_is_default_full (mk_world s log) v 1 n H).
  cbn [negb]. erewrite bind_ok by reflexivity.
  erewrite bind_ok by exact (channel_range_full (mk_world s log) v 1 n H).
  change (range (Z.of_nat 1)) with [0]. cbn [for_each].
  erewrite bind_ok
    by exact (zero_pad_first_iteration (mk_world s log) v 1 n before after H Hf
                (le_n 1) Hb Ha).
  reflexivity.
Qed.

Lemma columns_of_padded {A} (z : A) (x : ndarray A) n b a :
  shape x = [1; n]%nat -> well_shaped x = true ->
  columns b (b + n + a - a) (padded_row z x b a) = x.
Proof.
  intros Hs Hw. unfold well_shaped, size in Hw. rewrite Hs in Hw.
  cbn [size_of fold_right] in Hw. apply Nat.eqb_eq in Hw.
  unfold columns, padded_row. rewrite Hs.
  cbn [shape flat nth CHAN_INDEX LEN_INDEX chunks flat_map].
  rewrite app_nil_r.
  rewrite (firstn_all2 (n := n) (flat x)) by lia.
  rewrite (firstn_all2 (n := (b + n + a)%nat))
    by (rewrite !length_app, !repeat_length; lia).
  rewrite skipn_app, repeat_length, Nat.sub_diag, skipn_all2 by (rewrite repeat_length; lia).
  cbn [skipn app].
  replace (b + n + a - a - b)%nat with n by lia.
  rewrite firstn_app, firstn_all2 by lia.
  replace (n - List.length (flat x))%nat with 0%nat by lia. cbn [firstn].
  rewrite app_nil_r. destruct x as [sh fl]. cbn in *. now subst.
Qed.

(** On a mono object holding [n >= 1] finite samples under a default
    region, [zero_pad(before, after)] with non-negative counts returns with
    [before + n + after] samples stored, and [crop_signal(before, after)]
    then gives back the object exactly as it was. *)
Theorem zero_pad_then_crop_restores_mono :
  forall s log v n before after,
    holds_full s v 1 n -> np.isfinite_all v = true -> (1 <= n)%nat ->
    0 <= before -> 0 <= after ->
    let padded := after_first_pad s v before after in
    zero_pad before after (mk_world s log) = (inr tt, mk_world padded log) /\
    eval signal_length padded = inr (Some (before + Z.of_nat n + after)) /\
    crop_signal before after (mk_world padded log) = (inr tt, mk_world s log).
Proof.
  intros s log v n before after H Hf Hn Hb Ha padded.
  pose proof H as (_ & Hs & Hw & _).
  pose proof (after_first_pad_holds s v 1 n before after H (le_n 1)) as Hp.
  refine (conj _ (conj _ _)).
  - exact (zero_pad_mono_run s log v n before after H Hf Hb Ha).
  - unfold padded. rewrite (eval_signal_length_full _ _ _ _ Hp). do 2 f_equal. lia.
  - unfold padded.
    rewrite (crop_signal_run _ log _ 1 (Z.to_nat before + n + Z.to_nat after)
               before after Hp).
    + assert (Hcols : arr_columns (Z.to_nat before)
                        (Z.to_nat before + n + Z.to_nat after - Z.to_nat after)
                        (padded_first_channel v (Z.to_nat before) (Z.to_nat after)) = v).
      { destruct v as [x | x]; cbn [arr_columns lift padded_first_channel arr_shape
                                    arr_well_shaped] in *;
          now rewrite (columns_of_padded _ x n _ _ Hs Hw). }
      rewrite Hcols.
      replace (Z.to_nat before + n + Z.to_nat after - Z.to_nat before - Z.to_nat after)%nat
        with n by lia.
      change (with_samples v n (after_first_pad s v before after))
        with (with_samples v n s).
      now rewrite (with_samples_id s v 1 n H).
    + now apply padded_first_channel_finite.
    + exact Hb.
    + exact Ha.
    + lia.
    + lia.
Qed.

Lemma zero_pad_then_crop_restores_mono_witness :
  zero_pad 2 1 (mk_world mono4 []) = (inr tt, mk_world (after_first_pad mono4 wide 2 1) []) /\
  eval signal_length (after_first_pad mono4 wide 2 1) = inr (Some (2 + 4 + 1)) /\
  crop_signal 2 1 (mk_world (after_first_pad mono4 wide 2 1) []) = (inr tt, mk_world mono4 []).
Proof.
  apply (zero_pad_then_crop_restores_mono mono4 [] wide 4 2 1 mono4_holds eq_refl); lia.
Defined.

(** ** Gains *)

Lemma fopp_involutive (u : float) : (- - u)%float = u.
Proof.
  apply Prim2SF_inj. rewrite !FloatAxioms.opp_spec. now destruct (Prim2SF u) as [[] | [] | | [] m e].
Qed.

Lemma negated_float (x : ndarray float) :
  negated (FloatArr x) = FloatArr (map_array PrimFloat.opp x).
Proof.
  cbn [negated]. unfold map_array. rewrite float_neg_one. do 2 f_equal.
  apply map_ext. intros u. apply fmul_neg_one.
Qed.

Lemma negated_twice (x : ndarray float) : negated (negated (FloatArr x)) = FloatArr x.
Proof.
  rewrite !negated_float. unfold map_array. cbn [shape flat]. rewrite map_map.
  erewrite map_ext by (intros u; apply fopp_involutive).
  rewrite map_id. now destruct x.
Qed.

(** On an object holding [c <= n] finite float channels under a default
    region, [apply_gain(-1)] stores the negated samples, and a second
    [apply_gain(-1)] gives back the object exactly as it was. *)
Theorem apply_gain_minus_one_twice_restores :
  forall s log x c n,
    holds_full s (FloatArr x) c n -> (c <= n)%nat ->
    forallb is_finite (flat x) = true ->
    let flipped := with_samples (FloatArr (map_array PrimFloat.opp x)) n s in
    apply_gain (Some (PyInt (-1))) (mk_world s log) = (inr tt, mk_world flipped log) /\
    apply_gain (Some (PyInt (-1))) (mk_world flipped log) = (inr tt, mk_world s log).
Proof.
  intros s log x c n H Hle Hf flipped.
  pose proof H as (_ & Hs & Hw & _).
  assert (Hflip : holds_full flipped (negated (FloatArr x)) c n).
  { unfold flipped. rewrite <- negated_float. apply with_samples_holds.
    - now rewrite negated_shape.
    - now rewrite negated_well_shaped. }
  split.
  - rewrite (apply_gain_neg_run s log (FloatArr x) c n (holds_full_views _ _ _ _ H) Hs Hle).
    rewrite (negated_finite x Hf). unfold flipped. now rewrite negated_float.
  - rewrite (apply_gain_neg_run flipped log (negated (FloatArr x)) c n
               (holds_full_views _ _ _ _ Hflip)); [| now rewrite negated_shape | exact Hle].
    rewrite negated_twice. cbn [np.isfinite_all]. rewrite Hf.
    unfold flipped. rewrite with_samples_again, (with_samples_id s (FloatArr x) c n H).
    reflexivity.
Qed.

Lemma apply_gain_minus_one_twice_restores_witness :
  apply_gain (Some (PyInt (-1))) (mk_world mono4 []) =
  (inr tt,
   mk_world (with_samples
               (FloatArr (map_array PrimFloat.opp (mk_ndarray [1; 4]%nat [1; 2; 3; 4]%float)))
               4 mono4) []) /\
  apply_gain (Some (PyInt (-1)))
    (mk_world (with_samples
                 (FloatArr (map_array PrimFloat.opp
                                      (mk_ndarray [1; 4]%nat [1; 2; 3; 4]%float)))
                 4 mono4) []) =
  (inr tt, mk_world mono4 []).
Proof.
  apply (apply_gain_minus_one_twice_restores
           mono4 [] (mk_ndarray [1; 4]%nat [1; 2; 3; 4]%float) 1 4 mono4_holds).
  - lia.
  - reflexivity.
Defined.

(** ** Methods that return a new object *)

(** [keeps_self m]: [m] leaves the object as it is, whatever it returns or
    raises; it may issue warnings. *)
Definition keeps_self {A} (m : M A) : Prop :=
  forall w, self (snd (m w)) = self w.

Lemma keeps_self_reads {A} (m : M A) : reads m -> keeps_self m.
Proof. intros Hm w. now rewrite (Hm w). Qed.

Lemma keeps_self_bind {A B} (m : M A) (k : A -> M B) :
  keeps_self m -> (forall a, keeps_self (k a)) -> keeps_self (bind m k).
Proof.
  intros Hm Hk w. unfold bind. specialize (Hm w).
  destruct (m w) as [[e | a] w']; cbn [snd] in *; [exact Hm |].
  now rewrite (Hk a w').
Qed.

Lemma keeps_self_with_object {A} (o : AudioSignal) (m : M A) : keeps_self (with_object o m).
Proof.
  intros w. unfold with_object. now destruct (m (mk_world o (warned w))) as [[e | a] w'].
Qed.

Lemma keeps_self_warn msg : keeps_self (warn msg).
Proof. now intros w. Qed.

Lemma keeps_self_ret {A} (x : A) : keeps_self (ret x).
Proof. now intros w. Qed.

Lemma keeps_self_raise {A} e : keeps_self (@raise A e).
Proof. now intros w. Qed.

Ltac keeps_step :=
  match goal with
  | |- keeps_self (bind _ _) => apply keeps_self_bind; [| intro]
  | |- keeps_self (with_object _ _) => apply keeps_self_with_object
  | |- keeps_self (warn _) => apply keeps_self_warn
  | |- keeps_self (ret _) => apply keeps_self_ret
  | |- keeps_self (raise _) => apply keeps_self_raise
  | |- keeps_self (raise_if _ _) => apply keeps_self_reads, reads_raise_if
  | |- keeps_self get => apply keeps_self_reads, reads_get
  | |- keeps_self audio_data => apply keeps_self_reads, reads_audio_data
  | |- keeps_self stft_data => apply keeps_self_reads, reads_stft_data
  | |- keeps_self active_region_is_default =>
      apply keeps_self_reads, reads_active_region_is_default
  | |- keeps_self (get_channel _) => apply keeps_self_reads, reads_get_channel
  | |- keeps_self (get_stft_channel _) => apply keeps_self_reads, reads_get_stft_channel
  | |- keeps_self (_verify_audio_arithmetic _) =>
      apply keeps_self_reads, reads__verify_audio_arithmetic
  | |- keeps_self (on _ _) => apply keeps_self_reads, reads_on
  | |- keeps_self (match ?x with _ => _ end) => destruct x
  | |- keeps_self (if ?c then _ else _) => destruct c
  end.

Ltac prove_keeps := repeat keeps_step; auto using reads_audio_data.

Lemma keeps_self_make_copy_with_audio_data audio verbose :
  keeps_self (make_copy_with_audio_data audio verbose).
Proof. unfold make_copy_with_audio_data. prove_keeps. Qed.

Lemma keeps_self_make_copy_with_stft_data t verbose :
  keeps_self (make_copy_with_stft_data t verbose).
Proof. unfold make_copy_with_stft_data. prove_keeps. Qed.

Lemma keeps_self_py_float v : keeps_self (py_float v).
Proof. unfold py_float. prove_keeps. Qed.

Lemma keeps_self_add other : keeps_self (add other).
Proof. unfold add. prove_keeps. Qed.

(** The methods and operators that return a new object never change the
    object they are called on, whatever their arguments and whether they
    return or raise: [make_copy_with_audio_data], [make_copy_with_stft_data],
    [make_audio_signal_from_channel], [apply_mask], [add], [subtract],
    [*] and [/]. *)
Theorem copying_methods_keep_the_receiver :
  forall w : world,
    (forall audio verbose, self (snd (make_copy_with_audio_data audio verbose w)) = self w) /\
    (forall t verbose, self (snd (make_copy_with_stft_data t verbose w)) = self w) /\
    (forall n, self (snd (make_audio_signal_from_channel n w)) = self w) /\
    (forall m, self (snd (apply_mask m w)) = self w) /\
    (forall other, self (snd (add other w)) = self w) /\
    (forall other, self (snd (subtract other w)) = self w) /\
    (forall value, self (snd (__mul__ value w)) = self w) /\
    (forall value, self (snd (__div__ value w)) = self w).
Proof.
  intros w. refine (conj _ (conj _ (conj _ (conj _ (conj _ (conj _ (conj _ _))))))).
  - intros audio verbose. apply keeps_self_make_copy_with_audio_data.
  - intros t verbose. apply keeps_self_make_copy_with_stft_data.
  - intros n. revert w. change (keeps_self (make_audio_signal_from_channel n)).
    unfold make_audio_signal_from_channel. prove_keeps.
  - intros m. now rewrite apply_mask_reads_only.
  - intros other. apply keeps_self_add.
  - intros other. revert w. change (keeps_self (subtract other)).
    unfold subtract. apply keeps_self_bind; [apply keeps_self_with_object |].
    intros p. apply keeps_self_add.
  - intros value. revert w. change (keeps_self (__mul__ value)).
    unfold __mul__. destruct value as [v |]; [| apply keeps_self_raise].
    apply keeps_self_bind; [apply keeps_self_reads, reads_audio_data |].
    intros [a |]; [| apply keeps_self_raise].
    destruct (np.multiply a v); [apply keeps_self_make_copy_with_audio_data |].
    apply keeps_self_raise.
  - intros value. revert w. change (keeps_self (__div__ value)).
    unfold __div__. destruct value as [v |]; [| apply keeps_self_raise].
    apply keeps_self_bind; [apply keeps_self_reads, reads_audio_data |].
    intros a. apply keeps_self_bind; [apply keeps_self_py_float |].
    intros f. destruct a; [apply keeps_self_make_copy_with_audio_data |].
    apply keeps_self_raise.
Qed.

Lemma make_copy_with_audio_data_run s log v c n :
  np.isfinite_all v = true -> arr_shape v = [c; n] -> (c <= n)%nat ->
  make_copy_with_audio_data v false (mk_world s log) =
  (inr (with_stft_data None (with_samples v n s)), mk_world s log).
Proof.
  intros Hf Hs Hle. unfold make_copy_with_audio_data.
  erewrite bind_ok by reflexivity. erewrite bind_ok by reflexivity.
  erewrite bind_ok.
  2:{ apply with_object_ok. cbn [warned].
      erewrite bind_ok by exact (audio_data_setter_rank2 v c n (mk_world s log) Hf Hs Hle).
      reflexivity. }
  reflexivity.
Qed.



(** ** Division by zero *)

Lemma is_zero_spec (z : float) :
  (z =? 0)%float = true -> exists s, Prim2SF z = S754_zero s.
Proof.
  rewrite FloatAxioms.eqb_spec. change (Prim2SF 0) with (S754_zero false).
  destruct (Prim2SF z) as [s | [] | | [] m e]; cbn; try discriminate; eauto.
Qed.

Lemma div_by_zero_not_finite (u z : float) :
  (z =? 0)%float = true -> is_finite (u / z) = false.
Proof.
  intros Hz. destruct (is_zero_spec z Hz) as [sz Hsz].
  unfold is_finite, is_nan, is_infinity.
  rewrite !FloatAxioms.eqb_spec, FloatAxioms.abs_spec, FloatAxioms.div_spec, Hsz.
  change (Prim2SF infinity) with (S754_infinity false).
  destruct (Prim2SF u) as [[] | [] | | [] m e], sz; reflexivity.
Qed.

Lemma divide_by_zero_not_finite (x : ndarray float) (z : float) :
  (z =? 0)%float = true -> flat x <> [] ->
  forallb is_finite (flat (np.divide x (PyFloat z))) = false.
Proof.
  intros Hz Hne. cbn [np.divide map_array flat np.to_float].
  destruct (flat x) as [| u l]; [congruence |].
  cbn [map forallb]. now rewrite (div_by_zero_not_finite u z Hz).
Qed.

(** Dividing by zero.  [signal /= value] raises ZeroDivisionError for a
    zero [value], of either sign and whether int or float, before anything
    is touched.  [signal / value] does not: numpy divides, and the setter of
    the new object rejects the quotients with the not-finite ValueError,
    for any visible samples that are not empty; the receiver is not
    changed. *)
Theorem division_by_zero_raises :
  forall w : world,
    __idiv__ (PyInt 0) w = (inl (ZeroDivisionError Msg.float_division), w) /\
    (forall z, (z =? 0)%float = true ->
               __idiv__ (PyFloat z) w = (inl (ZeroDivisionError Msg.float_division), w)) /\
    (forall a z, eval audio_data (self w) = inr (Some a) ->
                 flat (np.astype_float a) <> [] -> (z =? 0)%float = true ->
                 fst (__div__ (Some (PyFloat z)) w) = inl (ValueError Msg.not_finite) /\
                 self (snd (__div__ (Some (PyFloat z)) w)) = self w).
Proof.
  intros w. refine (conj _ (conj _ _)).
  - reflexivity.
  - intros z Hz. unfold __idiv__. cbn [py_float]. erewrite bind_ok by reflexivity.
    now rewrite Hz.
  - intros a z Ha Hne Hz. unfold __div__.
    erewrite bind_ok by (apply reads_run; [apply reads_audio_data | exact Ha]).
    cbn [py_float]. erewrite bind_ok by reflexivity.
    unfold make_copy_with_audio_data.
    erewrite bind_ok by reflexivity. erewrite bind_ok by reflexivity.
    erewrite bind_err.
    2:{ unfold with_object. erewrite bind_err.
        2:{ cbn [audio_data_setter np.isfinite_all].
            rewrite (divide_by_zero_not_finite _ z Hz Hne). reflexivity. }
        reflexivity. }
    split; [reflexivity | now destruct w].
Qed.

Lemma division_by_zero_raises_witness :
  __idiv__ (PyFloat (-0)) (mk_world mono4 []) =
  (inl (ZeroDivisionError Msg.float_division), mk_world mono4 []) /\
  fst (__div__ (Some (PyFloat 0)) (mk_world mono4 [])) = inl (ValueError Msg.not_finite) /\
  self (snd (__div__ (Some (PyFloat 0)) (mk_world mono4 []))) = mono4.
Proof.
  destruct (division_by_zero_raises (mk_world mono4 [])) as (_ & Hi & Hd).
  split.
  - apply (Hi (-0)%float). reflexivity.
  - apply (Hd wide 0%float).
    + vm_compute. reflexivity.
    + discriminate.
    + reflexivity.
Defined.

(** ** Loading samples from an array *)

(** Integer samples as [load_audio_from_array] converts them. *)
Definition from_int16 (x : ndarray Z) : array :=
  FloatArr (np.divide (np.astype_float (IntArr x)) (PyFloat 32768)).

(** The object after a successful [load_audio_from_array]. *)
Definition loaded (v : array) (n : nat) (rate : Z) (s : AudioSignal) : AudioSignal :=
  with_sample_rate (Some rate) (with_samples v n (with_path_to_input_file None s)).

Lemma load_audio_from_array_stores D signal sr_arg converted c n w :
  (if is_float_dtype signal then ret signal
   else match np.max signal with
        | None => raise (ValueError Msg.numpy_empty_max)
        | Some m =>
            raise_if (exceeds_int16 m) (ValueError Msg.convert_16bit) ;;
            ret (FloatArr (np.divide (np.astype_float signal) (PyFloat 32768)))
        end)
    (mk_world (with_path_to_input_file None (self w)) (warned w)) =
  (inr converted, mk_world (with_path_to_input_file None (self w)) (warned w)) ->
  np.isfinite_all converted = true -> arr_shape converted = [c; n] -> (c <= n)%nat ->
  load_audio_from_array D signal sr_arg w =
  (inr tt,
   mk_world (loaded converted n (match sr_arg with Some r => r | None => D end) (self w))
            (warned w)).
Proof.
  intros Hconv Hf Hs Hle. unfold load_audio_from_array.
  erewrite bind_ok by reflexivity.
  erewrite bind_ok by exact Hconv.
  erewrite bind_ok by exact (audio_data_setter_rank2 converted c n _ Hf Hs Hle).
  erewrite bind_ok by reflexivity.
  erewrite (set_active_region_to_default_some _ converted n); [reflexivity | reflexivity |].
  cbn [self]. now rewrite Hs.
Qed.

(** [load_audio_from_array].  Float samples of [c <= n] finite channels
    are stored as they are; integer samples whose maximum is at most 32767
    are stored as floats divided by 32768, whatever their minimum; in both
    cases the path is cleared, the sample rate is the argument or else the
    default one, and the region is the default one.  Integer samples with a
    maximum above 32767 raise ValueError: the samples and the sample rate
    stay as they were, but the path is already cleared. *)
Theorem load_audio_from_array_converts_integers :
  forall (DEFAULT_SAMPLE_RATE : Z) s log sr_arg,
    let rate := match sr_arg with Some r => r | None => DEFAULT_SAMPLE_RATE end in
    (forall x c n,
        shape x = [c; n] -> (c <= n)%nat -> forallb is_finite (flat x) = true ->
        load_audio_from_array DEFAULT_SAMPLE_RATE (FloatArr x) sr_arg (mk_world s log) =
        (inr tt, mk_world (loaded (FloatArr x) n rate s) log)) /\
    (forall x c n m,
        shape x = [c; n] -> (c <= n)%nat -> np.max (IntArr x) = Some (PyInt m) ->
        m <= 32767 -> np.isfinite_all (from_int16 x) = true ->
        load_audio_from_array DEFAULT_SAMPLE_RATE (IntArr x) sr_arg (mk_world s log) =
        (inr tt, mk_world (loaded (from_int16 x) n rate s) log)) /\
    (forall x m,
        np.max (IntArr x) = Some (PyInt m) -> 32767 < m ->
        load_audio_from_array DEFAULT_SAMPLE_RATE (IntArr x) sr_arg (mk_world s log) =
        (inl (ValueError Msg.convert_16bit),
         mk_world (with_path_to_input_file None s) log)).
Proof.
  intros D s log sr_arg rate. refine (conj _ (conj _ _)).
  - intros x c n Hs Hle Hf.
    apply (load_audio_from_array_stores D (FloatArr x) sr_arg (FloatArr x) c n
             (mk_world s log)); auto.
  - intros x c n m Hs Hle Hm Hmax Hf.
    apply (load_audio_from_array_stores D (IntArr x) sr_arg (from_int16 x) c n
             (mk_world s log)); auto.
    cbn [is_float_dtype]. rewrite Hm. cbn [exceeds_int16].
    replace (32767 <? m) with false by (symmetry; apply Z.ltb_ge; lia).
    reflexivity.
  - intros x m Hm Hmax. unfold load_audio_from_array.
    erewrite bind_ok by reflexivity.
    erewrite bind_err; [reflexivity |].
    cbn [is_float_dtype]. rewrite Hm. cbn [exceeds_int16].
    apply Z.ltb_lt in Hmax. rewrite Hmax. reflexivity.
Qed.

Definition int_pair : ndarray Z := mk_ndarray [1; 2]%nat [16384; -65536].

Lemma load_audio_from_array_converts_integers_witness :
  load_audio_from_array 44100 (IntArr int_pair) None (mk_world mono4 []) =
  (inr tt, mk_world (loaded (float_array [1; 2]%nat [0.5; -2]%float) 2 44100 mono4) []) /\
  load_audio_from_array 44100 (IntArr (mk_ndarray [1; 2]%nat [0; 32768])) (Some 8000)
                        (mk_world mono4 []) =
  (inl (ValueError Msg.convert_16bit), mk_world (with_path_to_input_file None mono4) []).
Proof.
  destruct (load_audio_from_array_converts_integers 44100 mono4 [] None) as (_ & Hint & _).
  destruct (load_audio_from_array_converts_integers 44100 mono4 [] (Some 8000))
    as (_ & _ & Hbig).
  split.
  - apply (Hint int_pair 1%nat 2%nat 16384); try reflexivity; lia.
  - apply (Hbig (mk_ndarray [1; 2]%nat [0; 32768]) 32768); [reflexivity | lia].
Defined.

(** ** Down-mixing *)

(** Sample [p] of every channel of a 2-D array. *)
Definition column {A} (p : nat) (x : ndarray A) : list A :=
  flat_map (fun r => firstn 1 (skipn p r))
           (chunks (nth CHAN_INDEX (shape x) 0%nat) (nth LEN_INDEX (shape x) 0%nat) (flat x)).

Lemma lanes_columns {A} (x : ndarray A) c n :
  shape x = [c; n] -> well_shaped x = true ->
  np.lanes x CHAN_INDEX c = map (fun p => column p x) (seq 0 n).
Proof.
  intros Hs Hw. unfold well_shaped, size in Hw. rewrite Hs in Hw.
  cbn [size_of fold_right] in Hw. apply Nat.eqb_eq in Hw.
  unfold np.lanes, np.blocks, np.outer, np.inner, column, CHAN_INDEX, LEN_INDEX.
  rewrite Hs. cbn [nth firstn skipn size_of fold_right chunks flat_map].
  rewrite !Nat.mul_1_r, app_nil_r, firstn_all2 by lia. reflexivity.
Qed.

Lemma astype_float_shape a : shape (np.astype_float a) = arr_shape a.
Proof. now destruct a. Qed.

Lemma astype_float_well_shaped a : well_shaped (np.astype_float a) = arr_well_shaped a.
Proof.
  destruct a as [x | x]; [| reflexivity].
  unfold well_shaped, size. cbn. now rewrite length_map.
Qed.

Lemma eval_is_mono_full s a n : holds_full s a 1 n -> eval is_mono s = inr true.
Proof.
  intros H. unfold is_mono.
  rewrite eval_bind, (eval_num_channels_full s a 1 n H) by apply reads_num_channels.
  reflexivity.
Qed.

(** [to_mono] on visible samples of [c] channels and [n >= 1] samples, for
    any lane mean: the result holds the mean of every column, as an array
    of shape (1, n) with [keep_dims] and (n,) without (the docstring has the
    two the other way round).  Without [overwrite] nothing changes; with it,
    and finite means, the object ends up mono with these [n] samples under a
    default region, for either value of [keep_dims]. *)
Theorem to_mono_averages_the_channels :
  forall (mean : list float -> float) s log a c n (overwrite keep_dims : bool),
    views s a -> arr_shape a = [c; n] -> arr_well_shaped a = true -> (1 <= n)%nat ->
    let means := map (fun p => mean (column p (np.astype_float a))) (seq 0 n) in
    forallb is_finite means = true ->
    let mono := mk_ndarray (if keep_dims then [1; n]%nat else [n]) means in
    let after := with_samples (FloatArr (mk_ndarray [1; n]%nat means)) n s in
    to_mono mean overwrite keep_dims (mk_world s log) =
    (inr mono, mk_world (if overwrite then after else s) log) /\
    eval is_mono after = inr true /\
    eval signal_length after = inr (Some (Z.of_nat n)).
Proof.
  intros mean s log a c n overwrite keep_dims Hv Hs Hw Hn means Hf mono after.
  assert (Hafter : holds_full after (FloatArr (mk_ndarray [1; n]%nat means)) 1 n).
  { apply with_samples_holds; [reflexivity |].
    unfold arr_well_shaped, well_shaped, size, means. cbn [shape flat size_of fold_right].
    rewrite length_map, length_seq. apply Nat.eqb_eq. lia. }
  refine (conj _ (conj _ _)).
  - unfold to_mono.
    erewrite bind_ok by (apply reads_run; [apply reads_audio_data | exact Hv]).
    cbn beta iota. unfold np.reduce_axis.
    rewrite astype_float_shape, Hs. cbn [nth_error CHAN_INDEX firstn skipn app].
    change 0%nat with CHAN_INDEX at 1.
    rewrite (lanes_columns (np.astype_float a) c n)
      by (rewrite ?astype_float_shape, ?astype_float_well_shaped; assumption).
    rewrite map_map. fold means.
    destruct overwrite; [| destruct keep_dims; reflexivity].
    destruct keep_dims.
    + erewrite bind_ok
        by exact (audio_data_setter_rank2 (FloatArr (mk_ndarray [1; n]%nat means)) 1 n
                    (mk_world s log) Hf eq_refl Hn).
      reflexivity.
    + erewrite bind_ok
        by exact (audio_data_setter_rank1 (FloatArr (mk_ndarray [n] means)) n
                    (mk_world s log) Hf eq_refl).
      reflexivity.
  - exact (eval_is_mono_full after _ n Hafter).
  - exact (eval_signal_length_full after _ 1 n Hafter).
Qed.

(** A lane mean for the instances below: the sum in order, over the count. *)
Definition sequential_mean (l : list float) : float :=
  (fold_left PrimFloat.add l 0 / float_of_Z (Z.of_nat (List.length l)))%float.

Lemma to_mono_averages_the_channels_witness :
  to_mono sequential_mean true false (mk_world stereo4 []) =
  (inr (mk_ndarray [4]%nat
          (map (fun p => sequential_mean (column p (np.astype_float stereo_samples)))
               (seq 0 4))),
   mk_world (with_samples
               (FloatArr (mk_ndarray [1; 4]%nat
                  (map (fun p => sequential_mean (column p (np.astype_float stereo_samples)))
                       (seq 0 4))))
               4 stereo4) []).
Proof.
  apply (to_mono_averages_the_channels sequential_mean stereo4 [] stereo_samples 2 4
           true false).
  - vm_compute. reflexivity.
  - reflexivity.
  - reflexivity.
  - lia.
  - vm_compute. reflexivity.
Defined.

(** [stft_to_one_channel] on a stored array of shape (bins, hops,
    channels), for any lane mean: the reduction runs over
    [constants.CHAN_INDEX], which is the axis of the frequency bins, so
    the result has shape (hops, channels) and one mean per hop and channel;
    with [overwrite] it is stored with a trailing axis, as
    (hops, channels, 1).  The samples are never touched. *)
Theorem stft_to_one_channel_averages_the_bins :
  forall (cmean : list complex -> complex) s log t bins hops c (overwrite : bool),
    _stft_data s = Some t -> shape t = [bins; hops; c] ->
    let one := mk_ndarray [hops; c] (map cmean (np.lanes t CHAN_INDEX bins)) in
    stft_to_one_channel cmean overwrite (mk_world s log) =
    (inr one,
     mk_world (if overwrite
               then with_stft_data (Some (mk_ndarray [hops; c; 1%nat] (flat one))) s
               else s) log) /\
    List.length (flat one) = (hops * c)%nat.
Proof.
  intros cmean s log t bins hops c overwrite Ht Hs one. split.
  - unfold stft_to_one_channel.
    erewrite bind_ok by (apply reads_run; [apply reads_stft_data | reflexivity]).
    cbn [self]. rewrite Ht. unfold np.reduce_axis. rewrite Hs.
    cbn [nth_error CHAN_INDEX firstn skipn app]. fold one.
    destruct overwrite; [| reflexivity].
    erewrite bind_ok by exact (stft_data_setter_rank2 one (mk_world s log) hops c eq_refl).
    reflexivity.
  - unfold one, np.lanes, np.blocks, np.outer, np.inner, CHAN_INDEX. rewrite Hs.
    cbn [flat firstn skipn size_of fold_right chunks flat_map].
    rewrite length_map, app_nil_r, length_map, length_seq. lia.
Qed.

Lemma stft_to_one_channel_averages_the_bins_witness :
  stft_to_one_channel (fun l => cx 0 0) true (mk_world stft_signal []) =
  (inr (mk_ndarray [1; 1]%nat [cx 0 0]),
   mk_world (with_stft_data (Some (mk_ndarray [1; 1; 1]%nat [cx 0 0])) stft_signal) []) /\
  List.length [cx 0 0] = (1 * 1)%nat.
Proof.
  apply (stft_to_one_channel_averages_the_bins (fun l => cx 0 0) stft_signal [] small_stft
           2 1 1 true); reflexivity.
Defined.

(** ** The forward transform *)

Lemma flat_map_flat_map {A B C} (g : B -> list C) (h : A -> list B) (l : list A) :
  flat_map g (flat_map h l) = flat_map (fun x => flat_map g (h x)) l.
Proof.
  induction l as [| x l IH]; cbn [flat_map]; [reflexivity |].
  now rewrite flat_map_app, IH.
Qed.

Lemma flat_map_map {A B C} (g : B -> list C) (f : A -> B) (l : list A) :
  flat_map g (map f l) = flat_map (fun x => g (f x)) l.
Proof. induction l as [| x l IH]; cbn; [reflexivity | now rewrite IH]. Qed.

Lemma flat_map_ext_in {A B} (f g : A -> list B) (l : list A) :
  (forall x, In x l -> f x = g x) -> flat_map f l = flat_map g l.
Proof.
  induction l as [| x l IH]; intros H; cbn [flat_map]; [reflexivity |].
  rewrite H, IH by auto with datatypes. reflexivity.
Qed.

Lemma flat_map_singleton {A B} (f : A -> B) (l : list A) :
  flat_map (fun x => [f x]) l = map f l.
Proof. induction l as [| x l IH]; cbn; [reflexivity | now rewrite IH]. Qed.

Lemma flat_map_indices_cons {B} (g : list nat -> list B) d rest :
  flat_map g (indices (d :: rest)) =
  flat_map (fun i => flat_map (fun idx => g (i :: idx)) (indices rest)) (seq 0 d).
Proof.
  cbn [indices]. rewrite flat_map_flat_map. apply flat_map_ext_in.
  intros i _. apply flat_map_map.
Qed.

Lemma nth_error_rows {A} (rec : nat -> list A) (len a c i j : nat) :
  (forall k, (a <= k < a + c)%nat -> List.length (rec k) = len) ->
  (i < c)%nat -> (j < len)%nat ->
  nth_error (flat_map rec (seq a c)) (i * len + j) = nth_error (rec (a + i)%nat) j.
Proof.
  revert a i. induction c as [| c IH]; intros a i Hlen Hi Hj; [lia |].
  cbn [seq flat_map]. destruct i as [| i].
  - rewrite nth_error_app1 by (rewrite Hlen; lia). now rewrite Nat.add_0_r.
  - rewrite nth_error_app2 by (rewrite Hlen; nia).
    rewrite Hlen by lia.
    replace (S i * len + j - len)%nat with (i * len + j)%nat by (cbn [Nat.mul]; lia).
    rewrite IH by (try (intros k Hk; apply Hlen); lia).
    f_equal. f_equal. lia.
Qed.

Lemma firstn_skipn_nth {A} (d : A) (l : list A) (k len : nat) :
  (k + len <= List.length l)%nat ->
  firstn len (skipn k l) = map (fun j => nth (k + j) l d) (seq 0 len).
Proof.
  intros H. apply (nth_ext _ _ d (nth (k + 0) l d)).
  - rewrite length_firstn, length_skipn, length_map, length_seq. lia.
  - intros p Hp. rewrite length_firstn, length_skipn in Hp.
    rewrite nth_firstn. replace (p <? len)%nat with true by (symmetry; apply Nat.ltb_lt; lia).
    rewrite nth_skipn.
    rewrite (map_nth (fun j => nth (k + j) l d) (seq 0 len) 0%nat p).
    rewrite seq_nth by lia. reflexivity.
Qed.

(** Reading a buffer of [b * len] elements row by row, element by element,
    gives the buffer. *)
Lemma enumerate_rows {A} (d : A) (l : list A) (b len : nat) :
  List.length l = (b * len)%nat ->
  flat_map (fun i => flat_map (fun j => [nth (i * len + j) l d]) (seq 0 len)) (seq 0 b) = l.
Proof.
  intros H.
  rewrite (flat_map_ext_in _ (fun i => firstn len (skipn (i * len) l))).
  - rewrite flat_map_concat_map, <- chunks_as_rows, concat_chunks.
    apply firstn_all2. lia.
  - intros i Hi. apply in_seq in Hi. rewrite flat_map_singleton.
    symmetry. apply firstn_skipn_nth. nia.
Qed.

Lemma pick_of_map {A} (h : nat -> A) (c i : nat) :
  (i < c)%nat -> firstn 1 (skipn i (map h (seq 0 c))) = [h i].
Proof.
  intros Hi. rewrite (firstn_skipn_nth (h 0%nat)) by (rewrite length_map, length_seq; lia).
  cbn [seq map]. rewrite Nat.add_0_r.
  rewrite (map_nth h (seq 0 c) 0%nat i), seq_nth by lia. reflexivity.
Qed.

(** The buffer of the per-channel arrays [rec 0 .. rec (c-1)], each of [b]
    rows of [len] elements, with the channel as the last axis. *)
Definition channels_last {A} (d : A) (c b len : nat) (rec : nat -> list A) : list A :=
  flat_map (fun i =>
              flat_map (fun j => map (fun k => nth (i * len + j) (rec k) d) (seq 0 c))
                       (seq 0 len))
           (seq 0 b).

Lemma transpose_stacked {A} (d : A) (c b len : nat) (rec : nat -> list A) :
  (forall k, (k < c)%nat -> List.length (rec k) = (b * len)%nat) ->
  np.transpose_axes (mk_ndarray [c; b; len] (flat_map rec (seq 0 c))) [1; 2; 0]%nat =
  Some (mk_ndarray [b; len; c] (channels_last d c b len rec)).
Proof.
  intros Hlen. unfold np.transpose_axes, ndim.
  cbn [shape List.length np.is_permutation Nat.eqb andb forallb seq existsb orb map nth flat].
  do 2 f_equal. unfold channels_last.
  rewrite flat_map_indices_cons. apply flat_map_ext_in. intros i Hi. apply in_seq in Hi.
  rewrite flat_map_indices_cons. apply flat_map_ext_in. intros j Hj. apply in_seq in Hj.
  rewrite flat_map_indices_cons. rewrite <- flat_map_singleton.
  apply flat_map_ext_in. intros k Hk. apply in_seq in Hk.
  cbn [indices flat_map map np.index_of Nat.eqb nth]. rewrite app_nil_r.
  unfold item. cbn [shape flat offset_from].
  replace ((0 * c + k) * b + i)%nat with (k * b + i)%nat by lia.
  replace ((k * b + i) * len + j)%nat with (k * (b * len) + (i * len + j))%nat by nia.
  rewrite (nth_error_rows rec (b * len) 0 c k (i * len + j))
    by (try (intros q Hq; apply Hlen); nia).
  cbn [Nat.add].
  rewrite (nth_error_nth' (rec k) d) by (rewrite Hlen by lia; nia).
  reflexivity.
Qed.

Lemma concat_flat_map {A B} (f : A -> list (list B)) (l : list A) :
  List.concat (flat_map f l) = flat_map (fun x => List.concat (f x)) l.
Proof.
  induction l as [| x l IH]; cbn [flat_map List.concat]; [reflexivity |].
  now rewrite concat_app, IH.
Qed.

Lemma take_channel_of_channels_last {A} (d : A) (c b len : nat) (rec : nat -> list A) i :
  (forall k, (k < c)%nat -> List.length (rec k) = (b * len)%nat) -> (i < c)%nat ->
  np.take_axis (mk_ndarray [b; len; c] (channels_last d c b len rec)) STFT_CHAN_INDEX i =
  Some (mk_ndarray [b; len] (rec i)).
Proof.
  intros Hlen Hi. unfold np.take_axis, np.blocks, np.outer, np.inner, STFT_CHAN_INDEX.
  cbn [shape flat nth_error firstn skipn size_of fold_right app].
  apply Nat.ltb_lt in Hi as Hi'. rewrite Hi'. do 2 f_equal.
  rewrite !Nat.mul_1_r.
  set (groups := flat_map (fun p => map (fun j => map (fun k => nth (p * len + j) (rec k) d)
                                                      (seq 0 c))
                                        (seq 0 len))
                          (seq 0 b)).
  assert (Hflat : channels_last d c b len rec = List.concat groups).
  { unfold channels_last, groups. rewrite concat_flat_map.
    apply flat_map_ext_in. intros p _. now rewrite flat_map_concat_map. }
  assert (Hcount : List.length groups = (b * len)%nat).
  { unfold groups. rewrite (length_flat_map_uniform _ len), length_seq; [reflexivity |].
    intros p _. now rewrite length_map, length_seq. }
  assert (Hgroup : forall g, In g groups -> List.length g = c).
  { intros g Hg. unfold groups in Hg. apply in_flat_map in Hg as (p & _ & Hg).
    apply in_map_iff in Hg as (j & <- & _). now rewrite length_map, length_seq. }
  rewrite Hflat, <- Hcount, (chunks_concat c groups Hgroup).
  unfold groups. rewrite flat_map_flat_map.
  rewrite <- (enumerate_rows d (rec i) b len) by (now apply Hlen).
  apply flat_map_ext_in. intros p _. rewrite flat_map_map.
  apply flat_map_ext_in. intros j _.
  exact (pick_of_map (fun k => nth (p * len + j) (rec k) d) c i Hi).
Qed.

Lemma stack_same_shape {A} (sh : list nat) (l : list (ndarray A)) :
  l <> [] -> (forall a, In a l -> shape a = sh) ->
  np.stack l = Some (mk_ndarray (List.length l :: sh) (flat_map (@flat A) l)).
Proof.
  intros Hne Hall. destruct l as [| a0 l']; [congruence |].
  unfold np.stack.
  assert (H0 : shape a0 = sh) by (apply Hall; now left).
  replace (forallb _ (a0 :: l')) with true; [now rewrite H0 |].
  symmetry. apply forallb_forall. intros a Ha.
  apply shape_eqb_true. rewrite H0. now apply Hall.
Qed.

Definition czero : complex := mk_complex 0 0.

(** The per-channel transform [f] turns channel [i] of [a] into [b] rows
    of [len] numbers, [rec i]. *)
Definition analyses
           (f : bool -> array -> Z -> Z -> string -> Z -> bool -> result (ndarray complex))
           (use_librosa : bool) (wl hl : Z) (wt : string) (nf : Z) (rr : bool)
           (a : array) (c b len : nat) (rec : nat -> list complex) : Prop :=
  forall i, (i < c)%nat ->
    f use_librosa (arr_row i a) wl hl wt nf rr = inr (mk_ndarray [b; len] (rec i)) /\
    List.length (rec i) = (b * len)%nat.

Lemma do_stft_run f ul wl hl wt nf rr s log a c n b len rec :
  holds_full s a c n -> (1 <= c)%nat -> (1 <= n)%nat ->
  analyses f ul wl hl wt nf rr a c b len rec ->
  _do_stft f wl hl wt nf rr ul (mk_world s log) =
  (inr (mk_ndarray [b; len; c] (channels_last czero c b len rec)), mk_world s log).
Proof.
  intros H Hc Hn Hrec. pose proof H as (_ & Hs & _). unfold _do_stft.
  assert (Hsize : (arr_size a =? 0)%nat = false)
    by (apply Nat.eqb_neq; unfold arr_size; rewrite Hs; cbn; nia).
  erewrite bind_ok by exact (audio_data_full s a c n (mk_world s log) H eq_refl).
  cbn beta iota. rewrite Hsize.
  erewrite bind_ok by reflexivity.
  erewrite bind_ok by exact (channel_range_full (mk_world s log) a c n H).
  erewrite bind_ok.
  2:{ apply (for_collect_reads_map _ _ (fun i => mk_ndarray [b; len] (rec (Z.to_nat i)))).
      intros x Hx. unfold range in Hx. rewrite Nat2Z.id in Hx.
      apply in_map_iff in Hx as (i & <- & Hi). apply in_seq in Hi.
      erewrite bind_ok by (apply (get_channel_row (mk_world s log) a c n i H); lia).
      destruct (Hrec i ltac:(lia)) as [-> _]. now rewrite Nat2Z.id. }
  unfold range. rewrite Nat2Z.id, map_map.
  rewrite (stack_same_shape [b; len]).
  - rewrite length_map, length_seq, flat_map_map. cbn [flat].
    erewrite flat_map_ext_in by (intros i _; rewrite Nat2Z.id; reflexivity).
    rewrite (transpose_stacked czero c b len rec) by (intros k Hk; apply Hrec; exact Hk).
    reflexivity.
  - destruct c; [lia | discriminate].
  - intros x Hx. apply in_map_iff in Hx as (i & <- & _). reflexivity.
Qed.

(** [stft] on an object holding [c >= 1] channels of [n >= 1] samples
    under a default region, with a per-channel transform that yields [b]
    rows of [len] numbers: the result has shape (b, len, c), with the
    channel as the last axis, and its channel [i] is the transform of
    channel [i] of the samples.  With [overwrite] it becomes [stft_data],
    where [get_stft_channel(i)] finds that transform again; the samples and
    the region are not touched. *)
Theorem stft_puts_the_channel_last :
  forall f s log a c n b len rec
         window_length hop_length window_type n_fft_bins
         (remove_reflection overwrite use_librosa : bool),
    holds_full s a c n -> (1 <= c)%nat -> (1 <= n)%nat ->
    analyses f use_librosa
      (or_default window_length (stft_utils.window_length (stft_params s)))
      (or_default hop_length (stft_utils.hop_length (stft_params s)))
      (or_default window_type (stft_utils.window_type (stft_params s)))
      (or_default n_fft_bins (stft_utils.n_fft_bins (stft_params s)))
      remove_reflection a c b len rec ->
    let T := mk_ndarray [b; len; c] (channels_last czero c b len rec) in
    stft f window_length hop_length window_type n_fft_bins remove_reflection overwrite
         use_librosa (mk_world s log) =
    (inr T, mk_world (if overwrite then with_stft_data (Some T) s else s) log) /\
    (forall i, (i < c)%nat ->
               np.take_axis T STFT_CHAN_INDEX i = Some (mk_ndarray [b; len] (rec i))) /\
    (forall i, (i < c)%nat ->
               eval (get_stft_channel (Z.of_nat i)) (with_stft_data (Some T) s) =
               inr (mk_ndarray [b; len] (rec i))).
Proof.
  intros f s log a c n b len rec wl hl wt nf rr ow ul H Hc Hn Hrec T.
  pose proof H as (_ & Hs & _).
  assert (Hlen : forall k, (k < c)%nat -> List.length (rec k) = (b * len)%nat)
    by (intros k Hk; now apply Hrec).
  assert (Htake : forall i, (i < c)%nat ->
            np.take_axis T STFT_CHAN_INDEX i = Some (mk_ndarray [b; len] (rec i)))
    by (intros i Hi; now apply take_channel_of_channels_last).
  refine (conj _ (conj Htake _)).
  - unfold stft.
    assert (Hsize : (arr_size a =? 0)%nat = false)
      by (apply Nat.eqb_neq; unfold arr_size; rewrite Hs; cbn; nia).
    erewrite bind_ok by exact (audio_data_full s a c n (mk_world s log) H eq_refl).
    cbn beta iota. rewrite Hsize.
    erewrite bind_ok by reflexivity.
    erewrite bind_ok by reflexivity.
    erewrite bind_ok
      by exact (do_stft_run f ul _ _ _ _ rr s log a c n b len rec H Hc Hn Hrec).
    fold T. destruct ow; [| reflexivity].
    erewrite bind_ok by (apply (stft_data_setter_keeps T); now right).
    reflexivity.
  - intros i Hi.
    apply (eval_get_stft_channel _ T b len c i); auto.
    apply (eval_num_channels_full _ a c n).
    destruct H as (H1 & H2 & H3 & H4 & H5). repeat split; assumption.
Qed.

(** A transform for the instances below: two bins and one hop, the first
    sample of the channel in the first bin. *)
Definition first_sample_stft (use_librosa : bool) (chan : array) (wl hl : Z) (wt : string)
           (nf : Z) (rr : bool) : result (ndarray complex) :=
  inr (mk_ndarray [2; 1]%nat [cx (hd 0%float (flat (np.astype_float chan))) 0; cx 0 0]).

Definition first_sample_bins (i : nat) : list complex :=
  [cx (hd 0%float (flat (np.astype_float (arr_row i stereo_samples)))) 0; cx 0 0].

Lemma stft_puts_the_channel_last_witness :
  let T := mk_ndarray [2; 1; 2]%nat (channels_last czero 2 2 1 first_sample_bins) in
  stft first_sample_stft None None None None true true false (mk_world stereo4 []) =
  (inr T, mk_world (with_stft_data (Some T) stereo4) []) /\
  (forall i, (i < 2)%nat ->
             np.take_axis T STFT_CHAN_INDEX i =
             Some (mk_ndarray [2; 1]%nat (first_sample_bins i))) /\
  (forall i, (i < 2)%nat ->
             eval (get_stft_channel (Z.of_nat i)) (with_stft_data (Some T) stereo4) =
             inr (mk_ndarray [2; 1]%nat (first_sample_bins i))).
Proof.
  apply (stft_puts_the_channel_last first_sample_stft stereo4 [] stereo_samples 2 4 2 1
           first_sample_bins None None None None true true false stereo4_holds).
  - lia.
  - lia.
  - intros i Hi. split; reflexivity.
Defined.

(** ** A channel as a signal of its own *)

Lemma row_finite i a : np.isfinite_all a = true -> np.isfinite_all (arr_row i a) = true.
Proof.
  destruct a as [x | x]; [reflexivity |]. cbn [np.isfinite_all arr_row lift row flat].
  intros H. now apply forallb_firstn, forallb_skipn.
Qed.

Lemma arr_shape_row i a c n : arr_shape a = [c; n] -> arr_shape (arr_row i a) = [n].
Proof. intros Hs. destruct a; cbn in *; now rewrite Hs. Qed.

(** Channel [i] of the samples as a one-channel array. *)
Definition channel_samples (i : nat) (a : array) : array :=
  lift (fun A x => np.expand_dims x CHAN_INDEX) (arr_row i a).

(** [make_audio_signal_from_channel(i)] on an object holding [c] finite
    channels of [n] samples under a default region and a time-frequency
    array of shape (b, len, c): an index outside [0, c) raises ValueError;
    for one inside, the new object is mono, holds channel [i] of the samples
    as a (1, n) array under a default region and channel [i] of the
    time-frequency array as a (b, len, 1) array; the receiver is not
    changed. *)
Theorem make_audio_signal_from_channel_is_mono :
  forall s log v c n t b len,
    holds_full s v c n -> np.isfinite_all v = true ->
    _stft_data s = Some t -> shape t = [b; len; c] ->
    (forall i, Z.of_nat c <= i ->
               make_audio_signal_from_channel i (mk_world s log) =
               (inl (ValueError Msg.channel_bounds), mk_world s log)) /\
    (forall i, (i < c)%nat ->
       exists ch new,
         np.take_axis t STFT_CHAN_INDEX i = Some ch /\
         make_audio_signal_from_channel (Z.of_nat i) (mk_world s log) =
         (inr new, mk_world s log) /\
         _audio_data new = Some (channel_samples i v) /\
         arr_shape (channel_samples i v) = [1; n]%nat /\
         _stft_data new = Some (mk_ndarray [b; len; 1%nat] (flat ch)) /\
         _active_start new = Some 0 /\ _active_end new = Some (Z.of_nat n) /\
         eval is_mono new = inr true).
Proof.
  intros s log v c n t b len H Hf Ht Hst. pose proof H as (_ & Hs & _). split.
  - intros i Hi. unfold make_audio_signal_from_channel.
    erewrite bind_ok by reflexivity.
    erewrite bind_err by exact (get_channel_out_of_bounds (mk_world s log) v c n i H Hi).
    reflexivity.
  - intros i Hi.
    destruct (take_axis_in_bounds t STFT_CHAN_INDEX c i) as [ch Hch];
      [now rewrite Hst | exact Hi |].
    assert (Hchs : shape ch = [b; len]).
    { unfold np.take_axis in Hch. rewrite Hst in Hch. cbn [nth_error STFT_CHAN_INDEX] in Hch.
      destruct (i <? c)%nat; [| discriminate]. now inversion Hch. }
    exists ch. eexists. split; [exact Hch |]. split.
    + unfold make_audio_signal_from_channel.
      erewrite bind_ok by reflexivity.
      erewrite bind_ok by exact (get_channel_row (mk_world s log) v c n i H Hi).
      erewrite bind_ok.
      2:{ apply with_object_ok.
          apply (audio_data_setter_rank1 (arr_row i v) n);
            [now apply row_finite | exact (arr_shape_row i v c n Hs)]. }
      cbn [snd self warned].
      erewrite bind_ok.
      2:{ apply reads_run; [apply reads_get_stft_channel |]. cbn [self].
          apply (eval_get_stft_channel s t b len c i ch Ht Hst); auto.
          exact (eval_num_channels_full s v c n H). }
      erewrite bind_ok.
      2:{ apply with_object_ok. exact (stft_data_setter_rank2 ch _ b len Hchs). }
      reflexivity.
    + assert (Hshape : arr_shape (channel_samples i v) = [1; n]%nat).
      { unfold channel_samples. destruct v as [x | x]; cbn in *; now rewrite Hs. }
      cbn [snd self _audio_data _stft_data _active_start _active_end with_stft_data
           with_active_end with_active_start with_audio_data].
      refine (conj eq_refl (conj Hshape (conj eq_refl (conj eq_refl (conj eq_refl _))))).
      unfold is_mono. rewrite eval_bind by apply reads_num_channels.
      erewrite (eval_num_channels_view _ (arr_columns 0 n (channel_samples i v)) 1 (n - 0));
        [reflexivity | | exact (arr_shape_columns _ 1 n 0 n Hshape)].
      unfold views.
      rewrite (eval_audio_data_region _ (channel_samples i v) 1 n 0 (Z.of_nat n));
        try reflexivity; try lia; [| exact Hshape].
      now rewrite Nat2Z.id.
Qed.

Lemma make_audio_signal_from_channel_is_mono_witness :
  make_audio_signal_from_channel 1 (mk_world stft_signal []) =
  (inl (ValueError Msg.channel_bounds), mk_world stft_signal []) /\
  exists ch new,
    np.take_axis small_stft STFT_CHAN_INDEX 0 = Some ch /\
    make_audio_signal_from_channel (Z.of_nat 0) (mk_world stft_signal []) =
    (inr new, mk_world stft_signal []) /\
    _audio_data new = Some (channel_samples 0 wide) /\
    arr_shape (channel_samples 0 wide) = [1; 4]%nat /\
    _stft_data new = Some (mk_ndarray [2; 1; 1]%nat (flat ch)) /\
    _active_start new = Some 0 /\ _active_end new = Some (Z.of_nat 4) /\
    eval is_mono new = inr true.
Proof.
  destruct (make_audio_signal_from_channel_is_mono stft_signal [] wide 1 4 small_stft 2 1)
    as (Hout & Hin).
  - repeat split.
  - reflexivity.
  - reflexivity.
  - reflexivity.
  - split; [apply (Hout 1); lia | apply (Hin 0%nat); lia].
Defined.

(** ** Construction *)

Definition given {A} (o : option A) : bool :=
  match o with Some _ => true | None => false end.

(** The constructor accepts at most one of a path, a sample array and a
    time-frequency array, whatever the file loader does: with two or three
    of them it raises ValueError and the object holds no data.  With none,
    the object holds no data, the default sample rate and no region bounds.
    With only a rank-3 time-frequency array, that array is stored and
    nothing else.  With only a float array of [c <= n] finite channels, the
    samples are stored under a default region with the sample rate given,
    or else the default one. *)
Theorem init_takes_at_most_one_source :
  forall (DEFAULT_SAMPLE_RATE : Z) (USE_LIBROSA_STFT : bool)
         (load_audio_from_file : string -> pynum -> option pynum -> option Z -> M unit)
         (StftParams_init : option Z -> stft_utils.StftParams)
         path audio stft sr sp offset duration w,
    let init := __init__ DEFAULT_SAMPLE_RATE USE_LIBROSA_STFT load_audio_from_file
                         StftParams_init path audio stft sr sp offset duration in
    let params r := match sp with None => StftParams_init r | Some p => p end in
    ((2 <= count_true [given path; given audio; given stft])%nat ->
     fst (init w) = inl (ValueError Msg.init_sources) /\
     _audio_data (self (snd (init w))) = None /\
     _stft_data (self (snd (init w))) = None /\
     warned (snd (init w)) = warned w) /\
    (path = None -> audio = None -> stft = None ->
     init w =
     (inr tt,
      mk_world (mk_AudioSignal None None None (Some DEFAULT_SAMPLE_RATE) None None
                               (params (Some DEFAULT_SAMPLE_RATE)) USE_LIBROSA_STFT)
               (warned w))) /\
    (forall t, path = None -> audio = None -> stft = Some t -> ndim t = 3%nat ->
     init w =
     (inr tt,
      mk_world (mk_AudioSignal None None (Some t) (Some DEFAULT_SAMPLE_RATE) None None
                               (params (Some DEFAULT_SAMPLE_RATE)) USE_LIBROSA_STFT)
               (warned w))) /\
    (forall x c n, path = None -> audio = Some (FloatArr x) -> stft = None ->
     shape x = [c; n] -> (c <= n)%nat -> forallb is_finite (flat x) = true ->
     let rate := match sr with Some r => r | None => DEFAULT_SAMPLE_RATE end in
     init w =
     (inr tt,
      mk_world (mk_AudioSignal None (Some (FloatArr x)) None (Some rate)
                               (Some 0) (Some (Z.of_nat n))
                               (params (Some rate)) USE_LIBROSA_STFT)
               (warned w))).
Proof.
  intros D U load mkparams path audio stft sr sp offset duration w init params.
  refine (conj _ (conj _ (conj _ _))).
  - intros Hcount. unfold init, __init__.
    destruct path, audio, stft; cbn in Hcount; try lia; repeat split.
  - intros -> -> ->. reflexivity.
  - intros t -> -> -> Ht. unfold init, __init__. exec. cbn [count_true filter List.length Nat.ltb Nat.leb].
    exec. rewrite (stft_data_setter_keeps t _ (or_intror Ht)). reflexivity.
  - intros x c n -> -> -> Hs Hle Hf rate. unfold init, __init__.
    do 7 (erewrite bind_ok by reflexivity).
    erewrite bind_ok
      by exact (load_audio_from_array_stores D (FloatArr x) sr (FloatArr x) c n _
                  eq_refl Hf Hs Hle).
    reflexivity.
Qed.

Lemma init_takes_at_most_one_source_witness :
  fst (__init__ 44100 false (fun _ _ _ _ => ret tt) (fun _ => example_params)
                None (Some wide) (Some small_stft) None None (PyInt 0) None empty_world) =
  inl (ValueError Msg.init_sources) /\
  __init__ 44100 false (fun _ _ _ _ => ret tt) (fun _ => example_params)
           None None None None None (PyInt 0) None empty_world =
  (inr tt,
   mk_world (mk_AudioSignal None None None (Some 44100) None None example_params false) []).
Proof.
  destruct (init_takes_at_most_one_source 44100 false (fun _ _ _ _ => ret tt)
              (fun _ => example_params) None (Some wide) (Some small_stft) None None
              (PyInt 0) None empty_world) as (Htwo & _).
  destruct (init_takes_at_most_one_source 44100 false (fun _ _ _ _ => ret tt)
              (fun _ => example_params) None None None None None
              (PyInt 0) None empty_world) as (_ & Hnone & _).
  split.
  - apply Htwo. cbn. lia.
  - apply Hnone; reflexivity.
Defined.

(** ** Transforms need data *)

(** [stft] is refused with ValueError, and nothing changes, in every state
    where [has_audio_data] reads [False]; [istft] likewise where
    [has_stft_data] reads [False]; whatever the per-channel transforms
    are. *)
Theorem transforms_need_data :
  forall stft_func istft_func s log wl hl wt nf rr ow ul tl,
    (eval has_audio_data s = inr false ->
     stft stft_func wl hl wt nf rr ow ul (mk_world s log) =
     (inl (ValueError Msg.no_signal), mk_world s log)) /\
    (eval has_stft_data s = inr false ->
     istft istft_func wl hl wt ow ul tl (mk_world s log) =
     (inl (ValueError Msg.no_stft), mk_world s log)).
Proof.
  intros stft_func istft_func s log wl hl wt nf rr ow ul tl. split.
  - intros H. unfold has_audio_data in H.
    rewrite eval_bind in H by apply reads_audio_data.
    destruct (eval audio_data s) as [e | a] eqn:Ea; [discriminate |].
    unfold stft.
    erewrite bind_ok by (apply reads_run; [apply reads_audio_data | exact Ea]).
    erewrite bind_err; [reflexivity |].
    destruct a as [a' |]; [| reflexivity].
    unfold eval, ret in H. cbn in H. injection H as H.
    apply negb_false_iff in H. now rewrite H.
  - intros H. unfold has_stft_data, eval, stft_data in H. cbn in H. injection H as H.
    unfold istft.
    erewrite bind_ok by (apply reads_run; [apply reads_stft_data | reflexivity]).
    cbn [self].
    erewrite bind_err; [reflexivity |].
    destruct (_stft_data s) as [t |]; [| reflexivity].
    apply negb_false_iff in H. now rewrite H.
Qed.

Lemma transforms_need_data_witness :
  stft first_sample_stft None None None None true true false (mk_world empty_signal []) =
  (inl (ValueError Msg.no_signal), mk_world empty_signal []) /\
  istft silent_istft None None None true false None (mk_world mono4 []) =
  (inl (ValueError Msg.no_stft), mk_world mono4 []).
Proof.
  split.
  - apply (proj1 (transforms_need_data first_sample_stft silent_istft empty_signal []
                    None None None None true true false None)).
    reflexivity.
  - apply (proj2 (transforms_need_data first_sample_stft silent_istft mono4 []
                    None None None None true true false None)).
    reflexivity.
Defined.

(** ** Resampling *)

(** [resample], for any per-channel resampler.  Asked for the sample rate
    the object already has, it warns and changes nothing.  Asked for
    another one on an object holding [c >= 1] channels under a default
    region, with a resampler that yields [m >= c] finite samples a channel,
    it stores the [c] resampled channels in order, under a default region,
    and only then sets the new sample rate. *)
Theorem resample_keeps_the_channels :
  forall (librosa_resample : array -> option Z -> Z -> result (ndarray float)) s log,
    (forall r, _sample_rate s = Some r ->
               resample librosa_resample r (mk_world s log) =
               (inr tt, mk_world s (log ++ [Msg.resample_same]))) /\
    (forall a c n new m rec,
        holds_full s a c n -> (1 <= c)%nat -> (c <= m)%nat ->
        _sample_rate s <> Some new ->
        (forall i, (i < c)%nat ->
                   librosa_resample (arr_row i a) (_sample_rate s) new =
                   inr (mk_ndarray [m] (rec i)) /\
                   List.length (rec i) = m /\ forallb is_finite (rec i) = true) ->
        resample librosa_resample new (mk_world s log) =
        (inr tt,
         mk_world (with_sample_rate (Some new)
                     (with_samples (FloatArr (mk_ndarray [c; m] (flat_map rec (seq 0 c)))) m s))
                  log)).
Proof.
  intros f s log. split.
  - intros r Hr. unfold resample.
    erewrite bind_ok by (apply reads_run; [apply reads_sample_rate | reflexivity]).
    cbn [self]. rewrite Hr. cbn [opt_eqb]. now rewrite Z.eqb_refl.
  - intros a c n new m rec H Hc Hm Hr Hrec. unfold resample.
    erewrite bind_ok by (apply reads_run; [apply reads_sample_rate | reflexivity]).
    cbn [self].
    replace (opt_eqb (Some new) (_sample_rate s)) with false.
    2:{ destruct (_sample_rate s) as [r |]; [| reflexivity]. cbn [opt_eqb].
        symmetry. apply Z.eqb_neq. congruence. }
    erewrite bind_ok by exact (channel_range_full (mk_world s log) a c n H).
    erewrite bind_ok.
    2:{ apply (for_collect_reads_map _ _ (fun i => mk_ndarray [m] (rec (Z.to_nat i)))).
        intros x Hx. unfold range in Hx. rewrite Nat2Z.id in Hx.
        apply in_map_iff in Hx as (i & <- & Hi). apply in_seq in Hi.
        erewrite bind_ok by (apply (get_channel_row (mk_world s log) a c n i H); lia).
        erewrite bind_ok by (apply reads_run; [apply reads_sample_rate | reflexivity]).
        cbn [self]. destruct (Hrec i ltac:(lia)) as [-> _]. now rewrite Nat2Z.id. }
    unfold range. rewrite Nat2Z.id, map_map.
    rewrite (stack_uniform m).
    + rewrite length_map, length_seq, flat_map_map. cbn [flat].
      erewrite flat_map_ext_in by (intros i _; rewrite Nat2Z.id; reflexivity).
      erewrite bind_ok.
      2:{ apply (audio_data_setter_rank2 _ c m); [| reflexivity | exact Hm].
          cbn [np.isfinite_all flat]. apply forallb_flat_map_in.
          intros i Hi. apply in_seq in Hi. apply Hrec. lia. }
      reflexivity.
    + destruct c; [lia | discriminate].
    + intros x Hx. apply in_map_iff in Hx as (i & <- & _). reflexivity.
Qed.

(** A resampler for the instances below: it keeps every other sample. *)
Fixpoint every_other {A} (l : list A) : list A :=
  match l with
  | x :: _ :: rest => x :: every_other rest
  | _ => l
  end.

Definition halve (chan : array) (orig_sr : option Z) (target_sr : Z) : result (ndarray float) :=
  let l := every_other (flat (np.astype_float chan)) in
  inr (mk_ndarray [List.length l] l).

Lemma resample_keeps_the_channels_witness :
  resample halve 44100 (mk_world (with_sample_rate (Some 44100) mono4) []) =
  (inr tt, mk_world (with_sample_rate (Some 44100) mono4) [Msg.resample_same]) /\
  resample halve 22050 (mk_world (with_sample_rate (Some 44100) mono4) []) =
  (inr tt,
   mk_world (with_sample_rate (Some 22050)
               (with_samples (float_array [1; 2]%nat [1; 3]%float) 2
                             (with_sample_rate (Some 44100) mono4))) []).
Proof.
  destruct (resample_keeps_the_channels halve (with_sample_rate (Some 44100) mono4) [])
    as (Hsame & Hnew).
  split.
  - apply (Hsame 44100). reflexivity.
  - apply (Hnew wide 1%nat 4%nat 22050 2%nat (fun _ => [1; 3]%float)).
    + repeat split.
    + lia.
    + lia.
    + discriminate.
    + intros i Hi. assert (i = 0%nat) as -> by lia. repeat split.
Defined.

(** ** The stored samples stay finite *)

(** Every sample the object holds is finite. *)
Definition stored_finite (s : AudioSignal) : Prop :=
  forall a, _audio_data s = Some a -> np.isfinite_all a = true.

Lemma item_in {A} (x : ndarray A) idx y : In y (item x idx) -> In y (flat x).
Proof.
  unfold item. destruct (nth_error (flat x) (offset_from 0 (shape x) idx)) as [z |] eqn:E;
    [| intros []].
  intros [<- | []]. exact (nth_error_In _ _ E).
Qed.

Lemma transpose_finite v :
  np.isfinite_all v = true -> np.isfinite_all (lift (@np.transpose) v) = true.
Proof.
  destruct v as [x | x]; [reflexivity |]. cbn [np.isfinite_all lift np.transpose flat].
  intros H. apply forallb_flat_map_in. intros idx _.
  apply forallb_forall. intros y Hy. apply item_in in Hy.
  exact (proj1 (forallb_forall _ _) H y Hy).
Qed.

Lemma expand_dims_finite v k :
  np.isfinite_all v = true ->
  np.isfinite_all (lift (fun A x => np.expand_dims x k) v) = true.
Proof. now destruct v. Qed.

Lemma set_active_region_to_default_audio w :
  _audio_data (self (snd (set_active_region_to_default w))) = _audio_data (self w).
Proof.
  destruct (_audio_data (self w)) as [a |] eqn:Ea.
  - destruct (nth_error (arr_shape a) LEN_INDEX) as [d |] eqn:Ed.
    + now rewrite (set_active_region_to_default_some w a d Ea Ed).
    + now rewrite (set_active_region_to_default_rank w a Ea Ed).
  - now rewrite (set_active_region_to_default_none w Ea).
Qed.

Lemma set_active_region_audio start stop w :
  _audio_data (self (snd (set_active_region start stop w))) = _audio_data (self w).
Proof.
  destruct (_audio_data (self w)) as [a |] eqn:Ea.
  - destruct (nth_error (arr_shape a) LEN_INDEX) as [d |] eqn:Ed.
    + now rewrite (set_active_region_some start stop w a d Ea Ed).
    + now rewrite (set_active_region_rank start stop w a Ea Ed).
  - now rewrite (set_active_region_none start stop w Ea).
Qed.

Lemma finite_set_active_region_to_default :
  triple stored_finite set_active_region_to_default (fun _ => True).
Proof.
  intros w Hw. split; [| auto]. intros a.
  rewrite set_active_region_to_default_audio. apply Hw.
Qed.

Lemma finite_set_active_region start stop :
  triple stored_finite (set_active_region start stop) (fun _ => True).
Proof.
  intros w Hw. split; [| auto]. intros a. rewrite set_active_region_audio. apply Hw.
Qed.

Lemma finite_audio_data_setter v :
  triple stored_finite (audio_data_setter v) (fun _ => True).
Proof.
  intros w Hw. split; [| auto].
  destruct v as [| v |]; cbn [audio_data_setter].
  - exec. intros a. discriminate.
  - exec. destruct (np.isfinite_all v) eqn:Hf; exec; [| exact Hw].
    destruct ((1 <? arr_ndim v)%nat &&
              (nth LEN_INDEX (arr_shape v) 0 <? nth CHAN_INDEX (arr_shape v) 0)%nat); exec.
    + destruct (2 <? arr_ndim (lift (@np.transpose) v))%nat; exec; [exact Hw |].
      intros a. rewrite set_active_region_to_default_audio. cbn [self _audio_data with_audio_data].
      intros [= <-].
      destruct (arr_ndim (lift (@np.transpose) v) <? 2)%nat;
        [apply expand_dims_finite |]; now apply transpose_finite.
    + destruct (2 <? arr_ndim v)%nat; exec; [exact Hw |].
      intros a. rewrite set_active_region_to_default_audio. cbn [self _audio_data with_audio_data].
      intros [= <-].
      destruct (arr_ndim v <? 2)%nat; [apply expand_dims_finite |]; exact Hf.
  - exec. exact Hw.
Qed.

Lemma finite_stft_data_setter v :
  triple stored_finite (stft_data_setter v) (fun _ => True).
Proof.
  intros w Hw. split; [| auto].
  destruct v as [| v |]; cbn [stft_data_setter]; exec; [exact Hw | | exact Hw].
  destruct (ndim v =? 1)%nat; exec; [exact Hw |].
  destruct (3 <? ndim (if (ndim v =? 2)%nat then np.expand_dims v STFT_CHAN_INDEX else v))%nat;
    exec; exact Hw.
Qed.

Lemma finite_modify_other (f : AudioSignal -> AudioSignal) :
  (forall s, _audio_data (f s) = _audio_data s) ->
  triple stored_finite (modify f) (fun _ => True).
Proof.
  intros Hf w Hw. split; [| auto]. intros a. cbn [modify snd self]. rewrite Hf. apply Hw.
Qed.

#[local] Hint Resolve finite_audio_data_setter finite_stft_data_setter
  finite_set_active_region finite_set_active_region_to_default : core.

Lemma finite_concat other : triple stored_finite (concat other) (fun _ => True).
Proof. unfold concat. prove_triple. Qed.

Lemma finite_truncate_samples n : triple stored_finite (truncate_samples n) (fun _ => True).
Proof. unfold truncate_samples. prove_triple. Qed.

#[local] Hint Resolve finite_truncate_samples : core.

Lemma finite_truncate_seconds n : triple stored_finite (truncate_seconds n) (fun _ => True).
Proof. unfold truncate_seconds. prove_triple. Qed.

Lemma finite_crop_signal b a : triple stored_finite (crop_signal b a) (fun _ => True).
Proof. unfold crop_signal. prove_triple. Qed.

Lemma finite_zero_pad b a : triple stored_finite (zero_pad b a) (fun _ => True).
Proof. unfold zero_pad. prove_triple. Qed.

Lemma finite_peak_normalize ow : triple stored_finite (peak_normalize ow) (fun _ => True).
Proof. unfold peak_normalize. prove_triple. Qed.

Lemma finite_apply_gain v : triple stored_finite (apply_gain v) (fun _ => True).
Proof. unfold apply_gain. prove_triple. Qed.

#[local] Hint Resolve finite_apply_gain : core.

Lemma finite_add other : triple stored_finite (add other) stored_finite.
Proof. unfold add. prove_triple. Qed.

#[local] Hint Resolve finite_add : core.

Lemma finite_subtract other : triple stored_finite (subtract other) stored_finite.
Proof. unfold subtract. prove_triple. Qed.

Lemma finite_make_copy_with_stft_data t verbose :
  triple stored_finite (make_copy_with_stft_data t verbose) stored_finite.
Proof. unfold make_copy_with_stft_data. prove_triple. Qed.

#[local] Hint Resolve finite_make_copy_with_stft_data : core.

Lemma finite_apply_mask m : triple stored_finite (apply_mask m) stored_finite.
Proof. unfold apply_mask. prove_triple. Qed.

Lemma finite_audio_data_as_ints D b :
  triple stored_finite (audio_data_as_ints D b) (fun _ => True).
Proof. unfold audio_data_as_ints. prove_triple. Qed.

Lemma finite_istft f wl hl wt ow ul tl :
  triple stored_finite (istft f wl hl wt ow ul tl) (fun _ => True).
Proof. unfold istft, _do_istft, call. prove_triple. Qed.

Lemma finite_perform f D op :
  triple stored_finite (perform f D op)
         (fun r => match r with Some o => stored_finite o | None => True end).
Proof.
  pose proof finite_concat. pose proof finite_truncate_seconds.
  pose proof finite_crop_signal. pose proof finite_zero_pad.
  pose proof finite_peak_normalize.
  pose proof finite_subtract. pose proof finite_audio_data_as_ints.
  pose proof finite_apply_mask. pose proof finite_istft.
  destruct op; cbn [perform]; unfold discard, built; prove_triple.
Qed.

(** ** The further operations of the object *)

Inductive further_operation : Type :=
| To_mono (overwrite keep_dims : bool)
| Stft_to_one_channel (overwrite : bool)
| Load_audio_from_array (signal : array) (sample_rate_arg : option Z)
| Resample (new_sample_rate : Z)
| Stft (window_length hop_length : option Z) (window_type : option string)
       (n_fft_bins : option Z) (remove_reflection overwrite use_librosa : bool)
| Imul (value : option pynum)
| Idiv (value : pynum)
| Mul (value : option pynum)
| Div (value : option pynum)
| Make_copy_with_audio_data (audio : array) (verbose : bool)
| Make_copy_with_stft_data (stft : ndarray complex) (verbose : bool)
| Make_audio_signal_from_channel (n : Z).

Section FurtherOperations.

Variable mean : list float -> float.
Variable cmean : list complex -> complex.
Variable DEFAULT_SAMPLE_RATE : Z.
Variable librosa_resample : array -> option Z -> Z -> result (ndarray float).
Variable stft_func :
  bool -> array -> Z -> Z -> string -> Z -> bool -> result (ndarray complex).

(** One call on the object; the new object, for the methods that build one. *)
Definition perform_further (op : further_operation) : M (option AudioSignal) :=
  match op with
  | To_mono ow kd => discard (to_mono mean ow kd)
  | Stft_to_one_channel ow => discard (stft_to_one_channel cmean ow)
  | Load_audio_from_array a sr => discard (load_audio_from_array DEFAULT_SAMPLE_RATE a sr)
  | Resample r => discard (resample librosa_resample r)
  | Stft wl hl wt nf rr ow ul => discard (stft stft_func wl hl wt nf rr ow ul)
  | Imul v => discard (__imul__ v)
  | Idiv v => discard (__idiv__ v)
  | Mul v => built (__mul__ v)
  | Div v => built (__div__ v)
  | Make_copy_with_audio_data a verbose => built (make_copy_with_audio_data a verbose)
  | Make_copy_with_stft_data t verbose => built (make_copy_with_stft_data t verbose)
  | Make_audio_signal_from_channel n => built (make_audio_signal_from_channel n)
  end.

Lemma satisfies_modify_other R (f : AudioSignal -> AudioSignal) :
  (forall s, _audio_data (f s) = _audio_data s) ->
  (forall s, _active_start (f s) = _active_start s) ->
  (forall s, _active_end (f s) = _active_end s) ->
  triple (region_satisfies R) (modify f) (fun _ => True).
Proof.
  intros Ha Hb He w Hw. split; [| auto]. intros a. cbn [modify snd self].
  rewrite Ha, Hb, He. apply Hw.
Qed.

Lemma invariant_make_audio_signal_from_channel (P : AudioSignal -> Prop) n :
  (forall v, triple P (audio_data_setter v) (fun _ => True)) ->
  (forall v, triple P (stft_data_setter v) (fun _ => True)) ->
  triple P (make_audio_signal_from_channel n) P.
Proof.
  intros Ha Hs. unfold make_audio_signal_from_channel.
  eapply triple_bind; [apply (triple_get P) |]. intros new Hnew.
  eapply triple_bind; [apply triple_reads, reads_get_channel |]. intros ch _.
  eapply triple_bind; [exact (triple_with_object P P new _ _ (Ha _) Hnew) |].
  intros p [_ Hp].
  eapply triple_bind; [apply triple_reads, reads_get_stft_channel |]. intros st _.
  eapply triple_bind; [exact (triple_with_object P P (snd p) _ _ (Hs _) Hp) |].
  intros q [_ Hq]. now apply triple_ret.
Qed.

Lemma invariant_make_copy_with_audio_data (P : AudioSignal -> Prop) audio verbose :
  (forall v, triple P (audio_data_setter v) (fun _ => True)) ->
  (forall v, triple P (stft_data_setter v) (fun _ => True)) ->
  triple P (make_copy_with_audio_data audio verbose) P.
Proof.
  intros Ha Hs. unfold make_copy_with_audio_data.
  eapply (triple_bind P _ _ (fun _ => True)).
  { destruct verbose; prove_triple. }
  intros _ _.
  eapply triple_bind; [apply (triple_get P) |]. intros new Hnew.
  eapply triple_bind.
  { eapply (triple_with_object P P); [| exact Hnew].
    eapply triple_bind; [apply Ha |]. intros _ _. apply Hs. }
  intros p [_ Hp]. now apply triple_ret.
Qed.

Lemma invariant_mul (P : AudioSignal -> Prop) value :
  (forall v, triple P (audio_data_setter v) (fun _ => True)) ->
  (forall v, triple P (stft_data_setter v) (fun _ => True)) ->
  triple P (__mul__ value) P.
Proof.
  intros Ha Hs. unfold __mul__. destruct value as [v |]; [| apply triple_raise].
  eapply triple_bind; [apply triple_reads, reads_audio_data |]. intros [a |] _;
    [| apply triple_raise].
  destruct (np.multiply a v); [| apply triple_raise].
  now apply invariant_make_copy_with_audio_data.
Qed.

Lemma invariant_div (P : AudioSignal -> Prop) value :
  (forall v, triple P (audio_data_setter v) (fun _ => True)) ->
  (forall v, triple P (stft_data_setter v) (fun _ => True)) ->
  triple P (__div__ value) P.
Proof.
  intros Ha Hs. unfold __div__. destruct value as [v |]; [| apply triple_raise].
  eapply triple_bind; [apply triple_reads, reads_audio_data |]. intros a _.
  eapply (triple_bind P _ _ (fun _ => True)).
  { unfold py_float. prove_triple. }
  intros f _. destruct a; [| apply triple_raise].
  now apply invariant_make_copy_with_audio_data.
Qed.

Lemma invariant_perform_further (P : AudioSignal -> Prop) op :
  (forall v, triple P (audio_data_setter v) (fun _ => True)) ->
  (forall v, triple P (stft_data_setter v) (fun _ => True)) ->
  triple P set_active_region_to_default (fun _ => True) ->
  (forall v, triple P (apply_gain v) (fun _ => True)) ->
  (forall t verbose, triple P (make_copy_with_stft_data t verbose) P) ->
  (forall v, triple P (modify (with_path_to_input_file v)) (fun _ => True)) ->
  (forall v, triple P (modify (with_sample_rate v)) (fun _ => True)) ->
  triple P (perform_further op)
         (fun r => match r with Some o => P o | None => True end).
Proof.
  intros Ha Hs Hd Hg Hc Hp Hr.
  pose proof (invariant_make_audio_signal_from_channel P) as Hm.
  destruct op; cbn [perform_further]; unfold discard, built.
  - unfold to_mono. prove_triple.
  - unfold stft_to_one_channel. prove_triple.
  - unfold load_audio_from_array. prove_triple.
  - unfold resample, call. prove_triple.
  - unfold stft, _do_stft, call. prove_triple.
  - unfold __imul__. prove_triple.
  - unfold __idiv__, py_float. prove_triple.
  - eapply triple_bind; [now apply invariant_mul |].
    intros o Ho. now apply triple_ret.
  - eapply triple_bind; [now apply invariant_div |].
    intros o Ho. now apply triple_ret.
  - eapply triple_bind; [now apply invariant_make_copy_with_audio_data |].
    intros o Ho. now apply triple_ret.
  - eapply triple_bind; [apply Hc |].
    intros o Ho. now apply triple_ret.
  - eapply triple_bind; [now apply Hm |].
    intros o Ho. now apply triple_ret.
Qed.

End FurtherOperations.


Lemma mono4_stored_finite : stored_finite mono4.
Proof. intros a. vm_compute. intros [= <-]. reflexivity. Qed.


Lemma satisfies_perform_further R mean cmean D resampler g op :
  (forall n, 0 <= n -> R 0 n n) ->
  triple (region_satisfies R) (perform_further mean cmean D resampler g op)
         (fun r => match r with Some o => region_satisfies R o | None => True end).
Proof.
  intros R_full.
  pose proof (@satisfies_audio_data_setter R R_full) as Ha.
  pose proof (@satisfies_stft_data_setter R) as Hs.
  pose proof (@satisfies_set_active_region_to_default R R_full) as Hd.
  apply invariant_perform_further; auto.
  - intros v. now apply maintained_apply_gain.
  - intros t verbose. now apply maintained_make_copy_with_stft_data.
  - intros v. now apply satisfies_modify_other.
  - intros v. now apply satisfies_modify_other.
Qed.

(** The further operations keep the active region where the operations of
    C3 keep it.  After each of them, whether it returns or raises, the
    object holds no samples, or 2-D samples with [0 <= activeStart] and
    [activeEnd <= length], or the one sample that [load_audio_from_array]
    stores of a rank-0 array before it raises, which has no sample axis;
    so does an object the operation builds.  None of them calls
    [set_active_region], so [activeStart <= activeEnd] is kept too. *)
Theorem further_operations_keep_the_region_within :
  forall mean cmean DEFAULT_SAMPLE_RATE librosa_resample stft_func w op,
    (region_within (self w) ->
     region_within
       (self (snd (perform_further mean cmean DEFAULT_SAMPLE_RATE librosa_resample
                                   stft_func op w))) /\
     (forall o, fst (perform_further mean cmean DEFAULT_SAMPLE_RATE librosa_resample
                                     stft_func op w) = inr (Some o) ->
                region_within o)) /\
    (region_ordered (self w) ->
     region_ordered
       (self (snd (perform_further mean cmean DEFAULT_SAMPLE_RATE librosa_resample
                                   stft_func op w))) /\
     (forall o, fst (perform_further mean cmean DEFAULT_SAMPLE_RATE librosa_resample
                                     stft_func op w) = inr (Some o) ->
                region_ordered o)).
Proof.
  intros mean cmean R resampler g w op. split; intros Hw.
  - destruct (@satisfies_perform_further _ mean cmean R resampler g op full_within w Hw)
      as [H1 H2].
    split; [exact H1 |]. intros o Ho. exact (H2 (Some o) Ho).
  - destruct (@satisfies_perform_further _ mean cmean R resampler g op full_ordered w Hw)
      as [H1 H2].
    split; [exact H1 |]. intros o Ho. exact (H2 (Some o) Ho).
Qed.

Lemma further_operations_keep_the_region_within_witness :
  region_ordered
    (self (snd (perform_further sequential_mean (fun _ => czero) 44100 halve first_sample_stft
                                (Resample 22050) (mk_world mono4 [])))) /\
  region_within
    (self (snd (perform_further sequential_mean (fun _ => czero) 44100 halve first_sample_stft
                                (Load_audio_from_array scalar5 None) (mk_world mono4 [])))).
Proof.
  split.
  - exact (proj1 (proj2 (further_operations_keep_the_region_within
                           sequential_mean (fun _ => czero) 44100 halve first_sample_stft
                           (mk_world mono4 []) (Resample 22050))
                        mono4_region_ordered)).
  - exact (proj1 (proj1 (further_operations_keep_the_region_within
                           sequential_mean (fun _ => czero) 44100 halve first_sample_stft
                           (mk_world mono4 []) (Load_audio_from_array scalar5 None))
                        mono4_region_within)).
Defined.

(** ** A signal minus itself *)

Lemma fsub_self (u : float) : is_finite u = true -> (u - u)%float = 0%float.
Proof.
  intros H. apply Prim2SF_inj. rewrite FloatAxioms.sub_spec.
  change (Prim2SF 0) with (S754_zero false).
  unfold is_finite, is_nan, is_infinity in H.
  rewrite !FloatAxioms.eqb_spec, FloatAxioms.abs_spec in H.
  change (Prim2SF infinity) with (S754_infinity false) in H.
  destruct (Prim2SF u) as [[] | [] | | sx mx ex]; try discriminate; try reflexivity.
  unfold SF64sub, SFsub. rewrite Z.sub_diag. reflexivity.
Qed.

Lemma zip_with_sub_self (l : list float) :
  forallb is_finite l = true -> zip_with PrimFloat.sub l l = map (fun _ => 0%float) l.
Proof.
  unfold zip_with. induction l as [| u l IH]; cbn [combine map forallb fst snd];
    [reflexivity |].
  intros H. apply andb_true_iff in H as [Hu Hl]. now rewrite (fsub_self u Hu), IH.
Qed.

(** On an object holding [c <= n] finite float channels under a default
    region, [signal.subtract(signal)], that is [signal - signal], returns a
    new object of the same shape whose samples are all [+0.0]; the object
    itself is not changed. *)
Theorem subtract_self_is_silence :
  forall s log x c n,
    holds_full s (FloatArr x) c n -> (c <= n)%nat ->
    forallb is_finite (flat x) = true ->
    subtract s (mk_world s log) =
    (inr (with_samples (FloatArr (mk_ndarray [c; n] (map (fun _ => 0%float) (flat x)))) n s),
     mk_world s log).
Proof.
  intros s log x c n H Hle Hf. pose proof H as (_ & Hs & Hw & _).
  rewrite <- (zip_with_sub_self (flat x) Hf).
  apply (subtract_run s s log x x c n H Hle); auto.
  - exact (holds_full_views s _ c n H).
  - rewrite (zip_with_sub_self (flat x) Hf).
    clear. induction (flat x) as [| u l IH]; [reflexivity | exact IH].
Qed.

Lemma subtract_self_is_silence_witness :
  subtract mono4 (mk_world mono4 []) =
  (inr (with_samples (float_array [1; 4]%nat [0; 0; 0; 0]%float) 4 mono4), mk_world mono4 []).
Proof.
  apply (subtract_self_is_silence mono4 [] (mk_ndarray [1; 4]%nat [1; 2; 3; 4]%float) 1 4
           mono4_holds).
  - lia.
  - reflexivity.
Defined.

(** ** Calls that do not overwrite *)

Lemma reads_unchanged {A} (m : M A) w : reads m -> snd (m w) = w.
Proof. intros Hm. now rewrite (Hm w). Qed.

Lemma snd_bind_reads {A B} (m : M A) (k : A -> M B) w :
  reads m -> (forall a, eval m (self w) = inr a -> snd (k a w) = w) ->
  snd (bind m k w) = w.
Proof.
  intros Hm Hk. unfold bind. rewrite (Hm w).
  destruct (eval m (self w)) as [e | a]; [reflexivity | now apply Hk].
Qed.

Lemma reads_call {A} (r : result A) : reads (call r).
Proof. destruct r; [apply reads_raise | apply reads_ret]. Qed.

(** The calls that compute without storing change neither the object nor
    the warnings: [audio_data_as_ints], and [peak_normalize], [to_mono],
    [stft_to_one_channel] and [stft] with [overwrite=False]; [istft] with
    [overwrite=False] too, provided samples are stored (with none, it stores
    its result). *)
Theorem calls_without_overwrite_change_nothing :
  forall DEFAULT_BIT_DEPTH mean cmean stft_func istft_func (w : world),
    (forall bit_depth, snd (audio_data_as_ints DEFAULT_BIT_DEPTH bit_depth w) = w) /\
    snd (peak_normalize false w) = w /\
    (forall keep_dims, snd (to_mono mean false keep_dims w) = w) /\
    snd (stft_to_one_channel cmean false w) = w /\
    (forall wl hl wt nf rr ul, snd (stft stft_func wl hl wt nf rr false ul w) = w) /\
    (forall wl hl wt ul tl a,
        eval audio_data (self w) = inr (Some a) ->
        snd (istft istft_func wl hl wt false ul tl w) = w).
Proof.
  intros D mean cmean g f w.
  refine (conj _ (conj _ (conj _ (conj _ (conj _ _))))).
  - intros b. apply reads_unchanged. unfold audio_data_as_ints. prove_reads.
  - apply reads_unchanged. unfold peak_normalize. prove_reads.
  - intros kd. apply reads_unchanged. unfold to_mono. prove_reads.
  - apply reads_unchanged. unfold stft_to_one_channel. prove_reads.
  - intros wl hl wt nf rr ul. apply reads_unchanged. unfold stft, _do_stft.
    pose proof (@reads_call (ndarray complex)).
    prove_reads. apply reads_for_collect. intros i. prove_reads.
  - intros wl hl wt ul tl a Ha. unfold istft.
    apply snd_bind_reads; [apply reads_stft_data |]. intros t _.
    apply snd_bind_reads; [apply reads_raise_if |]. intros _ _.
    apply snd_bind_reads; [apply reads_get |]. intros s' _.
    apply snd_bind_reads.
    { unfold _do_istft. pose proof (@reads_call (ndarray float)).
      prove_reads. apply reads_for_collect. intros i. prove_reads. }
    intros sig _.
    apply snd_bind_reads; [destruct tl; auto |]. intros target _.
    apply snd_bind_reads; [destruct target as [k |]; [destruct (0 <? k) |]; auto |].
    intros truncated _.
    apply snd_bind_reads; [prove_reads |]. intros store Hstore.
    rewrite eval_bind, Ha in Hstore by apply reads_audio_data.
    injection Hstore as <-. reflexivity.
Qed.

Lemma calls_without_overwrite_change_nothing_witness :
  snd (istft silent_istft None None None false false None (mk_world stft_signal [])) =
  mk_world stft_signal [].
Proof.
  apply (proj2 (proj2 (proj2 (proj2 (proj2
           (calls_without_overwrite_change_nothing 16 sequential_mean (fun _ => czero)
              first_sample_stft silent_istft (mk_world stft_signal [])))))))
    with (a := wide).
  vm_compute. reflexivity.
Defined.
